(** * E-MFS: the in-memory file system of [e-mfs.hpp], embedded in Rocq

    The C++ code keeps its nodes behind [std::shared_ptr] handles, with a
    [std::weak_ptr] from every node back to its parent, and mutates them in
    place.  The embedding therefore keeps an explicit store: a finite map from
    handles to nodes.  A directory's [children] map holds handles, not nodes,
    so aliasing (a directory that is copied into its own subtree, a node that
    is re-parented) is visible exactly as it is in the source.

    Reclamation by reference counting is not modelled: a node that no handle
    reaches any more simply stays in the store, where no operation can find
    it (every public operation starts from [root]). *)

From Stdlib Require Import String Ascii ZArith List Sorting.Sorted Sorting.Permutation.
From Stdlib.Strings Require Import Byte.
From stdpp Require Import gmap strings list fin_maps sorting.

Local Open Scope string_scope.
Local Open Scope nat_scope.

Module e_mfs.

(** ** Exceptions and outcomes *)

(** The source has one exception class, [FileSystemException], whose instances
    differ only by their message.  The constructors below are the kinds the
    messages fall into; every [throw] of the source is quoted at the place
    where the embedding raises the kind. *)
Inductive FileSystemException : Set :=
  | InvalidPath
  | NotFound
  | NotADirectory
  | NotAFile
  | IsADirectory
  | AlreadyExists
  | DirectoryNotEmpty
  | CyclicMove
  | InternalError.

#[global] Instance FileSystemException_eq_dec : EqDecision FileSystemException.
Proof. solve_decision. Defined.

(** What a call can do: return, throw, dereference a handle that holds no
    node of the expected class (undefined behaviour in C++, never reached from
    a well-formed store), or exhaust the recursion budget the embedding gives
    to the loops and recursions that walk the store. *)
Inductive outcome (A : Type) : Type :=
  | Ret (a : A)
  | Throw (e : FileSystemException)
  | Fault
  | OutOfFuel.
Arguments Ret {A} a.
Arguments Throw {A} e.
Arguments Fault {A}.
Arguments OutOfFuel {A}.

#[global] Instance outcome_ret : MRet outcome := @Ret.
#[global] Instance outcome_bind : MBind outcome := λ A B k m,
  match m with
  | Ret a => k a
  | Throw e => Throw e
  | Fault => Fault
  | OutOfFuel => OutOfFuel
  end.

(** [try { body } catch (const FileSystemException&) { handler }] *)
Definition try_catch {A} (body : outcome A) (handler : FileSystemException → outcome A) : outcome A :=
  match body with
  | Throw e => handler e
  | r => r
  end.

Fixpoint foldlM {A B} (f : B → A → outcome B) (b : B) (l : list A) : outcome B :=
  match l with
  | [] => Ret b
  | a :: l' => b' ← f b a; foldlM f b' l'
  end.

Fixpoint mapM {A B} (f : A → outcome B) (l : list A) : outcome (list B) :=
  match l with
  | [] => Ret []
  | a :: l' => b ← f a; bs ← mapM f l'; Ret (b :: bs)
  end.

(** ** Nodes and the store *)

Inductive NodeType : Set := File | Directory.

#[global] Instance NodeType_eq_dec : EqDecision NodeType.
Proof. solve_decision. Defined.

(** A [std::shared_ptr] to a node. *)
Definition ptr := positive.

(** [FileNode::content] and [DirectoryNode::children]. *)
Inductive NodeData : Type :=
  | FileNode (content : list byte)
  | DirectoryNode (children : gmap string ptr).

(** [struct FSNode]: [name], the weak [parent] handle ([None] is the empty
    handle), and the fields of the derived class. *)
Record FSNode : Type := mkFSNode {
  name : string;
  parent : option ptr;
  data : NodeData
}.

Definition getType (n : FSNode) : NodeType :=
  match data n with
  | FileNode _ => File
  | DirectoryNode _ => Directory
  end.

(** [class FileSystem]: the [root] handle, together with the store its
    handles point into. *)
Record FileSystem : Type := mkFileSystem {
  heap : gmap ptr FSNode;
  root : ptr
}.

(** [p->...] *)
Definition deref (p : ptr) (fs : FileSystem) : outcome FSNode :=
  match heap fs !! p with
  | Some n => Ret n
  | None => Fault
  end.

(** [p->children] for a handle of static type [shared_ptr<DirectoryNode>]. *)
Definition children_of (p : ptr) (fs : FileSystem) : outcome (gmap string ptr) :=
  match heap fs !! p with
  | Some n =>
      match data n with
      | DirectoryNode children => Ret children
      | FileNode _ => Fault
      end
  | None => Fault
  end.

(** [w.lock()]: the handle, or the empty handle when its node is gone. *)
Definition lock (w : option ptr) (fs : FileSystem) : option ptr :=
  match w with
  | Some p => if heap fs !! p is Some _ then Some p else None
  | None => None
  end.

(** ** [std::stringstream] and [std::getline] *)

(** One call [std::getline(ss, component, '/')] on a stream whose unread part
    is [s] and is not empty: the component read, and what is left unread.  On
    an empty unread part the call fails and the [while] loop ends. *)
Fixpoint getline (s : string) : string * string :=
  match s with
  | "" => ("", "")
  | String c s' =>
      if decide (c = "/"%char) then ("", s')
      else let '(w, r) := getline s' in (String c w, r)
  end.

(** All the components [while (std::getline(ss, component, '/'))] reads from
    the unread part [s], in order.  After a component has been read,
    [ss.peek() != EOF] holds exactly when components are left to read. *)
Fixpoint getlines (s : string) : list string :=
  match s with
  | "" => []
  | String c s' =>
      if decide (c = "/"%char) then "" :: getlines s'
      else match getlines s' with
           | [] => [String c ""]
           | w :: ws => String c w :: ws
           end
  end.

(** [if (ss.peek() == '/') ss.ignore();] *)
Definition skip_slash (path : string) : string :=
  match path with
  | String c s' => if decide (c = "/"%char) then s' else path
  | "" => path
  end.

(** [path.find_last_of(c)], [None] for [npos]. *)
Fixpoint find_last_of (s : string) (c : ascii) : option nat :=
  match s with
  | "" => None
  | String a s' =>
      match find_last_of s' c with
      | Some i => Some (S i)
      | None => if decide (a = c) then Some 0 else None
      end
  end.

(** [path.substr(pos)] *)
Definition substr_from (pos : nat) (path : string) : string :=
  substring pos (String.length path - pos) path.

(** ** Path resolution *)

(** The loop of [_resolvePath] over the components still to read, from the
    directory [current]. *)
Fixpoint resolve_loop (fs : FileSystem) (components : list string) (current : ptr)
    : outcome ptr :=
  match components with
  | [] => Ret current
  | component :: rest =>
      if decide (component = "" ∨ component = ".") then resolve_loop fs rest current
      else if decide (component = "..") then
        if decide (current ≠ root fs) then
          nd ← deref current fs;
          match lock (parent nd) fs with
          | Some p => resolve_loop fs rest p
          | None => Fault
          end
        else resolve_loop fs rest current
      else
        children ← children_of current fs;
        match children !! component with
        | None => Throw NotFound (* "Path not found: " *)
        | Some child =>
            cn ← deref child fs;
            match getType cn with
            | Directory => resolve_loop fs rest child
            | File =>
                if decide (rest ≠ []) then
                  Throw NotADirectory (* "Path component is not a directory: " *)
                else Ret child
            end
        end
  end.

Definition _resolvePath (path : string) (fs : FileSystem) : outcome ptr :=
  if decide (path = "") then Throw InvalidPath (* "Path cannot be empty." *)
  else if decide (path = "/") then Ret (root fs)
  else resolve_loop fs (getlines (skip_slash path)) (root fs).

Definition _resolveParentAndName (path : string) (fs : FileSystem) : outcome (ptr * string) :=
  if decide (path = "" ∨ path = "/") then
    Throw InvalidPath (* "Invalid path for child creation: " *)
  else
    match find_last_of path "/" with
    | None => Throw InvalidPath (* "Paths must be absolute (start with '/'): " *)
    | Some last_slash =>
        let parentPath_sv :=
          if decide (last_slash = 0) then "/" else substring 0 last_slash path in
        let childName_sv := substr_from (last_slash + 1) path in
        if decide (childName_sv = "") then
          Throw InvalidPath (* "Path cannot end with a slash for this operation: " *)
        else
          parentNode ← _resolvePath parentPath_sv fs;
          nd ← deref parentNode fs;
          if decide (getType nd ≠ Directory) then
            Throw NotADirectory (* "Parent path is not a directory: " *)
          else Ret (parentNode, childName_sv)
    end.

(** The [try] block of [_resolveDestination]. *)
Definition _resolveDestination_try (dest_path source_name : string) (fs : FileSystem)
    : outcome (ptr * string) :=
  dest_node ← _resolvePath dest_path fs;
  nd ← deref dest_node fs;
  match data nd with
  | DirectoryNode children =>
      if children !! source_name is Some _ then
        Throw AlreadyExists (* "Destination '" + dest_path + "/" + source_name + "' already exists." *)
      else Ret (dest_node, source_name)
  | FileNode _ =>
      Throw AlreadyExists (* "Destination file already exists: " *)
  end.

(** The [catch] clause encloses the whole [try] block, the two [throw]s of the
    block included. *)
Definition _resolveDestination (dest_path source_name : string) (fs : FileSystem)
    : outcome (ptr * string) :=
  try_catch (_resolveDestination_try dest_path source_name fs)
            (λ _, _resolveParentAndName dest_path fs).

(** ** Mutating operations: a state and exception monad over the store *)

Definition M (A : Type) : Type := FileSystem → outcome A * FileSystem.

#[global] Instance M_ret : MRet M := λ A a fs, (Ret a, fs).
#[global] Instance M_bind : MBind M := λ A B k m fs,
  match m fs with
  | (Ret a, fs') => k a fs'
  | (Throw e, fs') => (Throw e, fs')
  | (Fault, fs') => (Fault, fs')
  | (OutOfFuel, fs') => (OutOfFuel, fs')
  end.

(** A [const] member function called from a mutating one. *)
Definition read {A} (f : FileSystem → outcome A) : M A := λ fs, (f fs, fs).

Definition throw {A} (e : FileSystemException) : M A := λ fs, (Throw e, fs).

(** [std::make_shared<...>(...)]: a handle no node of the store has. *)
Definition make_shared (n : FSNode) : M ptr := λ fs,
  let p := fresh (dom (heap fs)) in
  (Ret p, mkFileSystem (<[p := n]> (heap fs)) (root fs)).

(** [p->field = ...] *)
Definition modify_node (p : ptr) (f : FSNode → FSNode) : M unit := λ fs,
  match heap fs !! p with
  | Some n => (Ret tt, mkFileSystem (<[p := f n]> (heap fs)) (root fs))
  | None => (Fault, fs)
  end.

Definition modify_children (dir : ptr) (f : gmap string ptr → gmap string ptr) : M unit := λ fs,
  match heap fs !! dir with
  | Some n =>
      match data n with
      | DirectoryNode children =>
          (Ret tt, mkFileSystem
                     (<[dir := mkFSNode (name n) (parent n) (DirectoryNode (f children))]> (heap fs))
                     (root fs))
      | FileNode _ => (Fault, fs)
      end
  | None => (Fault, fs)
  end.

(** [dir->children[k] = child;] *)
Definition store_child (dir : ptr) (k : string) (child : ptr) : M unit :=
  modify_children dir (λ children, <[k := child]> children).

(** [dir->children.erase(k);] *)
Definition erase_child (dir : ptr) (k : string) : M unit :=
  modify_children dir (λ children, delete k children).

Fixpoint mkdir_loop (components : list string) (current : ptr) : M unit :=
  match components with
  | [] => mret tt
  | component :: rest =>
      if decide (component = "") then mkdir_loop rest current
      else
        children ← read (children_of current);
        match children !! component with
        | None =>
            newDir ← make_shared (mkFSNode component (Some current) (DirectoryNode ∅));
            store_child current component newDir;;
            mkdir_loop rest newDir
        | Some child =>
            cn ← read (deref child);
            if decide (getType cn ≠ Directory) then
              throw NotADirectory (* "A file exists at path component: " *)
            else mkdir_loop rest child
        end
  end.

Definition mkdir (path : string) : M unit := λ fs,
  if decide (path = "/") then (Ret tt, fs)
  else mkdir_loop (getlines (skip_slash path)) (root fs) fs.

Definition touch (path : string) : M unit :=
  '(parent, fileName) ← read (_resolveParentAndName path);
  children ← read (children_of parent);
  match children !! fileName with
  | Some child =>
      cn ← read (deref child);
      if decide (getType cn ≠ File) then
        throw NotAFile (* "Cannot touch '...', a directory with that name exists." *)
      else mret tt
  | None =>
      newFile ← make_shared (mkFSNode fileName (Some parent) (FileNode []));
      store_child parent fileName newFile
  end.

Definition writeFile (path : string) (content : list byte) : M unit :=
  '(parent, fileName) ← read (_resolveParentAndName path);
  children ← read (children_of parent);
  occupied ← match children !! fileName with
             | Some child => cn ← read (deref child); mret (bool_decide (getType cn = Directory))
             | None => mret false
             end;
  if (occupied : bool) then
    throw IsADirectory (* "Cannot write to '...', it is a directory." *)
  else
    file ← make_shared (mkFSNode fileName (Some parent) (FileNode content));
    store_child parent fileName file.

(** The overload taking a [std::string_view]. *)
Definition writeFile_sv (path content : string) : M unit :=
  writeFile path (list_byte_of_string content).

Definition append (path : string) (content : list byte) : M unit :=
  node ← read (_resolvePath path);
  nd ← read (deref node);
  match data nd with
  | DirectoryNode _ => throw NotAFile (* "Path is not a file: " *)
  | FileNode old =>
      modify_node node (λ n, mkFSNode (name n) (parent n) (FileNode (old ++ content)))
  end.

(** The overload taking a [std::string_view]. *)
Definition append_sv (path content : string) : M unit :=
  append path (list_byte_of_string content).

Definition cat (path : string) (fs : FileSystem) : outcome (list byte) :=
  node ← _resolvePath path fs;
  nd ← deref node fs;
  match data nd with
  | DirectoryNode _ => Throw NotAFile (* "Path is not a file: " *)
  | FileNode content => Ret content
  end.

Definition catAsString (path : string) (fs : FileSystem) : outcome string :=
  content ← cat path fs; Ret (string_of_list_byte content).

Definition rm (path : string) (recursive : bool) : M unit :=
  if decide (path = "/") then throw InvalidPath (* "Cannot remove the root directory." *)
  else
    '(parent, nm) ← read (_resolveParentAndName path);
    children ← read (children_of parent);
    match children !! nm with
    | None => throw NotFound (* "Path not found: " *)
    | Some child =>
        cn ← read (deref child);
        match data cn with
        | DirectoryNode grandchildren =>
            if decide (recursive = false ∧ grandchildren ≠ ∅) then
              throw DirectoryNotEmpty (* "Directory not empty, use recursive flag: " *)
            else erase_child parent nm
        | FileNode _ => erase_child parent nm
        end
    end.

(** The [for] loop of [_recursiveCopy] over the children of [source], in the
    order [entries]; [recur] is the recursive call. *)
Fixpoint copy_entries (recur : ptr → ptr → M unit) (dest : ptr) (entries : list (string * ptr))
    : M unit :=
  match entries with
  | [] => mret tt
  | (_, child) :: rest =>
      cn ← read (deref child);
      match data cn with
      | FileNode content =>
          newFile ← make_shared (mkFSNode (name cn) (Some dest) (FileNode content));
          store_child dest (name cn) newFile;;
          copy_entries recur dest rest
      | DirectoryNode _ =>
          newDir ← make_shared (mkFSNode (name cn) (Some dest) (DirectoryNode ∅));
          store_child dest (name cn) newDir;;
          recur child newDir;;
          copy_entries recur dest rest
      end
  end.

(** [fuel] bounds the depth of the recursion.  The children of [source] are
    visited in the order [map_to_list] lists them; [std::unordered_map] fixes
    no order. *)
Fixpoint _recursiveCopy (fuel : nat) (source dest : ptr) : M unit :=
  match fuel with
  | 0 => λ fs, (OutOfFuel, fs)
  | S fuel' =>
      children ← read (children_of source);
      copy_entries (_recursiveCopy fuel') dest (map_to_list children)
  end.

Definition cp (fuel : nat) (sourcePath destPath : string) : M unit :=
  sourceNode ← read (_resolvePath sourcePath);
  sn ← read (deref sourceNode);
  '(destParent, newName) ← read (_resolveDestination destPath (name sn));
  siblings ← read (children_of destParent);
  if siblings !! newName is Some _ then
    throw AlreadyExists (* "Destination already exists: " *)
  else
    match data sn with
    | FileNode content =>
        newFile ← make_shared (mkFSNode newName (Some destParent) (FileNode content));
        store_child destParent newName newFile
    | DirectoryNode _ =>
        newDir ← make_shared (mkFSNode newName (Some destParent) (DirectoryNode ∅));
        store_child destParent newName newDir;;
        _recursiveCopy fuel sourceNode newDir
    end.

(** The [while (tempParent)] loop of [mv]; every test of the loop condition
    that finds a handle costs one unit of [fuel]. *)
Fixpoint mv_guard (fuel : nat) (tempParent : option ptr) (sourceNode : ptr) (fs : FileSystem)
    : outcome unit :=
  match tempParent with
  | None => Ret tt
  | Some t =>
      match fuel with
      | 0 => OutOfFuel
      | S fuel' =>
          if decide (t = sourceNode) then
            Throw CyclicMove (* "Cannot move a directory into itself." *)
          else
            tn ← deref t fs;
            mv_guard fuel' (lock (parent tn) fs) sourceNode fs
      end
  end.

Definition mv (fuel : nat) (sourcePath destPath : string) : M unit :=
  if decide (sourcePath = "/") then throw InvalidPath (* "Cannot move the root directory." *)
  else
    sourceNode ← read (_resolvePath sourcePath);
    sn ← read (deref sourceNode);
    oldParent ← read (λ fs, Ret (lock (parent sn) fs));
    match oldParent with
    | None => throw InternalError (* "Internal error: source node has no parent." *)
    | Some oldParent =>
        '(newParent, newName) ← read (_resolveDestination destPath (name sn));
        read (mv_guard fuel (Some newParent) sourceNode);;
        erase_child oldParent (name sn);;
        modify_node sourceNode (λ n, mkFSNode newName (Some newParent) (data n));;
        store_child newParent newName sourceNode
    end.

(** ** Listing, existence and size *)

(** [std::sort] on [std::string]s: [operator<] compares byte by byte, as
    unsigned values, which is [String.compare].  On a total order the sorted
    sequence is determined by the elements, so any sorting algorithm stands
    for it; insertion keeps the definition short. *)
Fixpoint sort_insert (x : string) (l : list string) : list string :=
  match l with
  | [] => [x]
  | y :: l' => if String.leb x y then x :: l else y :: sort_insert x l'
  end.

Definition sort (l : list string) : list string := foldr sort_insert [] l.

(** The [for] loop of [ls] over the children in the order [order]. *)
Definition ls_entries (order : list (string * ptr)) (fs : FileSystem) : outcome (list string) :=
  mapM (λ '(nm, child),
          cn ← deref child fs;
          Ret (nm ++ (if decide (getType cn = Directory) then "/" else ""))) order.

(** [ls] when the [std::unordered_map] hands out the children of a directory
    in the order [enum] chooses. *)
Definition ls_in_order (enum : gmap string ptr → list (string * ptr))
    (path : string) (fs : FileSystem) : outcome (list string) :=
  node ← _resolvePath path fs;
  nd ← deref node fs;
  match data nd with
  | FileNode _ => Throw NotADirectory (* "Path is not a directory: " *)
  | DirectoryNode children =>
      entries ← ls_entries (enum children) fs;
      Ret (sort entries)
  end.

Definition ls : string → FileSystem → outcome (list string) := ls_in_order map_to_list.

(** [catch (...)] catches what is thrown; it does not make a dereference of a
    bad handle defined. *)
Definition exists_ (path : string) (fs : FileSystem) : outcome bool :=
  match _resolvePath path fs with
  | Ret _ => Ret true
  | Throw _ => Ret false
  | Fault => Fault
  | OutOfFuel => OutOfFuel
  end.

Definition getNodeType (path : string) (fs : FileSystem) : outcome NodeType :=
  node ← _resolvePath path fs;
  nd ← deref node fs;
  Ret (getType nd).

(** [size_t] is 64 bits wide; [+=] wraps. *)
Definition size_t_add (a b : Z) : Z := ((a + b) mod 2 ^ 64)%Z.

(** The virtual [FSNode::size()]: [FileNode::size] is [content.size()], a
    [std::vector] length, which fits a [size_t]; [DirectoryNode::size] adds up
    its children.  [fuel] bounds the depth of the recursion. *)
Fixpoint FSNode_size (fuel : nat) (fs : FileSystem) (p : ptr) : outcome Z :=
  match fuel with
  | 0 => OutOfFuel
  | S fuel' =>
      nd ← deref p fs;
      match data nd with
      | FileNode content => Ret (Z.of_nat (length content))
      | DirectoryNode children =>
          foldlM (λ total_size '(_, child),
                    s ← FSNode_size fuel' fs child; Ret (size_t_add total_size s))
                 0%Z (map_to_list children)
      end
  end.

Definition size (fuel : nat) (path : string) (fs : FileSystem) : outcome Z :=
  node ← _resolvePath path fs;
  FSNode_size fuel fs node.

(** The aliases. *)
Definition dir := ls.
Definition del := rm.
Definition ren := mv.
Definition type := catAsString.

(** [FileSystem()] *)
Definition FileSystem_new : FileSystem :=
  let r := fresh (dom (∅ : gmap ptr FSNode)) in
  mkFileSystem {[ r := mkFSNode "/" None (DirectoryNode ∅) ]} r.

End e_mfs.

Import e_mfs.

(** * Vocabulary of the statements *)

(** The state a mutating call leaves, and what the call did. *)
Definition run {A} (m : M A) (fs : FileSystem) : FileSystem := snd (m fs).
Definition result {A} (m : M A) (fs : FileSystem) : outcome A := fst (m fs).

(** The order [std::sort] sorts [std::string]s by. *)
Definition string_le (s1 s2 : string) : Prop := String.leb s1 s2 = true.

#[global] Instance string_le_dec s1 s2 : Decision (string_le s1 s2).
Proof. unfold string_le. apply _. Defined.

(** [s] has no slash in it. *)
Definition no_slash (s : string) : Prop := find_last_of s "/" = None.

(** The line [ls] prints for the entry [k ↦ c]. *)
Definition entry_of (fs : FileSystem) (e : string * ptr) : string :=
  e.1 ++ match heap fs !! e.2 with
         | Some cn => if decide (getType cn = Directory) then "/" else ""
         | None => ""
         end.

(** The body of the loop of [DirectoryNode::size]. *)
Definition size_step (fuel : nat) (fs : FileSystem) (total_size : Z) (e : string * ptr)
    : outcome Z :=
  let '(_, child) := e in s ← FSNode_size fuel fs child; Ret (size_t_add total_size s).

(** The sum, over the entries of a directory, of what [sz] gives for the
    node an entry leads to. *)
Definition children_total (sz : ptr → Z) (children : gmap string ptr) : Z :=
  foldr (λ e s, sz e.2 + s)%Z 0%Z (map_to_list children).

(** The store in which the directory [d], whose node was [dn], has the
    entries [children']. *)
Definition with_children (fs : FileSystem) (d : ptr) (dn : FSNode)
    (children' : gmap string ptr) : FileSystem :=
  mkFileSystem
    (<[d := mkFSNode (name dn) (parent dn) (DirectoryNode children')]> (heap fs))
    (root fs).

(** The store once a new node [n] has been made and stored under [k] in the
    directory [dest], whose node was [dn] with entries [children]. *)
Definition created (fs : FileSystem) (dest : ptr) (dn : FSNode)
    (children : gmap string ptr) (k : string) (n : FSNode) : FileSystem :=
  with_children (mkFileSystem (<[fresh (dom (heap fs)) := n]> (heap fs)) (root fs))
    dest dn (<[k := fresh (dom (heap fs))]> children).

(** ** The invariant of the data model *)

(** The structural invariant of section 3 of the specification, on the
    store: the root is a directory called "/" without a parent, and every
    entry [k ↦ c] of a directory [d] leads to a node whose [parent] is [d] and
    whose [name] is [k]. *)
Record wf (fs : FileSystem) : Prop := mk_wf {
  wf_root :
    ∃ children, heap fs !! root fs = Some (mkFSNode "/" None (DirectoryNode children));
  wf_child :
    ∀ d nd children k c,
      heap fs !! d = Some nd → data nd = DirectoryNode children → children !! k = Some c →
      ∃ cn, heap fs !! c = Some cn ∧ parent cn = Some d ∧ name cn = k
}.

(** A checker for [wf], for stores given in full. *)
Definition wf_entryb (fs : FileSystem) (d : ptr) (e : string * ptr) : bool :=
  match heap fs !! e.2 with
  | Some cn => bool_decide (parent cn = Some d ∧ name cn = e.1)
  | None => false
  end.

Definition wf_nodeb (fs : FileSystem) (e : ptr * FSNode) : bool :=
  match data e.2 with
  | DirectoryNode children => forallb (wf_entryb fs e.1) (map_to_list children)
  | FileNode _ => true
  end.

Definition wfb (fs : FileSystem) : bool :=
  match heap fs !! root fs with
  | Some nd => bool_decide (name nd = "/" ∧ parent nd = None ∧ getType nd = Directory)
  | None => false
  end
  && forallb (wf_nodeb fs) (map_to_list (heap fs)).

Definition is_dir (fs : FileSystem) (p : ptr) : Prop :=
  ∃ nd children, heap fs !! p = Some nd ∧ data nd = DirectoryNode children.

(** A node without entries: a file, or an empty directory. *)
Definition leaf (n : FSNode) : Prop :=
  match data n with
  | FileNode _ => True
  | DirectoryNode children => children = ∅
  end.

(** The directory [d] has an entry that leads to [c]. *)
Definition child_edge (fs : FileSystem) (d c : ptr) : Prop :=
  ∃ nd children k,
    heap fs !! d = Some nd ∧ data nd = DirectoryNode children ∧ children !! k = Some c.

(** [chain fs p ancestors]: [p] is reached from the root through entries of
    directories; [ancestors] lists the directories passed, nearest first,
    the root last. *)
Inductive chain (fs : FileSystem) : ptr → list ptr → Prop :=
  | chain_root : chain fs (root fs) []
  | chain_child d ancestors c :
      chain fs d ancestors → child_edge fs d c → chain fs c (d :: ancestors).

Definition reachable (fs : FileSystem) (p : ptr) : Prop := ∃ ancestors, chain fs p ancestors.

(** [leads fs dest x]: [dest] is [x] or lies below [x]; the entries followed
    from [x] stop at the first arrival at [dest]. *)
Inductive leads (fs : FileSystem) (dest : ptr) : ptr → Prop :=
  | leads_here : leads fs dest dest
  | leads_step x c :
      x ≠ dest → child_edge fs x c → leads fs dest c → leads fs dest x.

(** From [fs] to [fs'] no node that [fs] has, other than [d], was changed. *)
Definition frame (fs fs' : FileSystem) (d : ptr) : Prop :=
  ∀ x nd, heap fs !! x = Some nd → x ≠ d → heap fs' !! x = Some nd.

(** ** The public mutating operations, as one type *)

Inductive mutation : Type :=
  | Mkdir (path : string)
  | Touch (path : string)
  | WriteFile (path : string) (content : list byte)
  | Append (path : string) (content : list byte)
  | Rm (path : string) (recursive : bool)
  | Cp (sourcePath destPath : string)
  | Mv (sourcePath destPath : string).

Definition perform (fuel : nat) (op : mutation) : M unit :=
  match op with
  | Mkdir path => mkdir path
  | Touch path => touch path
  | WriteFile path content => writeFile path content
  | Append path content => append path content
  | Rm path recursive => rm path recursive
  | Cp sourcePath destPath => cp fuel sourcePath destPath
  | Mv sourcePath destPath => mv fuel sourcePath destPath
  end.

(** The states the public operations can produce from a fresh tree. *)
Inductive built : FileSystem → Prop :=
  | built_new : built FileSystem_new
  | built_step fuel op fs : built fs → built (run (perform fuel op) fs).

(** A call is atomic when a throw leaves the store as it found it; it is
    silent when it does not throw at all. *)
Definition atomic {A} (m : M A) : Prop :=
  ∀ fs e fs', m fs = (Throw e, fs') → fs' = fs.

Definition silent {A} (m : M A) : Prop :=
  ∀ fs e fs', m fs ≠ (Throw e, fs').

Create HintDb silent.

(** ** Stores used as examples *)

(** A fresh tree after [mkdir("/home")] and [mkdir("/tmp")]. *)
Definition fs_home_tmp : FileSystem :=
  run (mkdir "/tmp") (run (mkdir "/home") FileSystem_new).

(** A fresh tree with a directory [/home] and a four-byte file [/notes]. *)
Definition fs_notes : FileSystem :=
  run (writeFile "/notes" [xde; xad; xbe; xef]%byte) (run (mkdir "/home") FileSystem_new).

(** A directory [/d] holding a file [f], next to a file [/f]. *)
Definition fs_d_f : FileSystem :=
  run (writeFile_sv "/f" "new")
    (run (writeFile_sv "/d/f" "old") (run (mkdir "/d") FileSystem_new)).

(** Two files, [/f] and [/g]. *)
Definition fs_f_g : FileSystem :=
  run (writeFile_sv "/g" "kept") (run (writeFile_sv "/f" "moved") FileSystem_new).

(** A fresh tree with one directory, [/a]. *)
Definition fs_a : FileSystem := run (mkdir "/a") FileSystem_new.

(** Directories [/a] and [/a/b]. *)
Definition fs_a_b : FileSystem := run (mkdir "/a/b") FileSystem_new.

(** A directory [/a] next to a file [/a.txt]. *)
Definition fs_a_txt : FileSystem :=
  run (touch "/a.txt") (run (mkdir "/a") FileSystem_new).

(** A directory [/dir] with a 10-byte file and a 20-byte file. *)
Definition fs_sizes : FileSystem :=
  run (writeFile_sv "/dir/twenty" "01234567890123456789")
    (run (writeFile_sv "/dir/ten" "0123456789") (run (mkdir "/dir") FileSystem_new)).

(** ** Relations between the store before and after a call *)

(** From [fs] to [fs'] nothing was taken away: every node is still there
    with its name and its parent, a file with its content, a directory with
    the entries it had. *)
Definition extends (fs fs' : FileSystem) : Prop :=
  root fs' = root fs
  ∧ ∀ p nd, heap fs !! p = Some nd →
      ∃ nd', heap fs' !! p = Some nd'
        ∧ name nd' = name nd ∧ parent nd' = parent nd
        ∧ match data nd with
          | FileNode _ => data nd' = data nd
          | DirectoryNode children =>
              ∃ children', data nd' = DirectoryNode children' ∧ children ⊆ children'
          end.

(** [fs] and [fs'] have the same nodes, with the same names, parents and
    entries; only the content of files may differ. *)
Definition same_shape (fs fs' : FileSystem) : Prop :=
  root fs' = root fs
  ∧ ∀ p, match heap fs !! p, heap fs' !! p with
         | Some nd, Some nd' =>
             name nd' = name nd ∧ parent nd' = parent nd
             ∧ match data nd, data nd' with
               | FileNode _, FileNode _ => True
               | DirectoryNode children, DirectoryNode children' => children' = children
               | _, _ => False
               end
         | None, None => True
         | _, _ => False
         end.

(** No component of [path] is "." or "..". *)
Definition plain (path : string) : Prop :=
  Forall (λ component, component ≠ "." ∧ component ≠ "..") (getlines (skip_slash path)).

(** The store in which the file [p], whose node was [n], holds [content]. *)
Definition with_content (fs : FileSystem) (p : ptr) (n : FSNode) (content : list byte)
    : FileSystem :=
  mkFileSystem (<[p := mkFSNode (name n) (parent n) (FileNode content)]> (heap fs)) (root fs).

(** Every exception the call [m] can throw is one of [kinds]. *)
Definition throws_only {A} (kinds : list FileSystemException) (m : M A) : Prop :=
  ∀ fs e fs', m fs = (Throw e, fs') → e ∈ kinds.

(** From [fs] to [fs'] every directory is still there, with its name and
    its parent, and has kept every entry that leads to a directory. *)
Definition keeps_directories (fs fs' : FileSystem) : Prop :=
  root fs' = root fs
  ∧ ∀ p nd children,
      heap fs !! p = Some nd → data nd = DirectoryNode children →
      ∃ children',
        heap fs' !! p = Some (mkFSNode (name nd) (parent nd) (DirectoryNode children'))
        ∧ ∀ k c, children !! k = Some c → is_dir fs c → children' !! k = Some c.

(** While the tree below [s0] in [fs0] is copied: [fs] still has every node
    of that tree as [fs0] had it. *)
Definition below_kept (fs0 : FileSystem) (s0 : ptr) (fs : FileSystem) : Prop :=
  ∀ x nd, leads fs0 x s0 → heap fs0 !! x = Some nd → heap fs !! x = Some nd.

(** [mirrors new n fs a fs' b]: the node [b] of [fs'] is a copy of the node
    [a] of [fs], down to depth [n]: a file with the same content, or a
    directory with the same names, under which the one has copies of what
    the other has; the nodes the copy is made of satisfy [new]. *)
Fixpoint mirrors (new : ptr → Prop) (n : nat) (fs : FileSystem) (a : ptr)
    (fs' : FileSystem) (b : ptr) : Prop :=
  match heap fs !! a, heap fs' !! b with
  | Some an, Some bn =>
      match data an, data bn with
      | FileNode content, FileNode content' => content' = content
      | DirectoryNode children, DirectoryNode children' =>
          match n with
          | 0 => False
          | S n' =>
              dom children' = dom children
              ∧ ∀ k x y, children !! k = Some x → children' !! k = Some y →
                         new y ∧ mirrors new n' fs x fs' y
          end
      | _, _ => False
      end
  | _, _ => False
  end.

(** From [fs] to [fs'] every directory other than [s] is still there, with
    its name and its parent, and has kept every entry that leads to a
    directory other than [s]. *)
Definition keeps_directories_but (s : ptr) (fs fs' : FileSystem) : Prop :=
  root fs' = root fs
  ∧ ∀ p nd children,
      p ≠ s → heap fs !! p = Some nd → data nd = DirectoryNode children →
      ∃ children',
        heap fs' !! p = Some (mkFSNode (name nd) (parent nd) (DirectoryNode children'))
        ∧ ∀ k c, children !! k = Some c → is_dir fs c → c ≠ s → children' !! k = Some c.

(** At [s] and below it, the nodes of [fs'] hold what those of [fs] hold:
    the same content, the same entries. *)
Definition same_below (s : ptr) (fs fs' : FileSystem) : Prop :=
  ∀ x k, nsteps (child_edge fs) k s x → data <$> heap fs' !! x = data <$> heap fs !! x.

(** * Part 1: facts used throughout *)

(** ** Strings: components and the split at the last slash *)

Lemma getlines_nonempty s : s ≠ "" → getlines s ≠ [].
Proof.
  destruct s as [|c s]; [done|]. intros _. simpl.
  destruct (decide (c = "/"%char)); [done|]. by destruct (getlines s).
Qed.

(** [getlines] is the iteration of [getline]. *)
Lemma getlines_getline s :
  s ≠ "" → getlines s = (getline s).1 :: getlines (getline s).2.
Proof.
  induction s as [|c s IH]; [done|]. intros _. simpl.
  destruct (decide (c = "/"%char)); [done|].
  destruct s as [|c' s]; [done|].
  rewrite IH by done. by destruct (getline (String c' s)).
Qed.

Lemma getlines_app_slash x q :
  getlines (x ++ String "/" q) = (getlines (x ++ "/") ++ getlines q)%list.
Proof.
  induction x as [|c x IH]; simpl; [done|].
  destruct (decide (c = "/"%char)); [by rewrite IH|].
  rewrite IH.
  pose proof (getlines_nonempty (x ++ "/")) as Hne.
  destruct (getlines (x ++ "/")) as [|w ws]; [|done].
  exfalso. apply Hne; [|done]. by destruct x.
Qed.

Lemma getlines_slash_end x :
  getlines (x ++ "/") = getlines x ∨ getlines (x ++ "/") = (getlines x ++ [""])%list.
Proof.
  induction x as [|c x IH]; simpl; [by right|].
  destruct (decide (c = "/"%char)).
  - destruct IH as [-> | ->]; [by left|by right].
  - destruct IH as [-> | ->]; [by left|].
    destruct (getlines x) as [|w ws]; simpl; [by left|by right].
Qed.

Lemma no_slash_cons c s : no_slash (String c s) ↔ c ≠ "/"%char ∧ no_slash s.
Proof.
  unfold no_slash. simpl. destruct (find_last_of s "/").
  - split; [done|by intros [_ ?]].
  - destruct (decide (c = "/"%char)); split; try done. by intros [? _].
Qed.

Lemma getlines_no_slash s : no_slash s → s ≠ "" → getlines s = [s].
Proof.
  induction s as [|c s IH]; [done|]. intros [Hc Hs]%no_slash_cons _. simpl.
  destruct (decide (c = "/"%char)); [done|].
  destruct s as [|c' s]; [done|]. by rewrite IH.
Qed.

Lemma substring_0_0 s : substring 0 0 s = "".
Proof. by destruct s. Qed.

(** [path.find_last_of('/')] splits [path] into what [substr(0, last_slash)]
    and [substr(last_slash + 1)] return, with the slash in between. *)
Lemma find_last_of_split path i :
  find_last_of path "/" = Some i →
  path = substring 0 i path ++ String "/" (substr_from (i + 1) path)
  ∧ no_slash (substr_from (i + 1) path).
Proof.
  revert i. induction path as [|c path IH]; intros i; simpl; [done|].
  destruct (find_last_of path "/") as [j|] eqn:Hj.
  - intros [= <-]. destruct (IH j eq_refl) as [Heq Hns].
    unfold substr_from in *. split.
    + change (String c path
              = String c (substring 0 j path
                          ++ String "/" (substring (j + 1) (String.length path - (j + 1)) path))).
      by f_equal.
    + exact Hns.
  - destruct (decide (c = "/"%char)) as [->|]; [|done]. intros [= <-].
    unfold substr_from. simpl. rewrite Nat.sub_0_r.
    assert (∀ s, substring 0 (String.length s) s = s) as Hid.
    { induction s as [|a s IHs]; simpl; [done|]. by rewrite IHs. }
    by rewrite Hid.
Qed.

(** The components [_resolvePath] walks for a path are those it walks for the
    parent part, then possibly an empty one, then the final name; a longer
    path below continues from there. *)
Lemma path_components path i :
  find_last_of path "/" = Some i →
  substr_from (i + 1) path ≠ "" →
  ∃ prefix,
    (∀ fs, _resolvePath (if decide (i = 0) then "/" else substring 0 i path) fs
           = resolve_loop fs prefix (root fs))
    ∧ (getlines (skip_slash path) = (prefix ++ [substr_from (i + 1) path])%list
       ∨ getlines (skip_slash path) = (prefix ++ [""; substr_from (i + 1) path])%list).
Proof.
  intros Hi Hnm. destruct (find_last_of_split path i Hi) as [Hsplit Hns].
  set (nm := substr_from (i + 1) path) in *.
  set (pre := substring 0 i path) in *.
  destruct (decide (i = 0)) as [->|Hi0].
  - exists []. split; [done|]. left.
    unfold pre in Hsplit. rewrite substring_0_0 in Hsplit. rewrite Hsplit. simpl.
    by apply getlines_no_slash.
  - assert (pre ≠ "") as Hpre.
    { unfold pre. destruct path as [|c path]; [done|]. destruct i; [done|]. done. }
    exists (getlines (skip_slash pre)). split.
    + intros fs. unfold _resolvePath.
      destruct (decide (pre = "")); [done|].
      destruct (decide (pre = "/")) as [->|]; done.
    + assert (skip_slash path = skip_slash pre ++ String "/" nm) as ->.
      { rewrite Hsplit. destruct pre as [|c pre']; [done|]. simpl.
        by destruct (decide (c = "/"%char)). }
      rewrite getlines_app_slash. rewrite (getlines_no_slash nm) by done.
      destruct (getlines_slash_end (skip_slash pre)) as [-> | ->]; [by left|right].
      by rewrite <- app_assoc.
Qed.


(** ** The order on strings and [std::sort] *)

Lemma ascii_compare_N a b : Ascii.compare a b = N.compare (N_of_ascii a) (N_of_ascii b).
Proof. reflexivity. Qed.

Lemma string_compare_lt_trans s1 s2 s3 :
  String.compare s1 s2 = Lt → String.compare s2 s3 = Lt → String.compare s1 s3 = Lt.
Proof.
  revert s2 s3. induction s1 as [|a s1 IH]; intros [|b s2] [|c s3]; simpl; try done.
  rewrite !ascii_compare_N.
  destruct (N.compare_spec (N_of_ascii a) (N_of_ascii b)) as [Hab|Hab|Hab];
  destruct (N.compare_spec (N_of_ascii b) (N_of_ascii c)) as [Hbc|Hbc|Hbc]; try done; intros H1 H2.
  - rewrite <- Hab in Hbc. rewrite (proj2 (N.compare_eq_iff _ _) Hbc). eauto.
  - rewrite (proj2 (N.compare_lt_iff _ _)); [done|lia].
  - rewrite (proj2 (N.compare_lt_iff _ _)); [done|lia].
  - rewrite (proj2 (N.compare_lt_iff _ _)); [done|lia].
Qed.

#[local] Instance string_le_trans : Transitive string_le.
Proof.
  intros s1 s2 s3. unfold string_le, String.leb.
  destruct (String.compare s1 s2) eqn:H12; [|destruct (String.compare s2 s3) eqn:H23|done].
  - apply String.compare_eq_iff in H12 as ->. done.
  - apply String.compare_eq_iff in H23 as ->. rewrite H12. done.
  - rewrite (string_compare_lt_trans _ _ _ H12 H23). done.
  - done.
Qed.

#[local] Instance string_le_antisym : AntiSymm (=) string_le.
Proof. intros s1 s2. apply String.leb_antisym. Qed.

#[local] Instance string_le_total : Total string_le.
Proof. intros s1 s2. apply String.leb_total. Qed.

Lemma sort_insert_perm x l : sort_insert x l ≡ₚ x :: l.
Proof.
  induction l as [|y l IH]; simpl; [done|].
  destruct (String.leb x y); [done|]. rewrite IH. apply Permutation_swap.
Qed.

Lemma sort_perm l : sort l ≡ₚ l.
Proof.
  induction l as [|x l IH]; simpl; [done|].
  rewrite sort_insert_perm. by rewrite IH.
Qed.

Lemma sort_insert_sorted x l : Sorted string_le l → Sorted string_le (sort_insert x l).
Proof.
  induction 1 as [|y l Hl IH Hhd]; simpl; [by repeat constructor|].
  destruct (String.leb x y) eqn:Hxy.
  - constructor; [by constructor|]. by constructor.
  - constructor; [done|].
    assert (string_le y x) as Hyx.
    { destruct (String.leb_total x y) as [H|H]; [congruence|done]. }
    destruct Hhd as [|z l Hyz]; simpl; [by constructor|].
    destruct (String.leb x z); by constructor.
Qed.

Lemma sort_sorted l : Sorted string_le (sort l).
Proof.
  induction l as [|x l IH]; simpl; [constructor|]. by apply sort_insert_sorted.
Qed.

Lemma sort_unique l l' : Sorted string_le l' → l' ≡ₚ l → l' = sort l.
Proof.
  intros Hs Hp. apply (Sorted_unique string_le); [done|apply sort_sorted|].
  by rewrite sort_perm.
Qed.

Lemma sort_proper l1 l2 : l1 ≡ₚ l2 → sort l1 = sort l2.
Proof.
  intros Hp. apply sort_unique; [apply sort_sorted|]. by rewrite sort_perm.
Qed.

(** ** The checker [wfb] is sound *)

Lemma wfb_sound fs : wfb fs = true → wf fs.
Proof.
  unfold wfb. intros [Hroot Hall]%andb_prop. split.
  - destruct (heap fs !! root fs) as [[nm par dt]|]; [|done].
    apply bool_decide_eq_true in Hroot as (Hn & Hp & Ht). simpl in *. subst.
    unfold getType in Ht. simpl in Ht. destruct dt as [|children]; [done|]. eauto.
  - intros d nd children k c Hd Hdata Hk.
    rewrite forallb_forall in Hall.
    specialize (Hall (d, nd)). unfold wf_nodeb in Hall. simpl in Hall. rewrite Hdata in Hall.
    assert (forallb (wf_entryb fs d) (map_to_list children) = true) as Hch.
    { apply Hall. apply list_elem_of_In. by apply elem_of_map_to_list. }
    rewrite forallb_forall in Hch. specialize (Hch (k, c)).
    unfold wf_entryb in Hch. simpl in Hch.
    destruct (heap fs !! c) as [cn|].
    + exists cn. split; [done|]. eapply bool_decide_eq_true_1. apply Hch.
      apply list_elem_of_In. by apply elem_of_map_to_list.
    + exfalso. assert (false = true); [|done]. apply Hch.
      apply list_elem_of_In. by apply elem_of_map_to_list.
Qed.

(** ** Well-formed stores: what is reached from the root is a finite tree *)

Section well_formed.
Context (fs : FileSystem) (Hwf : wf fs).

Lemma wf_root_dir : is_dir fs (root fs).
Proof. destruct (wf_root fs Hwf) as [children Hr]. by eexists _, _. Qed.

Lemma wf_root_parent nd : heap fs !! root fs = Some nd → parent nd = None.
Proof. destruct (wf_root fs Hwf) as [children Hr]. rewrite Hr. by intros [= <-]. Qed.

Lemma child_edge_inv d c :
  child_edge fs d c →
  is_dir fs d ∧ ∃ cn, heap fs !! c = Some cn ∧ parent cn = Some d.
Proof.
  intros (nd & children & k & Hd & Hdata & Hk). split; [by eexists _, _|].
  destruct (wf_child fs Hwf d nd children k c Hd Hdata Hk) as (cn & Hc & Hp & _). eauto.
Qed.

Lemma chain_in_heap p ancestors : chain fs p ancestors → is_Some (heap fs !! p).
Proof.
  destruct 1 as [|d ancestors c _ Hedge].
  - destruct wf_root_dir as (nd & ? & -> & _). eauto.
  - destruct (child_edge_inv d c Hedge) as (_ & cn & -> & _). eauto.
Qed.

Lemma chain_functional p ancestors1 ancestors2 :
  chain fs p ancestors1 → chain fs p ancestors2 → ancestors1 = ancestors2.
Proof.
  intros H1. revert ancestors2.
  induction H1 as [|d ancestors c Hd IH Hedge]; intros ancestors2 H2.
  - inversion H2 as [|d ancestors c _ Hedge Hroot]; [done|]. subst.
    destruct (child_edge_inv d (root fs) Hedge) as (_ & cn & Hcn & Hp).
    by rewrite (wf_root_parent cn Hcn) in Hp.
  - inversion H2 as [Hroot|d' ancestors' c' Hd' Hedge']; subst.
    + destruct (child_edge_inv d (root fs) Hedge) as (_ & cn & Hcn & Hp).
      by rewrite (wf_root_parent cn Hcn) in Hp.
    + destruct (child_edge_inv d c Hedge) as (_ & cn & Hcn & Hp).
      destruct (child_edge_inv d' c Hedge') as (_ & cn' & Hcn' & Hp').
      assert (d = d') as <- by congruence.
      f_equal. by apply IH.
Qed.

Lemma chain_suffix p ancestors q :
  chain fs p ancestors → q ∈ ancestors →
  ∃ ancestors', chain fs q ancestors' ∧ length ancestors' < length ancestors.
Proof.
  induction 1 as [|d ancestors c Hd IH Hedge]; intros Hq.
  - by apply elem_of_nil in Hq.
  - apply elem_of_cons in Hq as [->|Hq].
    + exists ancestors. split; [done|]. simpl. lia.
    + destruct (IH Hq) as (ancestors' & Hch & Hlen). exists ancestors'.
      split; [done|]. simpl. lia.
Qed.

Lemma chain_NoDup p ancestors : chain fs p ancestors → NoDup (p :: ancestors).
Proof.
  induction 1 as [|d ancestors c Hd IH Hedge].
  - apply NoDup_singleton.
  - apply NoDup_cons. split; [|done]. intros Hin.
    destruct (chain_suffix c (d :: ancestors) c (chain_child fs d ancestors c Hd Hedge) Hin)
      as (ancestors' & Hch & Hlen).
    rewrite (chain_functional c _ _ Hch (chain_child fs d ancestors c Hd Hedge)) in Hlen.
    lia.
Qed.

Lemma chain_all_in_heap p ancestors q :
  chain fs p ancestors → q ∈ p :: ancestors → q ∈ dom (heap fs).
Proof.
  intros Hch [->|Hq]%elem_of_cons.
  - apply elem_of_dom. by eapply chain_in_heap.
  - destruct (chain_suffix p ancestors q Hch Hq) as (ancestors' & Hch' & _).
    apply elem_of_dom. by eapply chain_in_heap.
Qed.

Lemma chain_length p ancestors :
  chain fs p ancestors → (length (p :: ancestors) ≤ base.size (dom (heap fs)))%nat.
Proof.
  intros Hch. unfold base.size, set_size.
  change (length (p :: ancestors) ≤ length (elements (dom (heap fs))))%nat.
  apply submseteq_length, NoDup_submseteq; [by apply chain_NoDup|].
  intros q Hq. apply elem_of_elements. by eapply chain_all_in_heap.
Qed.

(** [_resolvePath] stays inside what is reached from the root, and never
    meets a bad handle. *)
Lemma resolve_loop_wf components current :
  reachable fs current → is_dir fs current →
  (∃ node, resolve_loop fs components current = Ret node ∧ reachable fs node)
  ∨ (∃ e, resolve_loop fs components current = Throw e).
Proof.
  revert current.
  induction components as [|component rest IH]; intros current Hreach Hdir; simpl.
  - left. eauto.
  - destruct (decide (component = "" ∨ component = ".")) as [_|_]; [by apply IH|].
    destruct (decide (component = "..")) as [_|_].
    + destruct (decide (current ≠ root fs)) as [Hnr|_]; [|by apply IH].
      destruct Hreach as [ancestors Hch].
      destruct Hch as [|d ancestors c Hd Hedge]; [done|].
      destruct (child_edge_inv d c Hedge) as (Hddir & cn & Hcn & Hp).
      unfold deref. rewrite Hcn. simpl. rewrite Hp. unfold lock.
      destruct Hddir as (nd & children & Hnd & Hdata). rewrite Hnd.
      apply IH; [by eexists|by eexists _, _].
    + destruct Hdir as (nd & children & Hnd & Hdata).
      unfold children_of. rewrite Hnd, Hdata. simpl.
      destruct (children !! component) as [child|] eqn:Hchild; [|right; eauto].
      assert (child_edge fs current child) as Hedge by (by eexists _, _, _).
      destruct (child_edge_inv current child Hedge) as (_ & cn & Hcn & Hp).
      assert (reachable fs child) as Hrc.
      { destruct Hreach as [ancestors Hch]. eexists. by eapply chain_child. }
      unfold deref. rewrite Hcn. simpl. unfold getType.
      destruct (data cn) as [content|grandchildren] eqn:Hcd.
      * destruct (decide (rest ≠ [])); [right; eauto|left; eauto].
      * apply IH; [done|by eexists _, _].
Qed.

Lemma resolvePath_wf path :
  (∃ node, _resolvePath path fs = Ret node ∧ reachable fs node)
  ∨ (∃ e, _resolvePath path fs = Throw e).
Proof.
  unfold _resolvePath. destruct (decide (path = "")); [right; eauto|].
  assert (reachable fs (root fs)) as Hr by (eexists; constructor).
  destruct (decide (path = "/")); [left; eauto|].
  apply resolve_loop_wf; [done|apply wf_root_dir].
Qed.
End well_formed.

(** ** The public operations keep the store well-formed *)

(** An update that keeps the labels and the class of every node, and whose
    entries are old ones or lead to a node labelled accordingly. *)
Lemma wf_update fs fs' :
  wf fs →
  root fs' = root fs →
  (∀ p pn, heap fs !! p = Some pn →
     ∃ pn', heap fs' !! p = Some pn'
            ∧ parent pn' = parent pn ∧ name pn' = name pn ∧ getType pn' = getType pn) →
  (∀ d dn' children' k c,
     heap fs' !! d = Some dn' → data dn' = DirectoryNode children' → children' !! k = Some c →
     (∃ dn children,
        heap fs !! d = Some dn ∧ data dn = DirectoryNode children ∧ children !! k = Some c)
     ∨ (∃ cn', heap fs' !! c = Some cn' ∧ parent cn' = Some d ∧ name cn' = k)) →
  wf fs'.
Proof.
  intros Hwf Hroot Hlabels Hedges. split.
  - destruct (wf_root fs Hwf) as [children Hr].
    destruct (Hlabels _ _ Hr) as ([nm' par' dt'] & Hr' & Hp & Hn & Ht).
    rewrite Hroot, Hr'. simpl in *. subst.
    unfold getType in Ht. simpl in Ht. destruct dt' as [|children']; [done|]. eauto.
  - intros d dn' children' k c Hd Hdata Hk.
    destruct (Hedges d dn' children' k c Hd Hdata Hk)
      as [(dn & children & Hd0 & Hdata0 & Hk0)|Hnew]; [|done].
    destruct (wf_child fs Hwf d dn children k c Hd0 Hdata0 Hk0) as (cn & Hcn & Hp & Hn).
    destruct (Hlabels _ _ Hcn) as (cn' & Hcn' & Hp' & Hn' & _).
    exists cn'. split; [done|]. split; congruence.
Qed.

Lemma wf_alloc fs p n :
  wf fs → heap fs !! p = None → leaf n →
  wf (mkFileSystem (<[p := n]> (heap fs)) (root fs)).
Proof.
  intros Hwf Hp Hleaf. apply (wf_update fs); [done|done| |]; simpl.
  - intros p' pn Hp'. exists pn. rewrite lookup_insert_ne by congruence. done.
  - intros d dn' children' k c Hd Hdata Hk. left.
    destruct (decide (p = d)) as [->|Hne].
    + rewrite lookup_insert_eq in Hd. injection Hd as <-.
      unfold leaf in Hleaf. rewrite Hdata in Hleaf. subst. by rewrite lookup_empty in Hk.
    + rewrite lookup_insert_ne in Hd by done. eauto.
Qed.

Lemma wf_with_children fs d dn children children' :
  wf fs →
  heap fs !! d = Some dn →
  data dn = DirectoryNode children →
  (∀ k c, children' !! k = Some c →
     children !! k = Some c
     ∨ ∃ cn, heap fs !! c = Some cn ∧ parent cn = Some d ∧ name cn = k) →
  wf (with_children fs d dn children').
Proof.
  intros Hwf Hd Hdata Hnew.
  assert (∀ p pn, heap fs !! p = Some pn →
            ∃ pn', heap (with_children fs d dn children') !! p = Some pn'
                   ∧ parent pn' = parent pn ∧ name pn' = name pn
                   ∧ getType pn' = getType pn) as Hlabels.
  { intros p pn Hp. unfold with_children. simpl.
    destruct (decide (d = p)) as [->|Hne].
    - rewrite lookup_insert_eq. eexists. split; [done|].
      assert (pn = dn) as -> by congruence. unfold getType. simpl. by rewrite Hdata.
    - rewrite lookup_insert_ne by done. eauto. }
  apply (wf_update fs); [done|done|done|].
  intros d' dn' ch' k c Hd' Hdata' Hk. unfold with_children in Hd'. simpl in Hd'.
  destruct (decide (d = d')) as [<-|Hne].
  - rewrite lookup_insert_eq in Hd'. injection Hd' as <-. simpl in Hdata'.
    injection Hdata' as <-.
    destruct (Hnew k c Hk) as [Hold|(cn & Hcn & Hp & Hn)]; [left; eauto|right].
    destruct (Hlabels c cn Hcn) as (cn' & Hcn' & Hp' & Hn' & _).
    exists cn'. split; [done|]. split; congruence.
  - rewrite lookup_insert_ne in Hd' by done. left. eauto.
Qed.

Lemma wf_new_content fs p n content :
  wf fs → heap fs !! p = Some n → getType n = File →
  wf (mkFileSystem (<[p := mkFSNode (name n) (parent n) (FileNode content)]> (heap fs))
        (root fs)).
Proof.
  intros Hwf Hp Hty. apply (wf_update fs); [done|done| |]; simpl.
  - intros p' pn Hp'. destruct (decide (p = p')) as [<-|Hne].
    + rewrite lookup_insert_eq. eexists. split; [done|].
      assert (pn = n) as -> by congruence. by rewrite Hty.
    + rewrite lookup_insert_ne by done. eauto.
  - intros d dn' children' k c Hd Hdata Hk. left.
    destruct (decide (p = d)) as [<-|Hne].
    + rewrite lookup_insert_eq in Hd. by injection Hd as <-.
    + rewrite lookup_insert_ne in Hd by done. eauto.
Qed.

(** Re-labelling a node that no entry leads to. *)
Lemma wf_relabel fs s sn newName newParent :
  wf fs →
  heap fs !! s = Some sn →
  s ≠ root fs →
  (∀ d dn children k,
     heap fs !! d = Some dn → data dn = DirectoryNode children → children !! k ≠ Some s) →
  wf (mkFileSystem (<[s := mkFSNode newName (Some newParent) (data sn)]> (heap fs)) (root fs)).
Proof.
  intros Hwf Hs Hnr Hnoedge. split; simpl.
  - rewrite lookup_insert_ne by done. apply (wf_root fs Hwf).
  - intros d dn' children k c Hd Hdata Hk.
    assert (∃ dn, heap fs !! d = Some dn ∧ data dn = DirectoryNode children)
      as (dn & Hd0 & Hdata0).
    { destruct (decide (s = d)) as [<-|Hne].
      - rewrite lookup_insert_eq in Hd. injection Hd as <-. eauto.
      - rewrite lookup_insert_ne in Hd by done. eauto. }
    assert (c ≠ s) as Hcs.
    { intros ->. by apply (Hnoedge d dn children k). }
    rewrite lookup_insert_ne by done.
    apply (wf_child fs Hwf d dn children k c Hd0 Hdata0 Hk).
Qed.

Section keeps_wf.
Context {A B : Type}.

Lemma wf_read_bind (f : FileSystem → outcome A) (k : A → M B) fs :
  wf fs →
  (∀ a, f fs = Ret a → wf (k a fs).2) →
  wf ((read f ≫= k) fs).2.
Proof.
  intros Hwf Hk. unfold mbind, M_bind, read.
  destruct (f fs) as [a| | |] eqn:Hf; simpl; try done. by apply Hk.
Qed.

(** [p = make_shared(...); d->children[k] = p; ...] with a new node that is
    labelled [d] and [k]. *)
Lemma wf_create_bind d k n (after : ptr → M B) fs :
  wf fs →
  leaf n → parent n = Some d → name n = k →
  (∀ p fs1, wf fs1 → wf (after p fs1).2) →
  wf ((make_shared n ≫= λ p, store_child d k p;; after p) fs).2.
Proof.
  intros Hwf Hleaf Hpar Hname Hafter.
  unfold mbind at 1, M_bind at 1, make_shared at 1.
  set (p := fresh (dom (heap fs))).
  assert (heap fs !! p = None) as Hp by (apply not_elem_of_dom, is_fresh).
  pose proof (wf_alloc fs p n Hwf Hp Hleaf) as Hwf1.
  set (fs1 := mkFileSystem _ _) in *.
  unfold mbind, M_bind, store_child, modify_children.
  destruct (heap fs1 !! d) as [dn|] eqn:Hd; [|done].
  destruct (data dn) as [|children] eqn:Hdata; [done|].
  apply Hafter.
  apply (wf_with_children fs1 d dn children); [done|done|done|].
  intros k' c [[<- <-]|[_ Hold]]%lookup_insert_Some; [right|by left].
  exists n. split; [|done]. unfold fs1. simpl. apply lookup_insert_eq.
Qed.
End keeps_wf.

Lemma wf_create d k n fs :
  wf fs →
  leaf n → parent n = Some d → name n = k →
  wf ((make_shared n ≫= λ p, store_child d k p) fs).2.
Proof.
  intros Hwf Hleaf Hpar Hname.
  pose proof (wf_create_bind (B:=unit) d k n (λ _, mret tt) fs Hwf Hleaf Hpar Hname)
    as H.
  unfold mbind, M_bind in *. simpl in *.
  destruct (store_child d k _ _) as [[[]| | |] fs1]; simpl in *; apply H; done.
Qed.

Lemma wf_mkdir_loop components current fs :
  wf fs → wf (mkdir_loop components current fs).2.
Proof.
  revert current fs. induction components as [|component rest IH]; intros current fs Hwf; simpl.
  - done.
  - destruct (decide (component = "")) as [_|_]; [by apply IH|].
    apply wf_read_bind; [done|]. intros children _.
    destruct (children !! component) as [child|].
    + apply wf_read_bind; [done|]. intros cn _.
      destruct (decide (getType cn ≠ Directory)); [done|by apply IH].
    + apply wf_create_bind; [done|done|done|done|]. intros p fs1 Hwf1. by apply IH.
Qed.

Lemma wf_mkdir path fs : wf fs → wf (mkdir path fs).2.
Proof.
  intros Hwf. unfold mkdir. destruct (decide (path = "/")); [done|].
  by apply wf_mkdir_loop.
Qed.

Lemma wf_touch path fs : wf fs → wf (touch path fs).2.
Proof.
  intros Hwf. unfold touch.
  apply wf_read_bind; [done|]. intros [parent fileName] _.
  apply wf_read_bind; [done|]. intros children _.
  destruct (children !! fileName) as [child|].
  - apply wf_read_bind; [done|]. intros cn _. by destruct (decide (getType cn ≠ File)).
  - by apply wf_create.
Qed.

Lemma wf_writeFile path content fs : wf fs → wf (writeFile path content fs).2.
Proof.
  intros Hwf. unfold writeFile.
  apply wf_read_bind; [done|]. intros [parent fileName] _.
  apply wf_read_bind; [done|]. intros children _.
  assert (∀ occupied : bool,
            wf ((if occupied then throw IsADirectory
                 else file ← make_shared (mkFSNode fileName (Some parent) (FileNode content));
                      store_child parent fileName file) fs).2) as Hrest.
  { intros [|]; [done|]. by apply wf_create. }
  unfold mbind at 1, M_bind at 1.
  destruct (children !! fileName) as [child|].
  - unfold mbind at 1, M_bind at 1, read at 1.
    destruct (deref child fs) as [cn| | |]; simpl; [apply Hrest|done..].
  - simpl. apply (Hrest false).
Qed.

Lemma wf_append path content fs : wf fs → wf (append path content fs).2.
Proof.
  intros Hwf. unfold append.
  apply wf_read_bind; [done|]. intros node _.
  apply wf_read_bind; [done|]. intros nd Hnd.
  destruct (data nd) as [old|] eqn:Hdata; [|done].
  unfold modify_node. unfold deref in Hnd.
  destruct (heap fs !! node) as [n|] eqn:Hnode; [|done]. injection Hnd as ->. simpl.
  apply wf_new_content; [done|done|]. unfold getType. by rewrite Hdata.
Qed.

Lemma wf_erase_child d k fs : wf fs → wf (erase_child d k fs).2.
Proof.
  intros Hwf. unfold erase_child, modify_children.
  destruct (heap fs !! d) as [dn|] eqn:Hd; [|done].
  destruct (data dn) as [|children] eqn:Hdata; [done|]. simpl.
  apply (wf_with_children fs d dn children); [done|done|done|].
  intros k' c [_ Hold]%lookup_delete_Some. by left.
Qed.

Lemma wf_rm path recursive fs : wf fs → wf (rm path recursive fs).2.
Proof.
  intros Hwf. unfold rm. destruct (decide (path = "/")); [done|].
  apply wf_read_bind; [done|]. intros [parent nm] _.
  apply wf_read_bind; [done|]. intros children _.
  destruct (children !! nm) as [child|]; [|done].
  apply wf_read_bind; [done|]. intros cn _.
  destruct (data cn) as [|grandchildren]; [by apply wf_erase_child|].
  destruct (decide (recursive = false ∧ grandchildren ≠ ∅)); [done|].
  by apply wf_erase_child.
Qed.

Lemma wf_copy_entries recur dest entries fs :
  (∀ s d fs1, wf fs1 → wf (recur s d fs1).2) →
  wf fs → wf (copy_entries recur dest entries fs).2.
Proof.
  intros Hrec. revert fs. induction entries as [|[k child] rest IH]; intros fs Hwf; simpl.
  - done.
  - apply wf_read_bind; [done|]. intros cn _.
    destruct (data cn) as [content|grandchildren].
    + apply wf_create_bind; [done|done|done|done|]. intros p fs1 Hwf1. by apply IH.
    + apply wf_create_bind; [done|done|done|done|]. intros p fs1 Hwf1.
      unfold mbind, M_bind.
      pose proof (Hrec child p fs1 Hwf1) as Hwf2.
      destruct (recur child p fs1) as [[[]| | |] fs2]; simpl in *; try done. by apply IH.
Qed.

Lemma wf_recursiveCopy fuel source dest fs :
  wf fs → wf (_recursiveCopy fuel source dest fs).2.
Proof.
  revert source dest fs. induction fuel as [|fuel IH]; intros source dest fs Hwf; simpl.
  - done.
  - apply wf_read_bind; [done|]. intros children _.
    apply wf_copy_entries; [|done]. intros s d fs1 Hwf1. by apply IH.
Qed.

Lemma wf_cp fuel sourcePath destPath fs : wf fs → wf (cp fuel sourcePath destPath fs).2.
Proof.
  intros Hwf. unfold cp.
  apply wf_read_bind; [done|]. intros sourceNode _.
  apply wf_read_bind; [done|]. intros sn _.
  apply wf_read_bind; [done|]. intros [destParent newName] _.
  apply wf_read_bind; [done|]. intros siblings _.
  destruct (siblings !! newName); [done|].
  destruct (data sn) as [content|children].
  - by apply wf_create.
  - apply wf_create_bind; [done|done|done|done|]. intros p fs1 Hwf1. by apply wf_recursiveCopy.
Qed.

Lemma wf_mv fuel sourcePath destPath fs : wf fs → wf (mv fuel sourcePath destPath fs).2.
Proof.
  intros Hwf. unfold mv. destruct (decide (sourcePath = "/")); [done|].
  apply wf_read_bind; [done|]. intros s _.
  apply wf_read_bind; [done|]. intros sn Hsn.
  apply wf_read_bind; [done|]. intros [oldParent|] Hlock; [|done].
  apply wf_read_bind; [done|]. intros [newParent newName] _.
  apply wf_read_bind; [done|]. intros [] _.
  assert (heap fs !! s = Some sn) as Hs.
  { unfold deref in Hsn. destruct (heap fs !! s) as [sn0|]; [|done]. by injection Hsn as ->. }
  assert (parent sn = Some oldParent) as Hpar.
  { injection Hlock as Hlock. unfold lock in Hlock.
    destruct (parent sn) as [p|]; [|done]. by destruct (heap fs !! p). }
  assert (s ≠ root fs) as Hnr.
  { intros ->. by rewrite (wf_root_parent fs Hwf sn Hs) in Hpar. }
  (* the entry of the old parent is erased *)
  unfold mbind at 1, M_bind at 1, erase_child at 1, modify_children at 1.
  destruct (heap fs !! oldParent) as [opn|] eqn:Hop; [|done].
  destruct (data opn) as [|siblings] eqn:Hopdata; [done|].
  fold (with_children fs oldParent opn (delete (name sn) siblings)).
  set (fs1 := with_children fs oldParent opn (delete (name sn) siblings)).
  assert (wf fs1) as Hwf1.
  { apply (wf_with_children fs oldParent opn siblings); [done|done|done|].
    intros k c [_ Hold]%lookup_delete_Some. by left. }
  assert (∀ d dn children k,
            heap fs1 !! d = Some dn → data dn = DirectoryNode children →
            children !! k ≠ Some s) as Hnoedge.
  { intros d dn children k Hd Hdata Hk. unfold fs1, with_children in Hd. simpl in Hd.
    destruct (decide (oldParent = d)) as [<-|Hne].
    - rewrite lookup_insert_eq in Hd. injection Hd as <-. simpl in Hdata.
      injection Hdata as <-. apply lookup_delete_Some in Hk as [Hk1 Hk2].
      destruct (wf_child fs Hwf oldParent opn siblings k s Hop Hopdata Hk2)
        as (sn' & Hs' & _ & Hn).
      congruence.
    - rewrite lookup_insert_ne in Hd by done.
      destruct (wf_child fs Hwf d dn children k s Hd Hdata Hk) as (sn' & Hs' & Hp & _).
      congruence. }
  (* the node is re-labelled *)
  unfold mbind at 1, M_bind at 1, modify_node at 1.
  destruct (heap fs1 !! s) as [sn1|] eqn:Hs1; [|done].
  set (fs2 := mkFileSystem _ _).
  assert (wf fs2) as Hwf2 by (by apply wf_relabel).
  (* and entered into the new parent *)
  unfold store_child, modify_children.
  destruct (heap fs2 !! newParent) as [npn|] eqn:Hnp; [|done].
  destruct (data npn) as [|entries] eqn:Hnpdata; [done|].
  change (wf (with_children fs2 newParent npn (<[newName := s]> entries))).
  apply (wf_with_children fs2 newParent npn entries); [done|done|done|].
  intros k c [[<- <-]|[_ Hold]]%lookup_insert_Some; [right|by left].
  eexists. split; [apply lookup_insert_eq|done].
Qed.

Lemma wf_new : wf FileSystem_new.
Proof. apply wfb_sound. vm_compute. reflexivity. Qed.

Lemma wf_perform fuel op fs : wf fs → wf (run (perform fuel op) fs).
Proof.
  intros Hwf. unfold run. destruct op; simpl.
  - by apply wf_mkdir.
  - by apply wf_touch.
  - by apply wf_writeFile.
  - by apply wf_append.
  - by apply wf_rm.
  - by apply wf_cp.
  - by apply wf_mv.
Qed.

(** Every store the public operations can produce from a fresh tree is
    well-formed: this is the invariant [parent.children[name] == self] of the
    data model. *)
Lemma built_wf fs : built fs → wf fs.
Proof.
  induction 1 as [|fuel op fs _ IH]; [apply wf_new|by apply wf_perform].
Qed.

(** ** What path resolution can throw *)

Lemma resolve_loop_throws fs components current e :
  resolve_loop fs components current = Throw e → e = NotFound ∨ e = NotADirectory.
Proof.
  revert current. induction components as [|component rest IH]; intros current; simpl; [done|].
  destruct (decide (component = "" ∨ component = ".")) as [_|_]; [apply IH|].
  destruct (decide (component = "..")) as [_|_].
  - destruct (decide (current ≠ root fs)) as [_|_]; [|apply IH].
    unfold deref. destruct (heap fs !! current) as [nd|]; simpl; [|done].
    destruct (lock (parent nd) fs); [apply IH|done].
  - unfold children_of. destruct (heap fs !! current) as [[nm par [|children]]|]; simpl; try done.
    destruct (children !! component) as [child|]; [|intros [= <-]; by left].
    unfold deref. destruct (heap fs !! child) as [cn|]; simpl; [|done].
    destruct (getType cn); [|apply IH].
    destruct (decide (rest ≠ [])); [intros [= <-]; by right|done].
Qed.

Lemma resolvePath_throws path fs e :
  _resolvePath path fs = Throw e → e = InvalidPath ∨ e = NotFound ∨ e = NotADirectory.
Proof.
  unfold _resolvePath. destruct (decide (path = "")); [intros [= <-]; auto|].
  destruct (decide (path = "/")); [done|].
  intros [->| ->]%resolve_loop_throws; auto.
Qed.

Lemma resolveParentAndName_throws path fs e :
  _resolveParentAndName path fs = Throw e →
  e = InvalidPath ∨ e = NotFound ∨ e = NotADirectory.
Proof.
  unfold _resolveParentAndName.
  destruct (decide (path = "" ∨ path = "/")); [intros [= <-]; auto|].
  destruct (find_last_of path "/") as [last_slash|]; [|intros [= <-]; auto].
  destruct (decide (substr_from (last_slash + 1) path = "")); [intros [= <-]; auto|].
  destruct (_resolvePath _ fs) as [parentNode|e'| |] eqn:Hres; simpl; try done.
  - unfold deref. destruct (heap fs !! parentNode) as [nd|]; simpl; [|done].
    destruct (decide (getType nd ≠ Directory)); [intros [= <-]; auto|done].
  - intros [= <-]. by eapply resolvePath_throws.
Qed.

(** Whatever the [try] block of [_resolveDestination] throws, its own
    [AlreadyExists] included, the [catch] clause answers with
    [_resolveParentAndName]; so [AlreadyExists] never leaves
    [_resolveDestination]. *)
Lemma resolveDestination_fallback dest_path source_name fs e :
  _resolveDestination_try dest_path source_name fs = Throw e →
  _resolveDestination dest_path source_name fs = _resolveParentAndName dest_path fs.
Proof. unfold _resolveDestination. by intros ->. Qed.

Lemma resolveDestination_throws dest_path source_name fs e :
  _resolveDestination dest_path source_name fs = Throw e →
  e = InvalidPath ∨ e = NotFound ∨ e = NotADirectory.
Proof.
  unfold _resolveDestination.
  destruct (_resolveDestination_try dest_path source_name fs); simpl; try done.
  apply resolveParentAndName_throws.
Qed.

(** ** Walks before and after one entry of a directory changes *)

Lemma modify_children_Ret d f fs dn children :
  heap fs !! d = Some dn →
  data dn = DirectoryNode children →
  modify_children d f fs
  = (Ret tt,
     with_children fs d dn (f children)).
Proof. intros Hd Hdata. unfold modify_children, with_children. by rewrite Hd, Hdata. Qed.

(** A walk that ends in a directory has passed through directories only, so
    it can be continued. *)
Lemma resolve_loop_app_empty fs prefix current d :
  resolve_loop fs prefix current = Ret d →
  is_dir fs d →
  resolve_loop fs (prefix ++ [""]) current = Ret d.
Proof.
  intros Hwalk (dn & dch & Hd & Hddata). revert current Hwalk.
  induction prefix as [|t prefix IH]; intros current; simpl.
  - by intros [= ->].
  - destruct (decide (t = "" ∨ t = ".")) as [_|_]; [apply IH|].
    destruct (decide (t = "..")) as [_|_].
    + destruct (decide (current ≠ root fs)) as [_|_]; [|apply IH].
      destruct (deref current fs) as [nd| | |]; simpl; try done.
      destruct (lock (parent nd) fs); [apply IH|done].
    + destruct (children_of current fs) as [children| | |]; simpl; try done.
      destruct (children !! t) as [child|]; [|done].
      unfold deref. destruct (heap fs !! child) as [cn|] eqn:Hcn; simpl; [|done].
      unfold getType. destruct (data cn) eqn:Hcdata; [|apply IH].
      destruct (decide (prefix ≠ [])); [done|]. intros [= ->].
      assert (cn = dn) as -> by congruence. congruence.
Qed.

Section one_entry.
Context (fs : FileSystem) (d : ptr) (dn : FSNode) (children : gmap string ptr).
Context (nm : string).
Hypothesis Hd : heap fs !! d = Some dn.
Hypothesis Hdata : data dn = DirectoryNode children.
Hypothesis Hnm : nm ≠ "" ∧ nm ≠ "." ∧ nm ≠ "..".


(** The store once a new file [q] has been made and stored under [nm] in
    [d], where [nm] was free or led to a file. *)
Lemma resolve_after_store q file prefix current :
  heap fs !! q = None →
  getType file = File →
  (∀ c, children !! nm = Some c → ∃ cn, heap fs !! c = Some cn ∧ getType cn = File) →
  resolve_loop fs prefix current = Ret d →
  resolve_loop
    (with_children (mkFileSystem (<[q := file]> (heap fs)) (root fs)) d dn
       (<[nm := q]> children))
    (prefix ++ [nm]) current
  = Ret q.
Proof.
  intros Hq Hfile Hocc. destruct Hnm as (Hn1 & Hn2 & Hn3). unfold with_children. simpl.
  assert (d ≠ q) as Hdq by congruence.
  assert (∀ p pn, heap fs !! p = Some pn →
            ∃ pn', <[d := mkFSNode (name dn) (parent dn) (DirectoryNode (<[nm := q]> children))]>
                     (<[q := file]> (heap fs)) !! p = Some pn'
                   ∧ parent pn' = parent pn ∧ getType pn' = getType pn) as Hsame.
  { intros p pn Hp. destruct (decide (d = p)) as [->|Hne].
    - rewrite lookup_insert_eq. eexists. split; [done|].
      assert (pn = dn) as -> by congruence. unfold getType. simpl. by rewrite Hdata.
    - rewrite lookup_insert_ne by done.
      rewrite lookup_insert_ne by congruence. eauto. }
  revert current. induction prefix as [|t prefix IH]; intros current; simpl.
  - intros [= ->].
    destruct (decide (nm = "" ∨ nm = ".")) as [[?|?]|_]; [done|done|].
    destruct (decide (nm = "..")); [done|].
    unfold children_of. simpl. rewrite lookup_insert_eq. simpl.
    rewrite lookup_insert_eq. simpl. unfold deref. simpl.
    rewrite lookup_insert_ne by done. rewrite lookup_insert_eq. simpl.
    rewrite Hfile. done.
  - destruct (decide (t = "" ∨ t = ".")) as [_|Ht]; [apply IH|].
    destruct (decide (t = "..")) as [_|_].
    + destruct (decide (current ≠ root fs)) as [_|_]; [|apply IH].
      unfold deref. simpl.
      destruct (heap fs !! current) as [nd|] eqn:Hcur; simpl; [|done].
      destruct (Hsame current nd Hcur) as (nd' & -> & Hpar & _).
      simpl. rewrite Hpar. unfold lock. simpl.
      destruct (parent nd) as [p|]; [|done].
      destruct (heap fs !! p) as [pn|] eqn:Hp; [|done].
      destruct (Hsame p pn Hp) as (pn' & -> & _).
      apply IH.
    + unfold children_of. simpl.
      destruct (heap fs !! current) as [nd|] eqn:Hcur; simpl; [|done].
      destruct (data nd) as [|cch] eqn:Hcdata; simpl; [done|].
      destruct (cch !! t) as [child|] eqn:Hchild; [|done].
      unfold deref. destruct (heap fs !! child) as [cn|] eqn:Hcn; simpl; [|done].
      destruct (Hsame child cn Hcn) as (cn' & Hcn' & _ & Htype).
      assert (getType cn = Directory → resolve_loop fs prefix child = Ret d →
              (d, nm) ≠ (current, t)) as Hnot.
      { intros Hty _ [= <- <-].
        assert (cch = children) as -> by congruence.
        destruct (Hocc child Hchild) as (cn0 & Hcn0 & Hty0). congruence. }
      destruct (getType cn) eqn:Hty.
      { destruct (decide (prefix ≠ [])); [done|]. intros [= ->].
        unfold getType in Hty. assert (cn = dn) as -> by congruence.
        by rewrite Hdata in Hty. }
      intros Hwalk. specialize (Hnot eq_refl Hwalk).
      destruct (decide (d = current)) as [->|Hne].
      * rewrite lookup_insert_eq. simpl.
        assert (nd = dn) as -> by congruence.
        assert (cch = children) as -> by congruence.
        rewrite lookup_insert_ne by congruence. rewrite Hchild. simpl.
        rewrite Hcn'. simpl. rewrite Htype. by apply IH.
      * rewrite lookup_insert_ne by done.
        rewrite lookup_insert_ne by congruence. rewrite Hcur. simpl. rewrite Hcdata. simpl.
        rewrite Hchild. simpl. rewrite Hcn'. simpl. rewrite Htype. by apply IH.
Qed.
End one_entry.

(** * Part 2: the operations *)

(** ** The catch clause of [_resolveDestination] *)

(** C1 (the code departs from the claim).  In a tree where [/d] is a
    directory that has a child [f], the [try] block of
    [_resolveDestination("/d", "f")] throws [AlreadyExists], yet
    [_resolveDestination] returns the pair (root, "d"): it has fallen back to
    resolving "/d" as parent and name.  [mv("/f", "/d")] then succeeds and
    puts the file in the place of the directory, whose content is lost.
    Likewise when the destination is an existing file: [_resolveDestination("/g", "f")]
    returns (root, "g") and [mv("/f", "/g")] overwrites [/g].  [cp] has a
    check of its own after [_resolveDestination] and does throw. *)
Theorem resolveDestination_swallows_AlreadyExists :
  (getNodeType "/d" fs_d_f = Ret Directory
   ∧ exists_ "/d/f" fs_d_f = Ret true
   ∧ _resolveDestination_try "/d" "f" fs_d_f = Throw AlreadyExists
   ∧ _resolveDestination "/d" "f" fs_d_f = Ret (root fs_d_f, "d")
   ∧ result (mv 8 "/f" "/d") fs_d_f = Ret tt
   ∧ ls "/" (run (mv 8 "/f" "/d") fs_d_f) = Ret ["d"]
   ∧ catAsString "/d" (run (mv 8 "/f" "/d") fs_d_f) = Ret "new"
   ∧ result (cp 8 "/f" "/d") fs_d_f = Throw AlreadyExists)
  ∧
  (getNodeType "/g" fs_f_g = Ret File
   ∧ _resolveDestination_try "/g" "f" fs_f_g = Throw AlreadyExists
   ∧ _resolveDestination "/g" "f" fs_f_g = Ret (root fs_f_g, "g")
   ∧ result (mv 8 "/f" "/g") fs_f_g = Ret tt
   ∧ ls "/" (run (mv 8 "/f" "/g") fs_f_g) = Ret ["g"]
   ∧ catAsString "/g" (run (mv 8 "/f" "/g") fs_f_g) = Ret "moved").
Proof. split; split_and!; vm_compute; reflexivity. Qed.

(** ** The components "." and ".." *)

(** C2 (the code departs from the claim).  [_resolvePath] skips "." and
    climbs on "..", staying at the root when it is there; [mkdir] and the
    final component taken by [_resolveParentAndName] do neither.
    [mkdir("/a/./b")] creates a directory called "." inside [/a], and [b]
    inside that, so that [exists("/a/./b")] is false right after;
    [mkdir("/a/../b")] creates a directory called ".." inside [/a] and nothing
    in the root; [touch("/a/..")] and [writeFile("/a/.", ...)] create files
    called ".." and ".". *)
Theorem dot_components_not_uniform :
  (∀ fs rest current,
     resolve_loop fs ("." :: rest) current = resolve_loop fs rest current)
  ∧ (∀ fs rest, resolve_loop fs (".." :: rest) (root fs) = resolve_loop fs rest (root fs))
  ∧ _resolvePath "/a/./../.." fs_a = Ret (root fs_a)
  ∧ result (mkdir "/a/./b") FileSystem_new = Ret tt
  ∧ ls "/a" (run (mkdir "/a/./b") FileSystem_new) = Ret ["./"]
  ∧ exists_ "/a/./b" (run (mkdir "/a/./b") FileSystem_new) = Ret false
  ∧ exists_ "/a/b" (run (mkdir "/a/./b") FileSystem_new) = Ret false
  ∧ result (mkdir "/a/../b") FileSystem_new = Ret tt
  ∧ ls "/a" (run (mkdir "/a/../b") FileSystem_new) = Ret ["../"]
  ∧ ls "/" (run (mkdir "/a/../b") FileSystem_new) = Ret ["a/"]
  ∧ result (touch "/a/..") fs_a = Ret tt
  ∧ ls "/a" (run (touch "/a/..") fs_a) = Ret [".."]
  ∧ result (writeFile_sv "/a/." "x") fs_a = Ret tt
  ∧ ls "/a" (run (writeFile_sv "/a/." "x") fs_a) = Ret ["."].
Proof.
  split; [|split].
  - intros fs rest current. reflexivity.
  - intros fs rest. simpl. by destruct (decide (root fs ≠ root fs)).
  - split_and!; vm_compute; reflexivity.
Qed.

(** ** [ls] *)

Lemma mapM_Ret {A B} (f : A → outcome B) (g : A → B) l :
  (∀ x, x ∈ l → f x = Ret (g x)) → mapM f l = Ret (g <$> l).
Proof.
  induction l as [|x l IH]; intros Hf; simpl; [done|].
  rewrite Hf by left. simpl. rewrite IH; [done|].
  intros y Hy. apply Hf. by right.
Qed.

Lemma ls_entries_Ret fs order :
  (∀ k c, (k, c) ∈ order → is_Some (heap fs !! c)) →
  ls_entries order fs = Ret (entry_of fs <$> order).
Proof.
  intros Hin. unfold ls_entries. apply mapM_Ret.
  intros [k c] Hkc. destruct (Hin k c Hkc) as [cn Hcn].
  unfold deref, entry_of. simpl. rewrite Hcn. done.
Qed.

Lemma ls_in_order_spec fs enum p d nd children :
  wf fs →
  _resolvePath p fs = Ret d →
  heap fs !! d = Some nd →
  data nd = DirectoryNode children →
  enum children ≡ₚ map_to_list children →
  ls_in_order enum p fs = Ret (sort (entry_of fs <$> map_to_list children)).
Proof.
  intros Hwf Hres Hd Hdata Henum.
  unfold ls_in_order. rewrite Hres. simpl. unfold deref. rewrite Hd. simpl. rewrite Hdata.
  rewrite ls_entries_Ret.
  - simpl. f_equal. apply sort_proper. by rewrite Henum.
  - intros k c Hkc. rewrite Henum in Hkc. apply elem_of_map_to_list in Hkc.
    destruct (wf_child fs Hwf d nd children k c Hd Hdata Hkc) as (cn & Hcn & _). eauto.
Qed.

(** C3, as the code has it.  For a path that resolves to a directory of a
    well-formed store, [ls] returns the lines [name] (for a file) and
    [name ++ "/"] (for a directory) of the directory's children; the lines,
    marker included, are in ascending lexicographic order; the result is the
    same whatever order the [std::unordered_map] hands the children out in.
    On a fresh tree after [mkdir("/home")] and [mkdir("/tmp")], in either
    order, [ls("/")] is ["home/"; "tmp/"]. *)
Theorem ls_sorted_marked_deterministic :
  (∀ fs p d nd children,
     wf fs →
     _resolvePath p fs = Ret d →
     heap fs !! d = Some nd →
     data nd = DirectoryNode children →
     ∃ names,
       ls p fs = Ret names
       ∧ Sorted string_le names
       ∧ names ≡ₚ entry_of fs <$> map_to_list children
       ∧ ∀ enum, enum children ≡ₚ map_to_list children →
                 ls_in_order enum p fs = Ret names)
  ∧ ls "/" fs_home_tmp = Ret ["home/"; "tmp/"]
  ∧ ls "/" (run (mkdir "/home") (run (mkdir "/tmp") FileSystem_new)) = Ret ["home/"; "tmp/"].
Proof.
  split; [|split; vm_compute; reflexivity].
  intros fs p d nd children Hwf Hres Hd Hdata.
  exists (sort (entry_of fs <$> map_to_list children)). split_and!.
  - by apply (ls_in_order_spec fs map_to_list p d nd children).
  - apply sort_sorted.
  - apply sort_perm.
  - intros enum Henum. by apply (ls_in_order_spec fs enum p d nd children).
Qed.

Lemma ls_sorted_marked_deterministic_witness :
  let entries : gmap string ptr :=
    {[ "home" := 2%positive; "tmp" := 3%positive ]} in
  ∃ names,
    ls "/" fs_home_tmp = Ret names
    ∧ Sorted string_le names
    ∧ names ≡ₚ entry_of fs_home_tmp <$> map_to_list entries
    ∧ ∀ enum, enum entries ≡ₚ map_to_list entries →
              ls_in_order enum "/" fs_home_tmp = Ret names.
Proof.
  intros entries.
  apply (proj1 ls_sorted_marked_deterministic fs_home_tmp "/" 1%positive
           (mkFSNode "/" None (DirectoryNode entries))).
  - apply wfb_sound. vm_compute. reflexivity.
  - vm_compute. reflexivity.
  - vm_compute. reflexivity.
  - reflexivity.
Defined.

(** C3 as claimed does not hold of the names: [std::sort] runs on the
    lines, after the marker has been added.  With a directory [a] next to a
    file [a.txt], the name "a" comes before the name "a.txt", yet the line of
    [a.txt] comes before the line of [a], since "." is smaller than "/": the
    lines are in ascending order, the names in the order returned are not. *)
Lemma ls_lines_not_in_name_order :
  getNodeType "/a" fs_a_txt = Ret Directory
  ∧ getNodeType "/a.txt" fs_a_txt = Ret File
  ∧ ls "/" fs_a_txt = Ret ["a.txt"; "a/"]
  ∧ (string_le "a" "a.txt" ∧ ¬ string_le "a.txt" "a")
  ∧ Sorted string_le ["a.txt"; "a/"]
  ∧ ¬ Sorted string_le ["a.txt"; "a"].
Proof.
  split_and!; try (vm_compute; reflexivity).
  - by vm_compute.
  - repeat constructor; vm_compute; reflexivity.
  - intros Hs. inversion Hs as [|? ? _ Hhd]; subst. inversion Hhd as [|? ? Hle]; subst.
    by vm_compute in Hle.
Qed.

(** ** The cycle guard of [mv] *)

(** Walking up from a descendant of [s], the loop of [mv] meets [s]. *)
Lemma mv_guard_meets_ancestor fs s :
  wf fs →
  ∀ k np fuel,
    nsteps (child_edge fs) k s np → k < fuel →
    mv_guard fuel (Some np) s fs = Throw CyclicMove.
Proof.
  intros Hwf. induction k as [|k IH]; intros np fuel Hsteps Hfuel.
  - inversion Hsteps; subst. destruct fuel as [|fuel]; [lia|]. simpl.
    by destruct (decide (np = np)).
  - apply nsteps_inv_r in Hsteps as (d & Hsteps & Hedge).
    destruct fuel as [|fuel]; [lia|]. simpl.
    destruct (decide (np = s)); [done|].
    destruct (child_edge_inv fs Hwf d np Hedge) as ((dn & ? & Hdn & _) & cn & Hcn & Hp).
    unfold deref. rewrite Hcn. simpl. rewrite Hp. unfold lock. rewrite Hdn.
    apply IH; [done|lia].
Qed.

(** A node other than the root that is reached from the root has a live
    parent. *)
Lemma reachable_parent fs p nd :
  wf fs → reachable fs p → p ≠ root fs → heap fs !! p = Some nd →
  ∃ d, lock (parent nd) fs = Some d.
Proof.
  intros Hwf [ancestors Hch] Hnr Hnd.
  destruct Hch as [|d ancestors c _ Hedge]; [done|].
  destruct (child_edge_inv fs Hwf d c Hedge) as ((dn & ? & Hdn & _) & cn & Hcn & Hp).
  exists d. assert (cn = nd) as -> by congruence.
  rewrite Hp. unfold lock. by rewrite Hdn.
Qed.

(** C4, as the code has it.  When [src] resolves to a node other than the
    root, and the directory [_resolveDestination] returns for [dest] is that
    node or is reached from it through [k] entries of directories, then [mv]
    throws [CyclicMove] (once the loop is given more than [k] steps) and
    leaves the store as it was.  With directories [/a] and [/a/b],
    [mv("/a", "/a/b")] throws [CyclicMove] and changes nothing. *)
Theorem mv_into_own_subtree_is_CyclicMove :
  (∀ fs src dest s sn np nn k fuel,
     wf fs →
     _resolvePath src fs = Ret s →
     s ≠ root fs →
     heap fs !! s = Some sn →
     _resolveDestination dest (name sn) fs = Ret (np, nn) →
     nsteps (child_edge fs) k s np →
     k < fuel →
     mv fuel src dest fs = (Throw CyclicMove, fs))
  ∧ (∀ fuel, 1 < fuel → mv fuel "/a" "/a/b" fs_a_b = (Throw CyclicMove, fs_a_b)).
Proof.
  assert (∀ fs src dest s sn np nn k fuel,
     wf fs →
     _resolvePath src fs = Ret s →
     s ≠ root fs →
     heap fs !! s = Some sn →
     _resolveDestination dest (name sn) fs = Ret (np, nn) →
     nsteps (child_edge fs) k s np →
     k < fuel →
     mv fuel src dest fs = (Throw CyclicMove, fs)) as Hgen.
  { intros fs src dest s sn np nn k fuel Hwf Hs Hnr Hsn Hdest Hsteps Hfuel.
    unfold mv.
    destruct (decide (src = "/")) as [->|_].
    { revert Hs. unfold _resolvePath. simpl. by intros [= <-]. }
    assert (reachable fs s) as Hreach.
    { destruct (resolvePath_wf fs Hwf src) as [(s' & Hs' & Hr)|[e He]]; congruence. }
    destruct (reachable_parent fs s sn Hwf Hreach Hnr Hsn) as [op Hop].
    unfold mbind at 1, M_bind at 1, read at 1. rewrite Hs.
    unfold mbind at 1, M_bind at 1, read at 1, deref at 1. rewrite Hsn.
    unfold mbind at 1, M_bind at 1, read at 1. rewrite Hop.
    unfold mbind at 1, M_bind at 1, read at 1. rewrite Hdest.
    unfold mbind at 1, M_bind at 1, read at 1.
    by rewrite (mv_guard_meets_ancestor fs s Hwf k np fuel Hsteps Hfuel). }
  split; [exact Hgen|].
  intros fuel Hfuel.
  apply (Hgen fs_a_b "/a" "/a/b" 2%positive
           (mkFSNode "a" (Some 1%positive) (DirectoryNode {[ "b" := 3%positive ]}))
           3%positive "a" 1 fuel).
  - apply wfb_sound. vm_compute. reflexivity.
  - vm_compute. reflexivity.
  - done.
  - vm_compute. reflexivity.
  - vm_compute. reflexivity.
  - apply nsteps_once.
    exists (mkFSNode "a" (Some 1%positive) (DirectoryNode {[ "b" := 3%positive ]})),
      {[ "b" := 3%positive ]}, "b".
    split_and!; vm_compute; reflexivity.
  - done.
Qed.

Lemma mv_into_own_subtree_is_CyclicMove_witness :
  mv 1 "/a" "/a" fs_a_b = (Throw CyclicMove, fs_a_b)
  ∧ mv 2 "/a" "/a/b" fs_a_b = (Throw CyclicMove, fs_a_b).
Proof.
  destruct mv_into_own_subtree_is_CyclicMove as [Hgen Hab]. split.
  - apply (Hgen fs_a_b "/a" "/a" 2%positive
             (mkFSNode "a" (Some 1%positive) (DirectoryNode {[ "b" := 3%positive ]}))
             2%positive "a" 0 1).
    + apply wfb_sound. vm_compute. reflexivity.
    + vm_compute. reflexivity.
    + vm_compute. done.
    + vm_compute. reflexivity.
    + vm_compute. reflexivity.
    + apply nsteps_O.
    + lia.
  - apply (Hab 2). lia.
Defined.

(** C4 as claimed does not hold when [src] is the root: every directory is
    the root or below it, and [mv] throws [InvalidPath], not [CyclicMove]. *)
Lemma mv_root_source_is_InvalidPath :
  _resolvePath "/" fs_a_b = Ret (root fs_a_b)
  ∧ _resolveDestination "/a/b" "/" fs_a_b = Ret (3%positive, "/")
  ∧ child_edge fs_a_b (root fs_a_b) 2%positive
  ∧ child_edge fs_a_b 2%positive 3%positive
  ∧ ∀ fuel, mv fuel "/" "/a/b" fs_a_b = (Throw InvalidPath, fs_a_b).
Proof.
  split_and!.
  - reflexivity.
  - vm_compute. reflexivity.
  - exists (mkFSNode "/" None (DirectoryNode {[ "a" := 2%positive ]})), {[ "a" := 2%positive ]}, "a".
    split_and!; vm_compute; reflexivity.
  - exists (mkFSNode "a" (Some 1%positive) (DirectoryNode {[ "b" := 3%positive ]})),
      {[ "b" := 3%positive ]}, "b".
    split_and!; vm_compute; reflexivity.
  - intros fuel. reflexivity.
Qed.

(** ** Failure atomicity *)

Section atomicity.
Context {A B : Type}.

Lemma atomic_read (f : FileSystem → outcome A) : atomic (read f).
Proof. intros fs e fs' [= _ ->]. done. Qed.

Lemma atomic_throw (e : FileSystemException) : atomic (throw (A:=A) e).
Proof. intros fs e' fs' [= _ ->]. done. Qed.

Lemma atomic_ret (a : A) : atomic (mret a : M A).
Proof. intros fs e fs' [=]. Qed.

Lemma silent_atomic (m : M A) : silent m → atomic m.
Proof. intros Hm fs e fs' H. by destruct (Hm fs e fs'). Qed.

Lemma silent_ret (a : A) : silent (mret a : M A).
Proof. intros fs e fs' [=]. Qed.

Lemma silent_bind (m : M A) (k : A → M B) :
  silent m → (∀ a, silent (k a)) → silent (m ≫= k).
Proof.
  intros Hm Hk fs e fs'. unfold mbind, M_bind.
  destruct (m fs) as [[a| e0 | |] fs1] eqn:Hmfs; try done.
  - apply Hk.
  - by destruct (Hm fs e0 fs1).
Qed.

Lemma atomic_bind_read (f : FileSystem → outcome A) (k : A → M B) :
  (∀ a, atomic (k a)) → atomic (read f ≫= k).
Proof.
  intros Hk fs e fs'. unfold mbind, M_bind, read.
  destruct (f fs) as [a| e0 | |]; try done.
  - apply Hk.
  - by intros [= _ ->].
Qed.

Lemma atomic_bind_silent (m : M A) (k : A → M B) :
  atomic m → (∀ a, silent (k a)) → atomic (m ≫= k).
Proof.
  intros Hm Hk fs e fs'. unfold mbind, M_bind.
  destruct (m fs) as [[a| e0 | |] fs1] eqn:Hmfs; try done.
  - intros H. by destruct (Hk a fs1 e fs').
  - intros [= <- <-]. by apply (Hm fs e0).
Qed.
End atomicity.

Lemma silent_make_shared n : silent (make_shared n).
Proof. intros fs e fs' [=]. Qed.

Lemma silent_modify_node p f : silent (modify_node p f).
Proof. intros fs e fs'. unfold modify_node. by destruct (heap fs !! p). Qed.

Lemma silent_modify_children d f : silent (modify_children d f).
Proof.
  intros fs e fs'. unfold modify_children.
  destruct (heap fs !! d) as [[nm par [|ch]]|]; done.
Qed.

Lemma silent_store_child d k c : silent (store_child d k c).
Proof. apply silent_modify_children. Qed.

Lemma silent_erase_child d k : silent (erase_child d k).
Proof. apply silent_modify_children. Qed.

Lemma silent_read_deref p : silent (read (deref p)).
Proof. intros fs e fs'. unfold read, deref. by destruct (heap fs !! p). Qed.

Lemma silent_read_children_of p : silent (read (children_of p)).
Proof.
  intros fs e fs'. unfold read, children_of.
  destruct (heap fs !! p) as [[nm par [|ch]]|]; done.
Qed.

#[local] Hint Resolve silent_make_shared silent_modify_node silent_store_child
  silent_erase_child silent_read_deref silent_read_children_of silent_ret : silent.

Lemma silent_copy_entries recur dest entries :
  (∀ s d, silent (recur s d)) → silent (copy_entries recur dest entries).
Proof.
  intros Hrec. induction entries as [|[k child] rest IH]; simpl.
  - apply silent_ret.
  - apply silent_bind; [apply silent_read_deref|]. intros cn.
    destruct (data cn).
    + repeat (apply silent_bind; [auto with silent|]; intros ?). done.
    + repeat (apply silent_bind; [auto with silent|]; intros ?). done.
Qed.

Lemma silent_recursiveCopy fuel source dest : silent (_recursiveCopy fuel source dest).
Proof.
  revert source dest. induction fuel as [|fuel IH]; intros source dest; simpl.
  - intros fs e fs' [=].
  - apply silent_bind; [apply silent_read_children_of|]. intros children.
    by apply silent_copy_entries.
Qed.

(** Once [mkdir] has created a directory, every later component is created
    under it: nothing is left that could throw. *)
Lemma mkdir_loop_in_new_directory components current fs nd :
  heap fs !! current = Some nd →
  data nd = DirectoryNode ∅ →
  ∀ e fs', mkdir_loop components current fs ≠ (Throw e, fs').
Proof.
  revert current fs nd.
  induction components as [|component rest IH]; intros current fs nd Hcur Hdata e fs'; simpl.
  - done.
  - destruct (decide (component = "")) as [_|_]; [by eapply IH|].
    unfold mbind, M_bind, read, children_of at 1. rewrite Hcur, Hdata.
    rewrite lookup_empty. simpl.
    set (p := fresh (dom (heap fs))).
    assert (p ≠ current) as Hne.
    { intros Heq. apply (is_fresh (dom (heap fs))). fold p. rewrite Heq.
      apply elem_of_dom. eauto. }
    unfold store_child, modify_children. simpl.
    rewrite lookup_insert_ne by done. rewrite Hcur, Hdata.
    eapply IH; simpl.
    + rewrite lookup_insert_ne by done. apply lookup_insert_eq.
    + done.
Qed.

Lemma atomic_mkdir_loop components current : atomic (mkdir_loop components current).
Proof.
  revert current. induction components as [|component rest IH]; intros current; simpl.
  - apply atomic_ret.
  - destruct (decide (component = "")) as [_|_]; [apply IH|].
    intros fs e fs'. unfold mbind at 1, M_bind at 1, read at 1, children_of.
    destruct (heap fs !! current) as [[nm par [content|children]]|] eqn:Hcur; simpl;
      [by intros [=]| |by intros [=]].
    destruct (children !! component) as [child|] eqn:Hchild.
    + intros H. refine (atomic_bind_read (deref child) _ _ fs e fs' H).
      intros cn. destruct (decide (getType cn ≠ Directory)); [apply atomic_throw|apply IH].
    + unfold mbind, M_bind, make_shared, store_child, modify_children. simpl.
      set (p := fresh (dom (heap fs))).
      assert (p ≠ current) as Hne.
      { intros Heq. apply (is_fresh (dom (heap fs))). fold p. rewrite Heq.
        apply elem_of_dom. eauto. }
      rewrite lookup_insert_ne by done. rewrite Hcur. simpl.
      intros H. exfalso. revert H. eapply mkdir_loop_in_new_directory; simpl.
      * rewrite lookup_insert_ne by done. apply lookup_insert_eq.
      * done.
Qed.

Lemma atomic_mkdir path : atomic (mkdir path).
Proof.
  intros fs e fs'. unfold mkdir. destruct (decide (path = "/")); [done|].
  apply atomic_mkdir_loop.
Qed.

Ltac atomic_step :=
  first
    [ apply atomic_throw
    | apply atomic_ret
    | apply atomic_read
    | apply atomic_bind_read; intros
    | apply silent_atomic;
      repeat (first [ apply silent_bind; [auto with silent|]; intros
                    | apply silent_recursiveCopy
                    | solve [auto with silent] ]) ].

Lemma atomic_touch path : atomic (touch path).
Proof.
  unfold touch. apply atomic_bind_read; intros [parent fileName].
  apply atomic_bind_read; intros children.
  destruct (children !! fileName).
  - apply atomic_bind_read; intros cn. destruct (decide _); atomic_step.
  - atomic_step.
Qed.

Lemma atomic_writeFile path content : atomic (writeFile path content).
Proof.
  unfold writeFile. apply atomic_bind_read; intros [parent fileName].
  apply atomic_bind_read; intros children.
  destruct (children !! fileName) as [child|].
  - intros fs e fs'. unfold mbind at 1, M_bind at 1.
    unfold mbind at 1, M_bind at 1. unfold read, deref.
    destruct (heap fs !! child) as [cn|]; simpl; [|by intros [=]].
    destruct (bool_decide _); [by intros [= _ ->]|].
    revert fs e fs'. atomic_step.
  - intros fs e fs'. unfold mbind at 1, M_bind at 1. simpl.
    revert fs e fs'. atomic_step.
Qed.

Lemma atomic_append path content : atomic (append path content).
Proof.
  unfold append. do 2 (apply atomic_bind_read; intros ?).
  destruct (data _); atomic_step.
Qed.

Lemma atomic_rm path recursive : atomic (rm path recursive).
Proof.
  unfold rm. destruct (decide _); [atomic_step|].
  apply atomic_bind_read; intros [parent nm].
  apply atomic_bind_read; intros children.
  destruct (children !! nm); [|atomic_step].
  apply atomic_bind_read; intros cn.
  destruct (data cn); [atomic_step|].
  destruct (decide _); atomic_step.
Qed.

Lemma atomic_cp fuel sourcePath destPath : atomic (cp fuel sourcePath destPath).
Proof.
  unfold cp. do 2 (apply atomic_bind_read; intros ?).
  apply atomic_bind_read; intros [destParent newName].
  apply atomic_bind_read; intros siblings.
  destruct (siblings !! newName); [atomic_step|].
  destruct (data _); atomic_step.
Qed.

Lemma atomic_mv fuel sourcePath destPath : atomic (mv fuel sourcePath destPath).
Proof.
  unfold mv. destruct (decide _); [atomic_step|].
  do 3 (apply atomic_bind_read; intros ?).
  match goal with |- atomic (match ?o with _ => _ end) => destruct o end; [|atomic_step].
  apply atomic_bind_read; intros [newParent newName].
  apply atomic_bind_read; intros _.
  atomic_step.
Qed.

(** C5. Every public mutating operation that throws leaves the store exactly
    as it was before the call.  This holds for [mkdir] as well: [mkdir] can
    only throw at a component that already exists (as a file), and every
    component after a directory it has created is new, so it never throws
    after it has created anything. *)
Theorem mutation_failure_atomic (fuel : nat) (op : mutation) (fs fs' : FileSystem)
    (e : FileSystemException) :
  perform fuel op fs = (Throw e, fs') → fs' = fs.
Proof.
  destruct op; simpl.
  - apply atomic_mkdir.
  - apply atomic_touch.
  - apply atomic_writeFile.
  - apply atomic_append.
  - apply atomic_rm.
  - apply atomic_cp.
  - apply atomic_mv.
Qed.

Lemma mutation_failure_atomic_witness :
  run (mkdir "/notes/2025/jan") fs_notes = fs_notes.
Proof.
  apply (mutation_failure_atomic 0 (Mkdir "/notes/2025/jan") fs_notes _ NotADirectory).
  vm_compute. reflexivity.
Defined.

(** ** Creation and removal at a (parent, name) pair *)

Lemma resolveParentAndName_Ret path fs d nm :
  _resolveParentAndName path fs = Ret (d, nm) →
  ∃ prefix dn children,
    heap fs !! d = Some dn
    ∧ data dn = DirectoryNode children
    ∧ nm ≠ ""
    ∧ path ≠ "" ∧ path ≠ "/"
    ∧ resolve_loop fs prefix (root fs) = Ret d
    ∧ getlines (skip_slash path) = (prefix ++ [nm])%list.
Proof.
  unfold _resolveParentAndName.
  destruct (decide (path = "" ∨ path = "/")) as [|Hpath]; [done|].
  destruct (find_last_of path "/") as [i|] eqn:Hi; [|done].
  destruct (decide (substr_from (i + 1) path = "")) as [|Hnm]; [done|].
  destruct (path_components path i Hi Hnm) as (prefix & Hparent & Htokens).
  rewrite Hparent.
  destruct (resolve_loop fs prefix (root fs)) as [parentNode| | |] eqn:Hwalk; simpl; try done.
  unfold deref. destruct (heap fs !! parentNode) as [dn|] eqn:Hdn; simpl; [|done].
  destruct (decide (getType dn ≠ Directory)) as [|Hty]; [done|]. intros [= <- <-].
  unfold getType in Hty. destruct (data dn) as [|children] eqn:Hdata; [by destruct Hty|].
  assert (path ≠ "" ∧ path ≠ "/") as [Hp1 Hp2].
  { split; intros ->; apply Hpath; auto. }
  destruct Htokens as [Htokens|Htokens].
  - exists prefix, dn, children. by split_and!.
  - exists (prefix ++ [""])%list, dn, children. split_and!; try done.
    + apply resolve_loop_app_empty; [done|]. by eexists _, _.
    + by rewrite <- app_assoc.
Qed.

Lemma resolvePath_components path fs :
  path ≠ "" → path ≠ "/" →
  _resolvePath path fs = resolve_loop fs (getlines (skip_slash path)) (root fs).
Proof.
  intros H1 H2. unfold _resolvePath.
  destruct (decide (path = "")); [done|]. by destruct (decide (path = "/")).
Qed.

Lemma writeFile_Ret_inv path content fs fs' d nm children :
  _resolveParentAndName path fs = Ret (d, nm) →
  children_of d fs = Ret children →
  writeFile path content fs = (Ret tt, fs') →
  (∀ c, children !! nm = Some c → ∃ cn, heap fs !! c = Some cn ∧ getType cn = File)
  ∧ (make_shared (mkFSNode nm (Some d) (FileNode content)) ≫= λ file,
       store_child d nm file) fs = (Ret tt, fs').
Proof.
  intros Hrpn Hch. unfold writeFile.
  unfold mbind at 1, M_bind at 1, read at 1. rewrite Hrpn.
  unfold mbind at 1, M_bind at 1, read at 1. rewrite Hch.
  unfold mbind at 1, M_bind at 1.
  destruct (children !! nm) as [child|].
  - unfold mbind at 1, M_bind at 1, read at 1, deref at 1.
    destruct (heap fs !! child) as [cn|] eqn:Hcn; simpl; [|done].
    destruct (bool_decide (getType cn = Directory)) eqn:Hb; [done|].
    intros Hrun. split; [|done]. intros c [= <-]. exists cn. split; [done|].
    apply bool_decide_eq_false in Hb. by destruct (getType cn).
  - simpl. intros Hrun. by split.
Qed.

(** [writeFile] followed by [cat], for a final component that is neither "."
    nor "..". *)
Lemma writeFile_then_cat path content fs fs' d nm :
  _resolveParentAndName path fs = Ret (d, nm) →
  nm ≠ "." → nm ≠ ".." →
  writeFile path content fs = (Ret tt, fs') →
  cat path fs' = Ret content.
Proof.
  intros Hrpn Hn1 Hn2 Hrun.
  destruct (resolveParentAndName_Ret path fs d nm Hrpn)
    as (prefix & dn & children & Hd & Hdata & Hn0 & Hp1 & Hp2 & Hwalk & Htokens).
  assert (children_of d fs = Ret children) as Hch.
  { unfold children_of. by rewrite Hd, Hdata. }
  destruct (writeFile_Ret_inv path content fs fs' d nm children Hrpn Hch Hrun)
    as [Hfile Hstore].
  revert Hstore. unfold mbind at 1, M_bind at 1, make_shared at 1.
  set (q := fresh (dom (heap fs))).
  assert (heap fs !! q = None) as Hq.
  { apply not_elem_of_dom. apply is_fresh. }
  assert (d ≠ q) as Hdq by congruence.
  unfold store_child.
  rewrite (modify_children_Ret d _ _ dn children); simpl;
    [|by rewrite lookup_insert_ne|done].
  intros [= <-].
  unfold cat. rewrite resolvePath_components by done. rewrite Htokens.
  match goal with
  | |- context [root (with_children ?a ?b ?c ?e)] =>
      change (root (with_children a b c e)) with (root fs)
  end.
  rewrite (resolve_after_store fs d dn children nm Hd Hdata (conj Hn0 (conj Hn1 Hn2))
             q (mkFSNode nm (Some d) (FileNode content)) prefix (root fs) Hq eq_refl Hfile
             Hwalk).
  simpl. unfold deref, with_children. simpl.
  rewrite lookup_insert_ne by done. rewrite lookup_insert_eq. done.
Qed.

Lemma writeFile_IsADirectory path content fs d nm children c cn :
  _resolveParentAndName path fs = Ret (d, nm) →
  children_of d fs = Ret children →
  children !! nm = Some c →
  heap fs !! c = Some cn →
  getType cn = Directory →
  writeFile path content fs = (Throw IsADirectory, fs).
Proof.
  intros Hrpn Hch Hc Hcn Hty. unfold writeFile.
  unfold mbind at 1, M_bind at 1, read at 1. rewrite Hrpn.
  unfold mbind at 1, M_bind at 1, read at 1. rewrite Hch.
  unfold mbind at 1, M_bind at 1. rewrite Hc.
  unfold mbind at 1, M_bind at 1, read at 1, deref. rewrite Hcn. simpl.
  by rewrite bool_decide_eq_true_2.
Qed.

Lemma writeFile_Ret path content fs d nm children :
  _resolveParentAndName path fs = Ret (d, nm) →
  children_of d fs = Ret children →
  (children !! nm = None
   ∨ ∃ c cn, children !! nm = Some c ∧ heap fs !! c = Some cn ∧ getType cn = File) →
  ∃ fs', writeFile path content fs = (Ret tt, fs').
Proof.
  intros Hrpn Hch Hfree. unfold writeFile.
  unfold mbind at 1, M_bind at 1, read at 1. rewrite Hrpn.
  unfold mbind at 1, M_bind at 1, read at 1. rewrite Hch.
  assert (∃ dn, heap fs !! d = Some dn ∧ data dn = DirectoryNode children) as (dn & Hd & Hdata).
  { revert Hch. unfold children_of. destruct (heap fs !! d) as [dn|]; [|done].
    destruct (data dn) eqn:Hdata; [done|]. intros [= ->]. eauto. }
  assert (d ≠ fresh (dom (heap fs))) as Hdq.
  { intros Heq. apply (is_fresh (dom (heap fs))). rewrite <- Heq. apply elem_of_dom. eauto. }
  unfold mbind at 1, M_bind at 1.
  destruct Hfree as [-> | (c & cn & -> & Hcn & Hty)].
  - simpl. unfold mbind, M_bind, make_shared, store_child.
    rewrite (modify_children_Ret d _ _ dn children); simpl;
      [eauto|by rewrite lookup_insert_ne|done].
  - unfold mbind at 1, M_bind at 1, read at 1, deref at 1. rewrite Hcn. simpl.
    rewrite bool_decide_eq_false_2 by (rewrite Hty; done).
    unfold mbind, M_bind, make_shared, store_child.
    rewrite (modify_children_Ret d _ _ dn children); simpl;
      [eauto|by rewrite lookup_insert_ne|done].
Qed.

(** C6 (the code departs from the claim, for the final components "." and
    ".." only).  When [writeFile(p, b)] returns and the final component of
    [p] is neither "." nor "..", [cat(p)] returns [b]; [writeFile] returns
    when the name is free or held by a file, and throws [IsADirectory] when
    a directory holds it.  But [writeFile("/.", b)] also returns, on a fresh
    tree: it creates a file called "." in the root, and [cat("/.")], which
    resolves "/." to the root, throws [NotAFile]; likewise for "/..". *)
Theorem writeFile_cat_roundtrip_except_dots :
  (∀ path content fs fs' d nm,
     _resolveParentAndName path fs = Ret (d, nm) →
     nm ≠ "." → nm ≠ ".." →
     writeFile path content fs = (Ret tt, fs') →
     cat path fs' = Ret content)
  ∧ (∀ path content fs d nm children,
       _resolveParentAndName path fs = Ret (d, nm) →
       children_of d fs = Ret children →
       (children !! nm = None
        ∨ ∃ c cn, children !! nm = Some c ∧ heap fs !! c = Some cn ∧ getType cn = File) →
       ∃ fs', writeFile path content fs = (Ret tt, fs'))
  ∧ (∀ path content fs d nm children c cn,
       _resolveParentAndName path fs = Ret (d, nm) →
       children_of d fs = Ret children →
       children !! nm = Some c →
       heap fs !! c = Some cn →
       getType cn = Directory →
       writeFile path content fs = (Throw IsADirectory, fs))
  ∧ (_resolveParentAndName "/." FileSystem_new = Ret (root FileSystem_new, ".")
     ∧ ls "/" FileSystem_new = Ret []
     ∧ result (writeFile "/." [xde; xad; xbe; xef]%byte) FileSystem_new = Ret tt
     ∧ ls "/" (run (writeFile "/." [xde; xad; xbe; xef]%byte) FileSystem_new) = Ret ["."]
     ∧ cat "/." (run (writeFile "/." [xde; xad; xbe; xef]%byte) FileSystem_new)
       = Throw NotAFile
     ∧ result (writeFile "/.." []) FileSystem_new = Ret tt
     ∧ cat "/.." (run (writeFile "/.." []) FileSystem_new) = Throw NotAFile).
Proof.
  split_and!.
  - apply writeFile_then_cat.
  - apply writeFile_Ret.
  - apply writeFile_IsADirectory.
  - vm_compute. reflexivity.
  - vm_compute. reflexivity.
  - vm_compute. reflexivity.
  - vm_compute. reflexivity.
  - vm_compute. reflexivity.
  - vm_compute. reflexivity.
  - vm_compute. reflexivity.
Qed.

Lemma writeFile_cat_roundtrip_except_dots_witness :
  cat "/home/data.bin" (run (writeFile "/home/data.bin" [xde; xad; xbe; xef]%byte) fs_notes)
  = Ret [xde; xad; xbe; xef]%byte
  ∧ cat "/notes" (run (writeFile "/notes" []) fs_notes) = Ret []
  ∧ (∃ fs', writeFile "/notes" [] fs_notes = (Ret tt, fs'))
  ∧ writeFile "/home" [] fs_notes = (Throw IsADirectory, fs_notes).
Proof.
  destruct writeFile_cat_roundtrip_except_dots as (Hround & Hok & Hdir & _).
  split_and!.
  - apply (Hround "/home/data.bin" [xde; xad; xbe; xef]%byte fs_notes _ 2%positive "data.bin");
      [vm_compute; reflexivity|done|done|reflexivity].
  - apply (Hround "/notes" [] fs_notes _ 1%positive "notes");
      [vm_compute; reflexivity|done|done|reflexivity].
  - apply (Hok "/notes" [] fs_notes 1%positive "notes"
             {[ "home" := 2%positive; "notes" := 3%positive ]}).
    + vm_compute. reflexivity.
    + vm_compute. reflexivity.
    + right. exists 3%positive,
        (mkFSNode "notes" (Some 1%positive) (FileNode [xde; xad; xbe; xef]%byte)).
      split_and!; vm_compute; reflexivity.
  - apply (Hdir "/home" [] fs_notes 1%positive "home"
             {[ "home" := 2%positive; "notes" := 3%positive ]} 2%positive
             (mkFSNode "home" (Some 1%positive) (DirectoryNode ∅)));
      vm_compute; reflexivity.
Defined.

(** ** [rm] *)



(** ** [cp] and [_recursiveCopy] into the subtree they copy *)

Lemma fresh_not_in_heap fs : heap fs !! fresh (dom (heap fs)) = None.
Proof. apply not_elem_of_dom, is_fresh. Qed.

Lemma create_bind {B} dest k n (after : ptr → M B) fs dn children :
  heap fs !! dest = Some dn →
  data dn = DirectoryNode children →
  (make_shared n ≫= λ p, store_child dest k p;; after p) fs
  = after (fresh (dom (heap fs))) (created fs dest dn children k n).
Proof.
  intros Hd Hdata. pose proof (fresh_not_in_heap fs) as Hp.
  unfold mbind at 1, M_bind at 1, make_shared at 1.
  unfold mbind at 1, M_bind at 1, store_child.
  rewrite (modify_children_Ret dest _ _ dn children); [done| |done].
  simpl. rewrite lookup_insert_ne by congruence. done.
Qed.

Lemma created_frame fs dest dn children k n :
  heap fs !! dest = Some dn →
  frame fs (created fs dest dn children k n) dest.
Proof.
  intros Hd x nd Hx Hne. pose proof (fresh_not_in_heap fs) as Hp.
  unfold created, with_children. simpl.
  rewrite lookup_insert_ne by done. rewrite lookup_insert_ne by congruence. done.
Qed.

Lemma created_is_dir fs dest dn children k n :
  is_dir (created fs dest dn children k n) dest.
Proof. unfold created, with_children. eexists _, _. simpl. by rewrite lookup_insert_eq. Qed.

Lemma created_new_node fs dest dn children k n :
  heap fs !! dest = Some dn →
  heap (created fs dest dn children k n) !! fresh (dom (heap fs)) = Some n.
Proof.
  intros Hd. pose proof (fresh_not_in_heap fs) as Hp. unfold created, with_children. simpl.
  rewrite lookup_insert_ne by congruence. apply lookup_insert_eq.
Qed.

Lemma created_edge fs dest dn children k n :
  child_edge (created fs dest dn children k n) dest (fresh (dom (heap fs))).
Proof.
  unfold created, with_children, child_edge. simpl. eexists _, _, k.
  rewrite lookup_insert_eq. split_and!; [done|done|]. apply lookup_insert_eq.
Qed.

Lemma frame_refl fs d : frame fs fs d.
Proof. by intros x nd Hx _. Qed.

(** A frame around [d], then a frame around a node [p] that did not exist at
    first. *)
Lemma frame_then_new fs fs2 fs3 d p :
  frame fs fs2 d → frame fs2 fs3 p → heap fs !! p = None → frame fs fs3 d.
Proof.
  intros H12 H23 Hp x nd Hx Hne. apply H23; [by apply H12|congruence].
Qed.

Lemma frame_trans fs fs2 fs3 d : frame fs fs2 d → frame fs2 fs3 d → frame fs fs3 d.
Proof. intros H12 H23 x nd Hx Hne. apply H23; [by apply H12|done]. Qed.

Lemma is_dir_frame fs fs' d x : frame fs fs' d → x ≠ d → is_dir fs x → is_dir fs' x.
Proof.
  intros Hfr Hne (nd & children & Hx & Hdata). exists nd, children.
  split; [|done]. by apply Hfr.
Qed.

Lemma child_edge_frame fs fs' d x c :
  frame fs fs' d → x ≠ d → child_edge fs x c → child_edge fs' x c.
Proof.
  intros Hfr Hne (nd & children & k & Hx & Hdata & Hk). exists nd, children, k.
  split_and!; [|done|done]. by apply Hfr.
Qed.

Lemma leads_frame fs fs' dest x : frame fs fs' dest → leads fs dest x → leads fs' dest x.
Proof.
  intros Hfr. induction 1 as [|y c Hne Hedge _ IH]; [constructor|].
  apply (leads_step fs' dest y c); [done| |done]. by apply (child_edge_frame fs fs' dest).
Qed.

(** What led to [dest] leads on to a new node stored in [dest]. *)
Lemma leads_extend fs fs2 dest p x :
  frame fs fs2 dest →
  is_dir fs dest →
  heap fs !! p = None →
  child_edge fs2 dest p →
  leads fs dest x → leads fs2 p x.
Proof.
  intros Hfr (dn & ? & Hd & _) Hp Hedge.
  induction 1 as [|y c Hne Hyc _ IH].
  - apply (leads_step fs2 p dest p); [congruence|done|constructor].
  - assert (y ≠ p) as Hyp.
    { destruct Hyc as (nd & ? & ? & Hy & _). congruence. }
    apply (leads_step fs2 p y c); [done| |done]. by apply (child_edge_frame fs fs2 dest).
Qed.

Lemma leads_is_dir fs dest x : is_dir fs dest → leads fs dest x → is_dir fs x.
Proof.
  intros Hdir [|y c _ (nd & children & k & Hy & Hdata & _) _]; [done|]. by eexists _, _.
Qed.

Section into_subtree.
Context (recur : ptr → ptr → M unit).
Hypothesis recur_frame :
  ∀ s d fs o fs',
    is_dir fs d → recur s d fs = (o, fs') → frame fs fs' d ∧ is_dir fs' d.
Hypothesis recur_never_returns :
  ∀ s d fs fs',
    s ≠ d → leads fs d s → is_dir fs d → recur s d fs ≠ (Ret tt, fs').

Lemma copy_entries_frame dest entries fs o fs' :
  is_dir fs dest →
  copy_entries recur dest entries fs = (o, fs') →
  frame fs fs' dest ∧ is_dir fs' dest.
Proof.
  revert fs. induction entries as [|[k child] rest IH]; intros fs Hdir; simpl.
  - intros [= _ <-]. split; [apply frame_refl|done].
  - unfold mbind at 1, M_bind at 1, read at 1, deref at 1.
    destruct (heap fs !! child) as [cn|] eqn:Hcn;
      [|intros [= _ <-]; split; [apply frame_refl|done]].
    pose proof Hdir as (dn & children & Hd & Hdata).
    pose proof (fresh_not_in_heap fs) as Hp.
    destruct (data cn) as [content|grandchildren].
    + rewrite (create_bind dest _ _ _ fs dn children Hd Hdata).
      intros Hrest. apply IH in Hrest as [Hfr Hdir']; [|apply created_is_dir].
      split; [|done]. eapply frame_trans; [by apply created_frame|done].
    + rewrite (create_bind dest _ _ _ fs dn children Hd Hdata).
      set (fs2 := created _ _ _ _ _ _). set (p := fresh (dom (heap fs))) in *.
      assert (frame fs fs2 dest) as Hfr2 by (by apply created_frame).
      assert (is_dir fs2 p) as Hdirp.
      { eexists _, _. split; [by apply created_new_node|done]. }
      assert (p ≠ dest) as Hpd by congruence.
      unfold mbind at 1, M_bind at 1.
      destruct (recur child p fs2) as [o3 fs3] eqn:Hrec.
      destruct (recur_frame child p fs2 o3 fs3 Hdirp Hrec) as [Hfr3 _].
      assert (frame fs fs3 dest) as Hfr13 by (by apply (frame_then_new fs fs2 fs3 dest p)).
      assert (is_dir fs3 dest) as Hdir3.
      { apply (is_dir_frame fs2 fs3 p); [done|done|apply created_is_dir]. }
      destruct o3 as [[]| | |]; try (intros [= _ <-]; by split).
      intros Hrest. apply IH in Hrest as [Hfr Hdir']; [|done].
      split; [|done]. by eapply frame_trans.
Qed.

Lemma copy_entries_never_returns dest entries fs k c fs' :
  (k, c) ∈ entries →
  leads fs dest c →
  is_dir fs dest →
  copy_entries recur dest entries fs ≠ (Ret tt, fs').
Proof.
  revert fs. induction entries as [|[k' child] rest IH]; intros fs Hin Hleads Hdir; simpl.
  - by apply elem_of_nil in Hin.
  - unfold mbind at 1, M_bind at 1, read at 1, deref at 1.
    destruct (heap fs !! child) as [cn|] eqn:Hcn; [|done].
    pose proof Hdir as (dn & children & Hd & Hdata).
    pose proof (fresh_not_in_heap fs) as Hp.
    destruct (decide (child = c)) as [->|Hne].
    + (* the entry that leads to [dest] *)
      destruct (leads_is_dir fs dest c Hdir Hleads) as (cn' & grandchildren & Hcn' & Hcdata).
      assert (cn' = cn) as -> by congruence. rewrite Hcdata.
      rewrite (create_bind dest _ _ _ fs dn children Hd Hdata).
      set (fs2 := created _ _ _ _ _ _). set (p := fresh (dom (heap fs))) in *.
      unfold mbind at 1, M_bind at 1.
      destruct (recur c p fs2) as [o3 fs3] eqn:Hrec.
      destruct o3 as [[]| | |]; try done.
      exfalso. apply (recur_never_returns c p fs2 fs3); [congruence| | |done].
      * apply (leads_extend fs fs2 dest p c); [by apply created_frame|done|done| |done].
        apply created_edge.
      * eexists _, _. split; [by apply created_new_node|done].
    + (* another entry, before it *)
      assert ((k, c) ∈ rest) as Hin'.
      { apply elem_of_cons in Hin as [[= _ ->]|Hin]; done. }
      destruct (data cn) as [content|grandchildren].
      * rewrite (create_bind dest _ _ _ fs dn children Hd Hdata).
        apply IH; [done| |apply created_is_dir].
        apply (leads_frame fs); [by apply created_frame|done].
      * rewrite (create_bind dest _ _ _ fs dn children Hd Hdata).
        set (fs2 := created _ _ _ _ _ _). set (p := fresh (dom (heap fs))) in *.
        assert (is_dir fs2 p) as Hdirp.
        { eexists _, _. split; [by apply created_new_node|done]. }
        assert (p ≠ dest) as Hpd by congruence.
        unfold mbind at 1, M_bind at 1.
        destruct (recur child p fs2) as [o3 fs3] eqn:Hrec.
        destruct (recur_frame child p fs2 o3 fs3 Hdirp Hrec) as [Hfr3 _].
        destruct o3 as [[]| | |]; try done.
        apply IH; [done| |].
        -- apply (leads_frame fs); [|done].
           apply (frame_then_new fs fs2 fs3 dest p); [by apply created_frame|done|done].
        -- apply (is_dir_frame fs2 fs3 p); [done|done|apply created_is_dir].
Qed.
End into_subtree.

Lemma recursiveCopy_frame fuel :
  ∀ source dest fs o fs',
    is_dir fs dest →
    _recursiveCopy fuel source dest fs = (o, fs') →
    frame fs fs' dest ∧ is_dir fs' dest.
Proof.
  induction fuel as [|fuel IH]; intros source dest fs o fs' Hdir; simpl.
  - intros [= _ <-]. split; [apply frame_refl|done].
  - unfold mbind at 1, M_bind at 1, read at 1.
    destruct (children_of source fs) as [children| | |];
      try (intros [= _ <-]; split; [apply frame_refl|done]).
    by apply copy_entries_frame.
Qed.

(** When [dest] lies below [source], [_recursiveCopy(source, dest)] never
    returns: the entry of [source] that leads to [dest] is copied into
    [dest], and the recursive call for it is in the same situation. *)
Lemma recursiveCopy_never_returns fuel :
  ∀ source dest fs fs',
    source ≠ dest → leads fs dest source → is_dir fs dest →
    _recursiveCopy fuel source dest fs ≠ (Ret tt, fs').
Proof.
  induction fuel as [|fuel IH]; intros source dest fs fs' Hne Hleads Hdir; simpl; [done|].
  destruct Hleads as [|source c _ Hedge Hleads]; [done|].
  destruct Hedge as (sn & children & k & Hs & Hdata & Hk).
  unfold mbind at 1, M_bind at 1, read at 1, children_of. rewrite Hs, Hdata.
  apply (copy_entries_never_returns (_recursiveCopy fuel)) with (k := k) (c := c); try done.
  - apply recursiveCopy_frame.
  - by apply elem_of_map_to_list.
Qed.

(** [_recursiveCopy(source, dest)] when [dest] is the only child of [source]
    and is empty: the copy of [dest] is created inside [dest], and the
    recursive call is in the same situation one level down. *)
Lemma recursiveCopy_into_only_child fuel :
  ∀ source dest fs sn dn k,
    heap fs !! source = Some sn →
    data sn = DirectoryNode {[ k := dest ]} →
    heap fs !! dest = Some dn →
    name dn = k →
    data dn = DirectoryNode ∅ →
    source ≠ dest →
    ∃ fs', _recursiveCopy fuel source dest fs = (OutOfFuel, fs').
Proof.
  induction fuel as [|fuel IH]; intros source dest fs sn dn k Hs Hsd Hd Hdn Hdd Hne; simpl.
  - eauto.
  - unfold mbind at 1, M_bind at 1, read at 1, children_of. rewrite Hs, Hsd.
    rewrite map_to_list_singleton. simpl.
    unfold mbind at 1, M_bind at 1, read at 1, deref. rewrite Hd, Hdd.
    unfold mbind at 1, M_bind at 1. unfold make_shared at 1.
    set (p := fresh (dom (heap fs))).
    assert (p ∉ dom (heap fs)) as Hfresh by apply is_fresh.
    assert (p ≠ dest) as Hpd.
    { intros ->. apply Hfresh, elem_of_dom. eauto. }
    assert (p ≠ source) as Hps.
    { intros ->. apply Hfresh, elem_of_dom. eauto. }
    unfold mbind at 1, M_bind at 1. unfold store_child, modify_children. simpl.
    rewrite lookup_insert_ne by done. rewrite Hd, Hdd.
    unfold mbind at 1, M_bind at 1.
    edestruct (IH dest p) as [fs' Hfs']; last (rewrite Hfs'; eauto); simpl.
    + apply lookup_insert_eq.
    + simpl. rewrite insert_empty. rewrite Hdn. reflexivity.
    + rewrite lookup_insert_ne by done. apply lookup_insert_eq.
    + done.
    + done.
    + done.
Qed.

(** [cp] of a directory, up to the call of [_recursiveCopy]. *)
Lemma cp_directory_steps fuel sourcePath destPath fs s sn children dp nn siblings :
  _resolvePath sourcePath fs = Ret s →
  heap fs !! s = Some sn →
  data sn = DirectoryNode children →
  _resolveDestination destPath (name sn) fs = Ret (dp, nn) →
  children_of dp fs = Ret siblings →
  siblings !! nn = None →
  cp fuel sourcePath destPath fs
  = (make_shared (mkFSNode nn (Some dp) (DirectoryNode ∅)) ≫= λ newDir,
       store_child dp nn newDir;; _recursiveCopy fuel s newDir) fs.
Proof.
  intros Hs Hsn Hdata Hdest Hsib Hfree. unfold cp.
  unfold mbind at 1, M_bind at 1, read at 1. rewrite Hs.
  unfold mbind at 1, M_bind at 1, read at 1, deref at 1. rewrite Hsn.
  unfold mbind at 1, M_bind at 1, read at 1. rewrite Hdest.
  unfold mbind at 1, M_bind at 1, read at 1. rewrite Hsib.
  rewrite Hfree, Hdata. done.
Qed.

(** [cp] of a directory to a destination inside its own subtree: the call of
    [_recursiveCopy] it ends with never returns, and nothing is thrown. *)
Lemma cp_into_subtree_never_returns fuel sourcePath destPath fs s sn children dp nn siblings :
  _resolvePath sourcePath fs = Ret s →
  heap fs !! s = Some sn →
  data sn = DirectoryNode children →
  _resolveDestination destPath (name sn) fs = Ret (dp, nn) →
  children_of dp fs = Ret siblings →
  siblings !! nn = None →
  leads fs dp s →
  result (cp fuel sourcePath destPath) fs = OutOfFuel
  ∨ result (cp fuel sourcePath destPath) fs = Fault.
Proof.
  intros Hs Hsn Hdata Hdest Hsib Hfree Hleads. unfold result.
  rewrite (cp_directory_steps fuel sourcePath destPath fs s sn children dp nn siblings)
    by done.
  assert (∃ dpn, heap fs !! dp = Some dpn ∧ data dpn = DirectoryNode siblings)
    as (dpn & Hdp & Hdpdata).
  { revert Hsib. unfold children_of. destruct (heap fs !! dp) as [dpn|]; [|done].
    destruct (data dpn) eqn:Hd; [done|]. intros [= ->]. eauto. }
  rewrite (create_bind dp nn _ _ fs dpn siblings Hdp Hdpdata).
  set (n := mkFSNode nn (Some dp) (DirectoryNode ∅)).
  set (p := fresh (dom (heap fs))).
  pose proof (fresh_not_in_heap fs) as Hp. fold p in Hp.
  destruct (_recursiveCopy fuel s p (created fs dp dpn siblings nn n)) as [o fs'] eqn:Hrun.
  destruct o as [[]|e| |]; simpl; [|by destruct (silent_recursiveCopy _ _ _ _ _ _ Hrun)|auto..].
  exfalso. revert Hrun. apply recursiveCopy_never_returns.
  - congruence.
  - apply (leads_extend fs _ dp p s); [by apply created_frame|by eexists _, _|done| |done].
    apply created_edge.
  - eexists _, _. split; [by apply created_new_node|done].
Qed.

(** C8 (the code departs from the claim).  [cp] has no guard like the one of
    [mv].  Whenever the source is a directory and the destination directory
    is the source itself or lies below it (and the new name is free there),
    [cp] neither returns nor throws: the new directory is linked into the
    destination before the children of the source are walked, so the walk
    comes upon the copy it is making and copies it into itself.  With a
    directory [/a], [cp("/a", "/a/b")] and [cp("/a", "/a")] use up every
    depth of recursion they are given. *)
Theorem cp_into_own_subtree_diverges :
  (∀ fuel sourcePath destPath fs s sn children dp nn siblings,
     _resolvePath sourcePath fs = Ret s →
     heap fs !! s = Some sn →
     data sn = DirectoryNode children →
     _resolveDestination destPath (name sn) fs = Ret (dp, nn) →
     children_of dp fs = Ret siblings →
     siblings !! nn = None →
     leads fs dp s →
     result (cp fuel sourcePath destPath) fs = OutOfFuel
     ∨ result (cp fuel sourcePath destPath) fs = Fault)
  ∧ (∀ fuel,
       result (cp fuel "/a" "/a/b") fs_a = OutOfFuel
       ∧ result (cp fuel "/a" "/a") fs_a = OutOfFuel).
Proof.
  split; [apply cp_into_subtree_never_returns|].
  intros fuel. unfold result. split.
  - rewrite (cp_directory_steps fuel "/a" "/a/b" fs_a 2%positive
               (mkFSNode "a" (Some 1%positive) (DirectoryNode ∅)) ∅ 2%positive "b" ∅)
      by (vm_compute; reflexivity).
    unfold mbind at 1, M_bind at 1, make_shared at 1.
    replace (fresh (dom (heap fs_a))) with 3%positive by (vm_compute; reflexivity).
    unfold mbind at 1, M_bind at 1.
    set (st := mkFileSystem _ _).
    replace (store_child 2%positive "b" 3%positive st)
      with (Ret tt, run (store_child 2%positive "b" 3%positive) st)
      by (vm_compute; reflexivity).
    destruct (recursiveCopy_into_only_child fuel 2%positive 3%positive
                (run (store_child 2%positive "b" 3%positive) st)
                (mkFSNode "a" (Some 1%positive) (DirectoryNode {[ "b" := 3%positive ]}))
                (mkFSNode "b" (Some 2%positive) (DirectoryNode ∅)) "b") as [fs' ->];
      [vm_compute; reflexivity|reflexivity|vm_compute; reflexivity|reflexivity|reflexivity
      |done|done].
  - rewrite (cp_directory_steps fuel "/a" "/a" fs_a 2%positive
               (mkFSNode "a" (Some 1%positive) (DirectoryNode ∅)) ∅ 2%positive "a" ∅)
      by (vm_compute; reflexivity).
    unfold mbind at 1, M_bind at 1, make_shared at 1.
    replace (fresh (dom (heap fs_a))) with 3%positive by (vm_compute; reflexivity).
    unfold mbind at 1, M_bind at 1.
    set (st := mkFileSystem _ _).
    replace (store_child 2%positive "a" 3%positive st)
      with (Ret tt, run (store_child 2%positive "a" 3%positive) st)
      by (vm_compute; reflexivity).
    destruct (recursiveCopy_into_only_child fuel 2%positive 3%positive
                (run (store_child 2%positive "a" 3%positive) st)
                (mkFSNode "a" (Some 1%positive) (DirectoryNode {[ "a" := 3%positive ]}))
                (mkFSNode "a" (Some 2%positive) (DirectoryNode ∅)) "a") as [fs' ->];
      [vm_compute; reflexivity|reflexivity|vm_compute; reflexivity|reflexivity|reflexivity
      |done|done].
Qed.

Lemma cp_into_own_subtree_diverges_witness :
  result (cp 9 "/" "/a/b/c") fs_a_b = OutOfFuel ∨ result (cp 9 "/" "/a/b/c") fs_a_b = Fault.
Proof.
  apply (proj1 cp_into_own_subtree_diverges 9 "/" "/a/b/c" fs_a_b 1%positive
           (mkFSNode "/" None (DirectoryNode {[ "a" := 2%positive ]})) {[ "a" := 2%positive ]}
           3%positive "c" ∅).
  - reflexivity.
  - vm_compute. reflexivity.
  - reflexivity.
  - vm_compute. reflexivity.
  - vm_compute. reflexivity.
  - reflexivity.
  - apply (leads_step fs_a_b 3%positive 1%positive 2%positive); [done| |].
    { exists (mkFSNode "/" None (DirectoryNode {[ "a" := 2%positive ]})),
        {[ "a" := 2%positive ]}, "a".
      split_and!; vm_compute; reflexivity. }
    apply (leads_step fs_a_b 3%positive 2%positive 3%positive); [done| |constructor].
    exists (mkFSNode "a" (Some 1%positive) (DirectoryNode {[ "b" := 3%positive ]})),
      {[ "b" := 3%positive ]}, "b".
    split_and!; vm_compute; reflexivity.
Defined.

(** ** [exists], and where exceptions are caught *)

Lemma exists_true_iff fs p :
  exists_ p fs = Ret true ↔ ∃ node, _resolvePath p fs = Ret node.
Proof.
  unfold exists_. destruct (_resolvePath p fs); split; try done; eauto.
  all: by intros [? ?].
Qed.

Lemma exists_wf fs p : wf fs → ∃ b, exists_ p fs = Ret b.
Proof.
  intros Hwf. unfold exists_.
  destruct (resolvePath_wf fs Hwf p) as [(node & -> & _)|[e ->]]; eauto.
Qed.

(** C9, as the code has it.  [exists] never throws: on a well-formed store it
    returns a boolean for every string, [true] exactly when [_resolvePath]
    returns a node, [false] whenever [_resolvePath] throws (the empty string
    included).  It is not the only place where an exception is caught:
    [_resolveDestination], which [cp] and [mv] call, answers every exception of
    its [try] block with [_resolveParentAndName].  Everywhere else an
    exception of a resolution is thrown on to the caller unchanged, with the
    store untouched. *)
Theorem exists_never_fails_and_other_errors_propagate :
  (∀ fs p, wf fs → ∃ b, exists_ p fs = Ret b)
  ∧ (∀ fs p e, exists_ p fs = Throw e → False)
  ∧ (∀ fs p, exists_ p fs = Ret true ↔ ∃ node, _resolvePath p fs = Ret node)
  ∧ (∀ fs p e, _resolvePath p fs = Throw e → exists_ p fs = Ret false)
  ∧ (∀ fs, exists_ "" fs = Ret false)
  ∧ (∀ fs dest nm e,
       _resolveDestination_try dest nm fs = Throw e →
       _resolveDestination dest nm fs = _resolveParentAndName dest fs)
  ∧ (∀ fs p e,
       _resolvePath p fs = Throw e →
       cat p fs = Throw e
       ∧ ls p fs = Throw e
       ∧ getNodeType p fs = Throw e
       ∧ (∀ fuel, size fuel p fs = Throw e)
       ∧ (∀ content, append p content fs = (Throw e, fs))
       ∧ (∀ fuel dest, cp fuel p dest fs = (Throw e, fs))
       ∧ (∀ fuel dest, mv fuel p dest fs = (Throw e, fs)))
  ∧ (∀ fs p e,
       _resolveParentAndName p fs = Throw e →
       touch p fs = (Throw e, fs)
       ∧ (∀ content, writeFile p content fs = (Throw e, fs))
       ∧ (∀ recursive, rm p recursive fs = (Throw e, fs)))
  ∧ (∀ fs src dest s sn e,
       _resolvePath src fs = Ret s →
       heap fs !! s = Some sn →
       _resolveDestination dest (name sn) fs = Throw e →
       (∀ fuel, cp fuel src dest fs = (Throw e, fs))
       ∧ (∀ fuel op, src ≠ "/" → lock (parent sn) fs = Some op →
                     mv fuel src dest fs = (Throw e, fs))).
Proof.
  split_and!.
  - intros fs p Hwf. by apply exists_wf.
  - intros fs p e. unfold exists_. by destruct (_resolvePath p fs).
  - apply exists_true_iff.
  - intros fs p e He. unfold exists_. by rewrite He.
  - intros fs. reflexivity.
  - intros fs dest nm e. apply resolveDestination_fallback.
  - intros fs p e He. split_and!.
    + unfold cat. by rewrite He.
    + unfold ls, ls_in_order. by rewrite He.
    + unfold getNodeType. by rewrite He.
    + intros fuel. unfold size. by rewrite He.
    + intros content. unfold append, mbind, M_bind, read. by rewrite He.
    + intros fuel dest. unfold cp, mbind, M_bind, read. by rewrite He.
    + intros fuel dest. unfold mv.
      destruct (decide (p = "/")) as [->|_]; [done|].
      unfold mbind, M_bind, read. by rewrite He.
  - intros fs p e He. split_and!.
    + unfold touch, mbind, M_bind, read. by rewrite He.
    + intros content. unfold writeFile, mbind, M_bind, read. by rewrite He.
    + intros recursive. unfold rm.
      destruct (decide (p = "/")) as [->|_].
      * revert He. unfold _resolveParentAndName. simpl. by intros [= <-].
      * unfold mbind, M_bind, read. by rewrite He.
  - intros fs src dest s sn e Hs Hsn He. split.
    + intros fuel. unfold cp.
      unfold mbind at 1, M_bind at 1, read at 1. rewrite Hs.
      unfold mbind at 1, M_bind at 1, read at 1, deref at 1. rewrite Hsn.
      unfold mbind at 1, M_bind at 1, read at 1. by rewrite He.
    + intros fuel op Hsrc Hop. unfold mv.
      destruct (decide (src = "/")); [done|].
      unfold mbind at 1, M_bind at 1, read at 1. rewrite Hs.
      unfold mbind at 1, M_bind at 1, read at 1, deref at 1. rewrite Hsn.
      unfold mbind at 1, M_bind at 1, read at 1. rewrite Hop.
      unfold mbind at 1, M_bind at 1, read at 1. by rewrite He.
Qed.

Lemma exists_never_fails_and_other_errors_propagate_witness :
  (∃ b, exists_ "/home/../nowhere/" fs_notes = Ret b)
  ∧ exists_ "/notes/x" fs_notes = Ret false
  ∧ _resolveDestination "/copy" "notes" fs_notes = _resolveParentAndName "/copy" fs_notes
  ∧ cat "/nowhere" fs_notes = Throw NotFound
  ∧ touch "/notes/x" fs_notes = (Throw NotADirectory, fs_notes)
  ∧ (∀ fuel, cp fuel "/notes" "/nowhere/x" fs_notes = (Throw NotFound, fs_notes)).
Proof.
  destruct exists_never_fails_and_other_errors_propagate
    as (Htotal & _ & _ & Hfalse & _ & Hcatch & Hres & Hpar & Hdest).
  split_and!.
  - apply Htotal. apply wfb_sound. vm_compute. reflexivity.
  - apply (Hfalse fs_notes "/notes/x" NotADirectory). vm_compute. reflexivity.
  - apply (Hcatch fs_notes "/copy" "notes" NotFound). vm_compute. reflexivity.
  - apply (Hres fs_notes "/nowhere" NotFound). vm_compute. reflexivity.
  - apply (Hpar fs_notes "/notes/x" NotADirectory). vm_compute. reflexivity.
  - apply (Hdest fs_notes "/notes" "/nowhere/x" 3%positive
             (mkFSNode "notes" (Some 1%positive) (FileNode [xde; xad; xbe; xef]%byte)) NotFound);
      vm_compute; reflexivity.
Defined.

(** C9 as claimed does not hold: [exists] is not the only operation in which
    an exception is caught and kept from the caller.  Resolving the
    destination of [cp("/notes", "/copy")] throws [NotFound] inside
    [_resolveDestination]; [cp] returns normally, and so does [mv]. *)
Lemma cp_mv_suppress_resolution_failure :
  _resolvePath "/copy" fs_notes = Throw NotFound
  ∧ _resolveDestination_try "/copy" "notes" fs_notes = Throw NotFound
  ∧ result (cp 1 "/notes" "/copy") fs_notes = Ret tt
  ∧ result (mv 1 "/notes" "/copy") fs_notes = Ret tt.
Proof. split_and!; vm_compute; reflexivity. Qed.

(** ** [size] *)

Lemma size_t_add_sum acc x y :
  size_t_add (size_t_add acc x) y = size_t_add acc (x + y).
Proof.
  unfold size_t_add. rewrite Zplus_mod_idemp_l. f_equal. lia.
Qed.

Lemma foldlM_size_sum fuel fs (sz : ptr → Z) entries acc :
  (∀ k c, (k, c) ∈ entries → FSNode_size fuel fs c = Ret (sz c)) →
  foldlM (size_step fuel fs) acc entries
  = Ret (match entries with
         | [] => acc
         | _ => size_t_add acc (foldr (λ e s, sz e.2 + s)%Z 0%Z entries)
         end).
Proof.
  revert acc. induction entries as [|[k c] entries IH]; intros acc Hsz; simpl; [done|].
  rewrite (Hsz k c) by left. simpl.
  rewrite IH by (intros k' c' Hin; apply (Hsz k' c'); by right).
  destruct entries as [|e entries]; simpl.
  - by rewrite Z.add_0_r.
  - by rewrite size_t_add_sum.
Qed.

Lemma FSNode_size_dir fuel fs p nd children (sz : ptr → Z) :
  heap fs !! p = Some nd →
  data nd = DirectoryNode children →
  (∀ k c, children !! k = Some c → FSNode_size fuel fs c = Ret (sz c)) →
  FSNode_size (S fuel) fs p = Ret (children_total sz children mod 2 ^ 64)%Z.
Proof.
  intros Hp Hdata Hsz. simpl. unfold deref. rewrite Hp. simpl. rewrite Hdata.
  change (foldlM (size_step fuel fs) 0%Z (map_to_list children)
          = Ret (children_total sz children mod 2 ^ 64)%Z).
  rewrite (foldlM_size_sum fuel fs sz).
  - unfold children_total. destruct (map_to_list children); [done|]. done.
  - intros k c Hin. apply (Hsz k). by apply elem_of_map_to_list.
Qed.

Lemma foldlM_size_total fuel fs entries acc :
  (∀ k c, (k, c) ∈ entries → ∃ v, FSNode_size fuel fs c = Ret v) →
  ∃ v, foldlM (size_step fuel fs) acc entries = Ret v.
Proof.
  revert acc. induction entries as [|[k c] entries IH]; intros acc Hsz; simpl; [eauto|].
  destruct (Hsz k c) as [v ->]; [by left|]. simpl.
  apply IH. intros k' c' Hin. apply (Hsz k' c'). by right.
Qed.

Lemma foldlM_size_ext fuel fuel' fs entries acc :
  (∀ k c v, (k, c) ∈ entries → FSNode_size fuel fs c = Ret v → FSNode_size fuel' fs c = Ret v) →
  ∀ v, foldlM (size_step fuel fs) acc entries = Ret v →
       foldlM (size_step fuel' fs) acc entries = Ret v.
Proof.
  revert acc. induction entries as [|[k c] entries IH]; intros acc Hsz v; simpl; [done|].
  destruct (FSNode_size fuel fs c) as [s| | |] eqn:Hs; simpl; try done.
  rewrite (Hsz k c s) by (done || by left). simpl.
  apply IH. intros k' c' v' Hin. apply (Hsz k'). by right.
Qed.

(** A result of [FSNode_size] does not depend on the budget that was enough
    for it. *)
Lemma FSNode_size_mono fuel fs p v :
  FSNode_size fuel fs p = Ret v →
  ∀ fuel', fuel ≤ fuel' → FSNode_size fuel' fs p = Ret v.
Proof.
  revert p v. induction fuel as [|fuel IH]; intros p v Hv [|fuel'] Hle; simpl in *;
    try done; try lia.
  unfold deref in *. destruct (heap fs !! p) as [nd|]; simpl in *; [|done].
  destruct (data nd) as [content|children]; [done|].
  revert Hv. apply (foldlM_size_ext fuel fuel' fs).
  intros k c v' _ Hc. apply IH; [done|lia].
Qed.

(** On a well-formed store the recursion of [size] ends: the depth of a node
    plus the remaining height below it is bounded by the number of nodes. *)
Lemma FSNode_size_terminates fs :
  wf fs →
  ∀ fuel p ancestors,
    chain fs p ancestors →
    base.size (dom (heap fs)) < length (p :: ancestors) + fuel →
    ∃ v, FSNode_size fuel fs p = Ret v.
Proof.
  intros Hwf. induction fuel as [|fuel IH]; intros p ancestors Hch Hlen.
  - pose proof (chain_length fs Hwf p ancestors Hch). lia.
  - simpl. destruct (chain_in_heap fs Hwf p ancestors Hch) as [nd Hnd].
    unfold deref. rewrite Hnd. simpl.
    destruct (data nd) as [content|children] eqn:Hdata; [eauto|].
    apply foldlM_size_total. intros k c Hin%elem_of_map_to_list.
    apply (IH c (p :: ancestors)).
    + apply chain_child; [done|]. by eexists _, _, _.
    + simpl in *. lia.
Qed.

(** C10. [size] of a path that resolves to a file is the length of its
    content.  [size] of a path that resolves to a directory is the sum of the
    sizes of its children, in [size_t] arithmetic (modulo 2^64).  It is
    computed by recursion over the tree at every call: on a well-formed store
    any budget of at least the number of nodes gives a result, and a larger
    budget gives the same.  For a directory with a 10-byte and a 20-byte file
    the size is 30, and 10 once the 20-byte file is removed. *)
Theorem size_recursively_additive :
  (∀ fuel fs p node nd content,
     _resolvePath p fs = Ret node →
     heap fs !! node = Some nd →
     data nd = FileNode content →
     size (S fuel) p fs = Ret (Z.of_nat (length content)))
  ∧ (∀ fuel fs p node nd children (sz : ptr → Z),
       _resolvePath p fs = Ret node →
       heap fs !! node = Some nd →
       data nd = DirectoryNode children →
       (∀ k c, children !! k = Some c → FSNode_size fuel fs c = Ret (sz c)) →
       size (S fuel) p fs = Ret (children_total sz children mod 2 ^ 64)%Z)
  ∧ (∀ fs p node fuel,
       wf fs →
       _resolvePath p fs = Ret node →
       base.size (dom (heap fs)) ≤ fuel →
       ∃ v, size fuel p fs = Ret v)
  ∧ (∀ fs p fuel fuel' v,
       size fuel p fs = Ret v → fuel ≤ fuel' → size fuel' p fs = Ret v)
  ∧ size 3 "/dir" fs_sizes = Ret 30%Z
  ∧ result (rm "/dir/twenty" false) fs_sizes = Ret tt
  ∧ size 3 "/dir" (run (rm "/dir/twenty" false) fs_sizes) = Ret 10%Z.
Proof.
  split_and!.
  - intros fuel fs p node nd content Hres Hnd Hdata.
    unfold size. rewrite Hres. simpl. unfold deref. rewrite Hnd. simpl. by rewrite Hdata.
  - intros fuel fs p node nd children sz Hres Hnd Hdata Hsz.
    unfold size. rewrite Hres.
    change (FSNode_size (S fuel) fs node = Ret (children_total sz children mod 2 ^ 64)%Z).
    by apply (FSNode_size_dir fuel fs node nd children sz).
  - intros fs p node fuel Hwf Hres Hfuel.
    unfold size. rewrite Hres.
    change (∃ v, FSNode_size fuel fs node = Ret v).
    destruct (resolvePath_wf fs Hwf p) as [(node' & Hres' & [ancestors Hch])|[e He]];
      [|congruence].
    assert (node' = node) as -> by congruence.
    apply (FSNode_size_terminates fs Hwf fuel node ancestors Hch). simpl. lia.
  - intros fs p fuel fuel' v. unfold size.
    destruct (_resolvePath p fs) as [node| | |]; simpl; try done.
    intros Hv Hle. by apply (FSNode_size_mono fuel).
  - vm_compute. reflexivity.
  - vm_compute. reflexivity.
  - vm_compute. reflexivity.
Qed.

Lemma size_recursively_additive_witness :
  size 1 "/dir/ten" fs_sizes = Ret 10%Z
  ∧ size 2 "/dir" fs_sizes = Ret 30%Z
  ∧ (∃ v, size 4 "/" fs_sizes = Ret v)
  ∧ size 7 "/" fs_sizes = Ret 30%Z.
Proof.
  destruct size_recursively_additive as (Hfile & Hdir & Htotal & Hmono & _).
  split_and!.
  - apply (Hfile 0 fs_sizes "/dir/ten" 3%positive
             (mkFSNode "ten" (Some 2%positive) (FileNode (list_byte_of_string "0123456789")))
             (list_byte_of_string "0123456789")); vm_compute; reflexivity.
  - rewrite (Hdir 1 fs_sizes "/dir" 2%positive
               (mkFSNode "dir" (Some 1%positive)
                  (DirectoryNode {[ "ten" := 3%positive; "twenty" := 4%positive ]}))
               {[ "ten" := 3%positive; "twenty" := 4%positive ]}
               (λ c, if decide (c = 3%positive) then 10%Z else 20%Z)).
    + vm_compute. reflexivity.
    + vm_compute. reflexivity.
    + vm_compute. reflexivity.
    + reflexivity.
    + intros k c Hkc. apply elem_of_map_to_list in Hkc.
      vm_compute in Hkc.
      apply elem_of_cons in Hkc as [[= -> ->]|Hkc]; [vm_compute; reflexivity|].
      apply elem_of_cons in Hkc as [[= -> ->]|Hkc]; [vm_compute; reflexivity|].
      by apply elem_of_nil in Hkc.
  - apply (Htotal fs_sizes "/" 1%positive 4).
    + apply wfb_sound. vm_compute. reflexivity.
    + vm_compute. reflexivity.
    + vm_compute. lia.
  - apply (Hmono fs_sizes "/" 3 7 30%Z); [vm_compute; reflexivity|lia].
Defined.

(** * Part 3: further properties of the operations *)

(** ** Walks: continuing, and comparing two stores *)

(** A walk that ends in a directory can be continued from there. *)
Lemma resolve_loop_app fs prefix rest current d :
  resolve_loop fs prefix current = Ret d →
  is_dir fs d →
  resolve_loop fs (prefix ++ rest) current = resolve_loop fs rest d.
Proof.
  intros Hwalk (dn & dch & Hd & Hddata). revert current Hwalk.
  induction prefix as [|t prefix IH]; intros current; simpl.
  - by intros [= ->].
  - destruct (decide (t = "" ∨ t = ".")) as [_|_]; [apply IH|].
    destruct (decide (t = "..")) as [_|_].
    + destruct (decide (current ≠ root fs)) as [_|_]; [|apply IH].
      destruct (deref current fs) as [nd| | |]; simpl; try done.
      destruct (lock (parent nd) fs); [apply IH|done].
    + destruct (children_of current fs) as [children| | |]; simpl; try done.
      destruct (children !! t) as [child|]; [|done].
      unfold deref. destruct (heap fs !! child) as [cn|] eqn:Hcn; simpl; [|done].
      unfold getType. destruct (data cn) eqn:Hcdata; [|apply IH].
      destruct (decide (prefix ≠ [])); [done|]. intros [= ->].
      assert (cn = dn) as -> by congruence. congruence.
Qed.

(** One step of a walk from a directory, along a proper name. *)
Lemma resolve_loop_name fs d children nm :
  children_of d fs = Ret children →
  nm ≠ "" → nm ≠ "." → nm ≠ ".." →
  resolve_loop fs [nm] d
  = match children !! nm with
    | None => Throw NotFound
    | Some c => if heap fs !! c is Some _ then Ret c else Fault
    end.
Proof.
  intros Hch H0 H1 H2. simpl.
  destruct (decide (nm = "" ∨ nm = ".")) as [[?|?]|_]; [done|done|].
  destruct (decide (nm = "..")); [done|].
  rewrite Hch. simpl. destruct (children !! nm) as [c|]; [|done].
  unfold deref. destruct (heap fs !! c) as [cn|]; simpl; [|done].
  destruct (getType cn); [|done]. by destruct (decide (@nil string ≠ [])).
Qed.

Lemma extends_refl fs : extends fs fs.
Proof.
  split; [done|]. intros p nd Hp. exists nd. split_and!; try done.
  destruct (data nd); [done|]. eauto.
Qed.

Lemma extends_trans fs1 fs2 fs3 : extends fs1 fs2 → extends fs2 fs3 → extends fs1 fs3.
Proof.
  intros [Hr1 H1] [Hr2 H2]. split; [congruence|]. intros p nd Hp.
  destruct (H1 p nd Hp) as (nd2 & Hp2 & Hn2 & Hpar2 & Hd2).
  destruct (H2 p nd2 Hp2) as (nd3 & Hp3 & Hn3 & Hpar3 & Hd3).
  exists nd3. split_and!; try congruence.
  destruct (data nd) as [content|children].
  - rewrite Hd2 in Hd3. congruence.
  - destruct Hd2 as (children2 & Hdata2 & Hsub2). rewrite Hdata2 in Hd3.
    destruct Hd3 as (children3 & Hdata3 & Hsub3). exists children3.
    split; [done|]. by etrans.
Qed.

(** What a walk found, it still finds once the store has grown. *)
Lemma resolve_loop_extends fs fs' components current node :
  extends fs fs' →
  resolve_loop fs components current = Ret node →
  resolve_loop fs' components current = Ret node.
Proof.
  intros [Hroot Hext]. revert current.
  induction components as [|t rest IH]; intros current; simpl; [done|].
  destruct (decide (t = "" ∨ t = ".")) as [_|_]; [apply IH|].
  destruct (decide (t = "..")) as [_|_].
  - rewrite Hroot. destruct (decide (current ≠ root fs)) as [_|_]; [|apply IH].
    unfold deref. destruct (heap fs !! current) as [nd|] eqn:Hnd; simpl; [|done].
    destruct (Hext current nd Hnd) as (nd' & -> & _ & Hpar & _). simpl. rewrite Hpar.
    unfold lock. destruct (parent nd) as [q|]; [|done].
    destruct (heap fs !! q) as [qn|] eqn:Hq; [|done].
    destruct (Hext q qn Hq) as (qn' & -> & _). apply IH.
  - unfold children_of. destruct (heap fs !! current) as [nd|] eqn:Hnd; simpl; [|done].
    destruct (Hext current nd Hnd) as (nd' & -> & _ & _ & Hdata).
    destruct (data nd) as [content|children]; simpl; [done|].
    destruct Hdata as (children' & -> & Hsub). simpl.
    destruct (children !! t) as [child|] eqn:Hchild; [|done].
    rewrite (lookup_weaken _ _ _ _ Hchild Hsub).
    unfold deref. destruct (heap fs !! child) as [cn|] eqn:Hcn; simpl; [|done].
    destruct (Hext child cn Hcn) as (cn' & -> & _ & _ & Hcdata). simpl.
    unfold getType in *. destruct (data cn) as [content|grandchildren].
    + by rewrite Hcdata.
    + destruct Hcdata as (grandchildren' & -> & _). apply IH.
Qed.

Lemma resolvePath_extends fs fs' path node :
  extends fs fs' → _resolvePath path fs = Ret node → _resolvePath path fs' = Ret node.
Proof.
  intros Hext. unfold _resolvePath.
  destruct (decide (path = "")); [done|].
  destruct (decide (path = "/")).
  - destruct Hext as [-> _]. done.
  - destruct Hext as [Hroot Hext]. rewrite Hroot. by apply resolve_loop_extends.
Qed.

Lemma same_shape_refl fs : same_shape fs fs.
Proof.
  split; [done|]. intros p. destruct (heap fs !! p) as [nd|]; [|done].
  split_and!; try done. by destruct (data nd).
Qed.

(** Path resolution does not look at the content of files. *)
Lemma resolve_loop_same_shape fs fs' components current :
  same_shape fs fs' →
  resolve_loop fs' components current = resolve_loop fs components current.
Proof.
  intros [Hroot Hsame]. revert current.
  induction components as [|t rest IH]; intros current; simpl; [done|].
  destruct (decide (t = "" ∨ t = ".")) as [_|_]; [apply IH|].
  destruct (decide (t = "..")) as [_|_].
  - rewrite Hroot. destruct (decide (current ≠ root fs)) as [_|_]; [|apply IH].
    unfold deref. pose proof (Hsame current) as Hc.
    destruct (heap fs !! current) as [nd|], (heap fs' !! current) as [nd'|]; simpl; try done.
    destruct Hc as (_ & -> & _). unfold lock. destruct (parent nd) as [q|]; [|done].
    pose proof (Hsame q) as Hq.
    destruct (heap fs !! q), (heap fs' !! q); done || apply IH.
  - unfold children_of. pose proof (Hsame current) as Hc.
    destruct (heap fs !! current) as [nd|], (heap fs' !! current) as [nd'|]; simpl; try done.
    destruct Hc as (_ & _ & Hdata).
    destruct (data nd) as [content|children], (data nd') as [content'|children'];
      simpl; try done.
    subst children'. destruct (children !! t) as [child|]; [|done].
    unfold deref. pose proof (Hsame child) as Hch.
    destruct (heap fs !! child) as [cn|], (heap fs' !! child) as [cn'|]; simpl; try done.
    destruct Hch as (_ & _ & Hcdata). unfold getType.
    destruct (data cn), (data cn'); done || apply IH.
Qed.

Lemma resolvePath_same_shape fs fs' path :
  same_shape fs fs' → _resolvePath path fs' = _resolvePath path fs.
Proof.
  intros Hsame. unfold _resolvePath.
  destruct (decide (path = "")); [done|].
  destruct Hsame as [Hroot Hsame]. rewrite Hroot.
  destruct (decide (path = "/")); [done|].
  by apply resolve_loop_same_shape.
Qed.

(** ** Paths as [_resolvePath] and [_resolveParentAndName] read them *)

Lemma find_last_of_Some_nonempty s i : find_last_of s "/" = Some i → s ≠ "".
Proof. by destruct s. Qed.

Lemma substring_0_nonempty s i : s ≠ "" → i ≠ 0 → substring 0 i s ≠ "".
Proof. destruct s; [done|]. by destruct i. Qed.

Lemma resolve_loop_InvalidPath fs components current :
  resolve_loop fs components current ≠ Throw InvalidPath.
Proof.
  intros H. by destruct (resolve_loop_throws fs components current InvalidPath H).
Qed.

Lemma resolvePath_InvalidPath fs path : _resolvePath path fs = Throw InvalidPath ↔ path = "".
Proof.
  unfold _resolvePath. destruct (decide (path = "")) as [->|Hne]; [done|].
  destruct (decide (path = "/")); [done|]. split; [|done].
  intros H. by apply resolve_loop_InvalidPath in H.
Qed.

Lemma resolvePath_leading_slash fs p :
  p ≠ "" → _resolvePath (String "/" p) fs = _resolvePath p fs.
Proof.
  intros Hp. unfold _resolvePath.
  destruct (decide (String "/" p = "")); [done|].
  destruct (decide (String "/" p = "/")) as [[=]|_]; [done|].
  destruct (decide (p = "")); [done|].
  destruct (decide (p = "/")) as [->|Hp'].
  - simpl. by destruct (decide (root fs ≠ root fs)).
  - destruct p as [|c p]; [done|]. cbn [skip_slash].
    destruct (decide ("/"%char = "/"%char)); [|done].
    destruct (decide (c = "/"%char)) as [->|Hc]; [|done].
    cbn [getlines]. destruct (decide ("/"%char = "/"%char)); [|done]. done.
Qed.

Lemma resolveParentAndName_leading_slash fs p i :
  find_last_of p "/" = Some i →
  _resolveParentAndName (String "/" p) fs = _resolveParentAndName p fs.
Proof.
  intros Hi. pose proof (find_last_of_Some_nonempty p i Hi) as Hp.
  unfold _resolveParentAndName.
  destruct (decide (String "/" p = "" ∨ String "/" p = "/")) as [[?|[=]]|_]; [done|done|].
  cbn [find_last_of]. rewrite Hi.
  destruct (decide (S i = 0)); [done|].
  assert (substr_from (S i + 1) (String "/" p) = substr_from (i + 1) p) as ->.
  { unfold substr_from. by rewrite !Nat.add_1_r. }
  assert (substring 0 (S i) (String "/" p) = String "/" (substring 0 i p)) as -> by done.
  destruct (decide (p = "" ∨ p = "/")) as [[?| ->]|_]; [done| |].
  - injection Hi as <-. done.
  - destruct (decide (substr_from (i + 1) p = "")); [done|].
    destruct (decide (i = 0)) as [->|Hi0].
    + by rewrite substring_0_0.
    + by rewrite resolvePath_leading_slash by by apply substring_0_nonempty.
Qed.

(** The paths the operations that create or remove a child turn down before
    they look at the tree: without a slash (the empty path among them), or
    with nothing after the last slash. *)
Lemma substr_from_end_empty p i :
  find_last_of p "/" = Some i →
  substr_from (i + 1) p = "" ↔ ∃ q, p = q ++ "/".
Proof.
  intros Hi. destruct (find_last_of_split p i Hi) as [Hsplit Hns]. split.
  - intros Hempty. rewrite Hempty in Hsplit. eauto.
  - intros [q ->]. clear Hsplit Hns. revert i Hi.
    induction q as [|c q IH]; intros i; simpl.
    + by intros [= <-].
    + destruct (find_last_of (q ++ "/") "/") as [j|] eqn:Hj.
      * intros [= <-]. specialize (IH j eq_refl). unfold substr_from in *. simpl.
        by rewrite Nat.add_1_r in *.
      * exfalso. clear IH. induction q as [|a q IHq]; simpl in Hj; [done|].
        destruct (find_last_of (q ++ "/") "/"); [done|]. by apply IHq.
Qed.

Lemma resolveParentAndName_InvalidPath fs path :
  _resolveParentAndName path fs = Throw InvalidPath
  ↔ no_slash path ∨ ∃ q, path = q ++ "/".
Proof.
  unfold _resolveParentAndName, no_slash.
  destruct (decide (path = "" ∨ path = "/")) as [[->| ->]|Hpath].
  - split; [by left|done].
  - split; [right; by exists ""|done].
  - destruct (find_last_of path "/") as [i|] eqn:Hi; [|split; [by left|done]].
    pose proof (substr_from_end_empty path i Hi) as Hend.
    destruct (decide (substr_from (i + 1) path = "")) as [Hnm|Hnm].
    + split; [|done]. intros _. right. by apply Hend.
    + split.
      * destruct (_resolvePath _ fs) as [parentNode|e| |] eqn:Hres; simpl; try done.
        -- unfold deref. destruct (heap fs !! parentNode) as [nd|]; simpl; [|done].
           by destruct (decide (getType nd ≠ Directory)).
        -- intros [= ->]. apply resolvePath_InvalidPath in Hres.
           destruct (decide (i = 0)); [done|].
           exfalso. revert Hres. apply substring_0_nonempty; [|done].
           by eapply find_last_of_Some_nonempty.
      * intros [?|Hq]; [done|]. by apply Hend in Hq.
Qed.

Lemma mkdir_leading_slash fs p : mkdir (String "/" p) fs = mkdir p fs.
Proof.
  unfold mkdir.
  destruct (decide (String "/" p = "/")) as [[= ->]|Hne]; [done|].
  destruct (decide (p = "/")) as [->|Hp]; [done|].
  destruct p as [|c p]; [done|]. cbn [skip_slash].
  destruct (decide ("/"%char = "/"%char)); [|done].
  destruct (decide (c = "/"%char)) as [->|Hc]; [|done].
  cbn [getlines]. destruct (decide ("/"%char = "/"%char)); [|done]. done.
Qed.

(** X1.  The slash at the head of a path is optional wherever a path is
    resolved from the root: [if (ss.peek() == '/') ss.ignore();] drops one
    slash if there is one, and the walk starts at the root either way.  So
    [mkdir], and for a non-empty path every operation that resolves it with
    [_resolvePath], treat [p] as they treat ["/" + p].  The operations that
    split the path at its last slash do so as soon as [p] has a slash at all;
    a path without any slash they turn down, although ["/" + p] names a
    child of the root. *)
Theorem leading_slash_is_optional :
  (∀ fs p, mkdir (String "/" p) fs = mkdir p fs)
  ∧ (∀ fs p,
       p ≠ "" →
       _resolvePath (String "/" p) fs = _resolvePath p fs
       ∧ exists_ (String "/" p) fs = exists_ p fs
       ∧ getNodeType (String "/" p) fs = getNodeType p fs
       ∧ cat (String "/" p) fs = cat p fs
       ∧ ls (String "/" p) fs = ls p fs
       ∧ (∀ fuel, size fuel (String "/" p) fs = size fuel p fs)
       ∧ (∀ content, append (String "/" p) content fs = append p content fs))
  ∧ (∀ fs p,
       ¬ no_slash p →
       _resolveParentAndName (String "/" p) fs = _resolveParentAndName p fs
       ∧ touch (String "/" p) fs = touch p fs
       ∧ (∀ content, writeFile (String "/" p) content fs = writeFile p content fs)
       ∧ (∀ recursive, rm (String "/" p) recursive fs = rm p recursive fs))
  ∧ (∀ fs p,
       no_slash p →
       _resolveParentAndName p fs = Throw InvalidPath
       ∧ touch p fs = (Throw InvalidPath, fs)
       ∧ (∀ content, writeFile p content fs = (Throw InvalidPath, fs))
       ∧ (∀ recursive, rm p recursive fs = (Throw InvalidPath, fs))).
Proof.
  split_and!.
  - apply mkdir_leading_slash.
  - intros fs p Hp. pose proof (resolvePath_leading_slash fs p Hp) as Heq.
    split_and!; [done|..].
    + unfold exists_. by rewrite Heq.
    + unfold getNodeType. by rewrite Heq.
    + unfold cat. by rewrite Heq.
    + unfold ls, ls_in_order. by rewrite Heq.
    + intros fuel. unfold size. by rewrite Heq.
    + intros content. unfold append, mbind, M_bind, read. by rewrite Heq.
  - intros fs p Hp. unfold no_slash in Hp.
    destruct (find_last_of p "/") as [i|] eqn:Hi; [|done].
    pose proof (resolveParentAndName_leading_slash fs p i Hi) as Heq.
    split_and!; [done|..].
    + unfold touch, mbind, M_bind, read. by rewrite Heq.
    + intros content. unfold writeFile, mbind, M_bind, read. by rewrite Heq.
    + intros recursive. unfold rm.
      destruct (decide (String "/" p = "/")) as [[= ->]|_]; [done|].
      destruct (decide (p = "/")) as [->|_].
      * vm_compute. reflexivity.
      * unfold mbind, M_bind, read. by rewrite Heq.
  - intros fs p Hp.
    assert (_resolveParentAndName p fs = Throw InvalidPath) as Heq.
    { apply resolveParentAndName_InvalidPath. by left. }
    split_and!; [done|..].
    + unfold touch, mbind, M_bind, read. by rewrite Heq.
    + intros content. unfold writeFile, mbind, M_bind, read. by rewrite Heq.
    + intros recursive. unfold rm. destruct (decide (p = "/")); [done|].
      unfold mbind, M_bind, read. by rewrite Heq.
Qed.

Lemma leading_slash_is_optional_witness :
  cat "notes" fs_notes = Ret [xde; xad; xbe; xef]%byte
  ∧ touch "home/x" fs_notes = touch "/home/x" fs_notes
  ∧ touch "x" fs_notes = (Throw InvalidPath, fs_notes).
Proof.
  destruct leading_slash_is_optional as (_ & Hres & Hsplit & Hnone).
  split_and!.
  - destruct (Hres fs_notes "notes") as (_ & _ & _ & <- & _); [done|].
    vm_compute. reflexivity.
  - symmetry. apply (Hsplit fs_notes "home/x"). vm_compute. done.
  - apply (Hnone fs_notes "x"). vm_compute. reflexivity.
Defined.

Lemma resolveParentAndName_children path fs d nm :
  _resolveParentAndName path fs = Ret (d, nm) →
  ∃ dn children,
    heap fs !! d = Some dn ∧ data dn = DirectoryNode children
    ∧ children_of d fs = Ret children.
Proof.
  intros (_ & dn & children & Hd & Hdata & _)%resolveParentAndName_Ret.
  exists dn, children. split_and!; [done|done|]. unfold children_of. by rewrite Hd, Hdata.
Qed.

(** ** What each operation can throw *)

(** An exception of [touch], [writeFile] or [rm] is the one of the split of
    the path, or the operation's own. *)
Lemma touch_throws path fs e fs' :
  touch path fs = (Throw e, fs') →
  _resolveParentAndName path fs = Throw e ∨ e = NotAFile.
Proof.
  unfold touch. unfold mbind at 1, M_bind at 1, read at 1.
  destruct (_resolveParentAndName path fs) as [[d nm]|e0| |]; [|intros [= <- _]; by left|done..].
  unfold mbind at 1, M_bind at 1, read at 1.
  destruct (children_of d fs) as [children|e0| |] eqn:Hch; [|exfalso|done..].
  - destruct (children !! nm) as [c|].
    + unfold mbind, M_bind, read. destruct (deref c fs) as [cn|e0| |] eqn:Hc; [|exfalso|done..].
      * destruct (decide (getType cn ≠ File)); [intros [= <- _]; by right|done].
      * by apply (silent_read_deref c fs e0 fs); unfold read; rewrite Hc.
    + intros H. exfalso. revert H.
      apply silent_bind; [apply silent_make_shared|]. intros q. apply silent_store_child.
  - by apply (silent_read_children_of d fs e0 fs); unfold read; rewrite Hch.
Qed.

Lemma writeFile_throws path content fs e fs' :
  writeFile path content fs = (Throw e, fs') →
  _resolveParentAndName path fs = Throw e ∨ e = IsADirectory.
Proof.
  unfold writeFile. unfold mbind at 1, M_bind at 1, read at 1.
  destruct (_resolveParentAndName path fs) as [[d nm]|e0| |]; [|intros [= <- _]; by left|done..].
  unfold mbind at 1, M_bind at 1, read at 1.
  destruct (children_of d fs) as [children|e0| |] eqn:Hch; [|exfalso|done..].
  - unfold mbind at 1, M_bind at 1.
    assert (∀ occupied fs1,
              (if occupied : bool then throw IsADirectory
               else file ← make_shared (mkFSNode nm (Some d) (FileNode content));
                    store_child d nm file) fs1 = (Throw e, fs') →
              e = IsADirectory) as Hk.
    { intros [|] fs1; [unfold throw; by intros [= <- _]|]. intros H. exfalso. revert H.
      apply silent_bind; [apply silent_make_shared|]. intros q. apply silent_store_child. }
    destruct (children !! nm) as [c|].
    + unfold mbind at 1, M_bind at 1, read at 1.
      destruct (deref c fs) as [cn|e0| |] eqn:Hc; [|exfalso|done..].
      * intros H. right. exact (Hk (bool_decide (getType cn = Directory)) fs H).
      * by apply (silent_read_deref c fs e0 fs); unfold read; rewrite Hc.
    + intros H. right. exact (Hk false fs H).
  - by apply (silent_read_children_of d fs e0 fs); unfold read; rewrite Hch.
Qed.

Lemma rm_throws path recursive fs e fs' :
  rm path recursive fs = (Throw e, fs') →
  _resolveParentAndName path fs = Throw e ∨ e = NotFound ∨ e = DirectoryNotEmpty.
Proof.
  unfold rm. destruct (decide (path = "/")) as [->|_]; [intros [= <- _]; by left|].
  unfold mbind at 1, M_bind at 1, read at 1.
  destruct (_resolveParentAndName path fs) as [[d nm]|e0| |]; [|intros [= <- _]; by left|done..].
  unfold mbind at 1, M_bind at 1, read at 1.
  destruct (children_of d fs) as [children|e0| |] eqn:Hch; [|exfalso|done..].
  - destruct (children !! nm) as [c|]; [|intros [= <- _]; auto].
    unfold mbind, M_bind, read. destruct (deref c fs) as [cn|e0| |] eqn:Hc; [|exfalso|done..].
    + destruct (data cn) as [content|grandchildren].
      * intros H. by apply silent_erase_child in H.
      * destruct (decide (recursive = false ∧ grandchildren ≠ ∅)); [intros [= <- _]; auto|].
        intros H. by apply silent_erase_child in H.
    + by apply (silent_read_deref c fs e0 fs); unfold read; rewrite Hc.
  - by apply (silent_read_children_of d fs e0 fs); unfold read; rewrite Hch.
Qed.

(** X2.  [touch], [writeFile] and [rm] answer [InvalidPath] for exactly the
    paths that have no slash (the empty path is one) or have nothing after
    their last slash ("/" is one), whatever the tree holds. *)
Theorem child_path_is_invalid_iff fs path :
  (_resolveParentAndName path fs = Throw InvalidPath
   ↔ no_slash path ∨ ∃ q, path = q ++ "/")
  ∧ (result (touch path) fs = Throw InvalidPath
     ↔ no_slash path ∨ ∃ q, path = q ++ "/")
  ∧ (∀ content,
       result (writeFile path content) fs = Throw InvalidPath
       ↔ no_slash path ∨ ∃ q, path = q ++ "/")
  ∧ (∀ recursive,
       result (rm path recursive) fs = Throw InvalidPath
       ↔ no_slash path ∨ ∃ q, path = q ++ "/").
Proof.
  pose proof (resolveParentAndName_InvalidPath fs path) as Hiff.
  split_and!; [done|..].
  - rewrite <- Hiff. unfold result. split.
    + destruct (touch path fs) as [o fs'] eqn:Hrun. simpl. intros ->.
      by destruct (touch_throws _ _ _ _ Hrun).
    + intros H. unfold touch, mbind, M_bind, read. by rewrite H.
  - intros content. rewrite <- Hiff. unfold result. split.
    + destruct (writeFile path content fs) as [o fs'] eqn:Hrun. simpl. intros ->.
      by destruct (writeFile_throws _ _ _ _ _ Hrun).
    + intros H. unfold writeFile, mbind, M_bind, read. by rewrite H.
  - intros recursive. rewrite <- Hiff. unfold result. split.
    + destruct (rm path recursive fs) as [o fs'] eqn:Hrun. simpl. intros ->.
      by destruct (rm_throws _ _ _ _ _ Hrun) as [?|[?|?]].
    + intros H. unfold rm. destruct (decide (path = "/")); [done|].
      unfold mbind, M_bind, read. by rewrite H.
Qed.

(** ** How the two resolvers, and a path and its extensions, relate *)

Lemma path_components_after path q :
  path ≠ "" →
  getlines (skip_slash (path ++ String "/" q)) = (getlines (skip_slash path) ++ getlines q)%list
  ∨ getlines (skip_slash (path ++ String "/" q))
    = (getlines (skip_slash path) ++ "" :: getlines q)%list.
Proof.
  intros Hp.
  assert (skip_slash (path ++ String "/" q) = skip_slash path ++ String "/" q) as ->.
  { destruct path as [|c path]; [done|]. simpl. by destruct (decide (c = "/"%char)). }
  rewrite getlines_app_slash.
  destruct (getlines_slash_end (skip_slash path)) as [-> | ->]; [by left|right].
  by rewrite <- app_assoc.
Qed.

Lemma resolvePath_walk path fs :
  path ≠ "" → _resolvePath path fs = resolve_loop fs (getlines (skip_slash path)) (root fs).
Proof.
  intros Hp. unfold _resolvePath. destruct (decide (path = "")); [done|].
  by destruct (decide (path = "/")) as [->|].
Qed.

(** A walk over a well-formed store ends in a directory, or in a file that
    its last component names in the directory the walk had reached. *)
Lemma resolve_loop_inv fs components current node :
  wf fs → reachable fs current → is_dir fs current →
  resolve_loop fs components current = Ret node →
  reachable fs node
  ∧ (is_dir fs node
     ∨ ∃ prefix k d dn children fn content,
         components = (prefix ++ [k])%list
         ∧ resolve_loop fs prefix current = Ret d
         ∧ heap fs !! d = Some dn ∧ data dn = DirectoryNode children
         ∧ children !! k = Some node
         ∧ (k ≠ "" ∧ k ≠ "." ∧ k ≠ "..")
         ∧ heap fs !! node = Some fn ∧ data fn = FileNode content).
Proof.
  intros Hwf. revert current.
  induction components as [|t rest IH]; intros current Hreach Hdir; simpl.
  - intros [= <-]. auto.
  - assert (∀ current',
              reachable fs current' → is_dir fs current' →
              (∀ l, resolve_loop fs (t :: l) current = resolve_loop fs l current') →
              resolve_loop fs rest current' = Ret node →
              reachable fs node
              ∧ (is_dir fs node
                 ∨ ∃ prefix k d dn children fn content,
                     t :: rest = (prefix ++ [k])%list
                     ∧ resolve_loop fs prefix current = Ret d
                     ∧ heap fs !! d = Some dn ∧ data dn = DirectoryNode children
                     ∧ children !! k = Some node
                     ∧ (k ≠ "" ∧ k ≠ "." ∧ k ≠ "..")
                     ∧ heap fs !! node = Some fn ∧ data fn = FileNode content)) as Hstep.
    { intros current' Hreach' Hdir' Hsame Hwalk.
      destruct (IH current' Hreach' Hdir' Hwalk) as [Hrn [Hnd|Hfile]]; [by auto|].
      split; [done|right].
      destruct Hfile as (prefix & k & d & dn & children & fn & content & -> & Hpre & Hrest).
      exists (t :: prefix), k, d, dn, children, fn, content.
      split; [done|]. split; [|done]. by rewrite Hsame. }
    destruct (decide (t = "" ∨ t = ".")) as [Ht|Ht].
    { apply Hstep; [done|done|]. intros l. simpl.
      by destruct (decide (t = "" ∨ t = ".")). }
    destruct (decide (t = "..")) as [Ht2|Ht2].
    { destruct (decide (current ≠ root fs)) as [Hnr|Hr].
      - destruct Hreach as [ancestors Hch].
        destruct Hch as [|d ancestors c Hd Hedge]; [done|].
        destruct (child_edge_inv fs Hwf d c Hedge) as (Hddir & cn & Hcn & Hp).
        unfold deref. rewrite Hcn. simpl. rewrite Hp. unfold lock.
        destruct Hddir as (nd & children & Hnd & Hdata). rewrite Hnd.
        apply Hstep; [by eexists|by eexists _, _|]. intros l. simpl.
        destruct (decide (t = "" ∨ t = ".")); [done|].
        destruct (decide (t = "..")); [|done].
        destruct (decide (c ≠ root fs)); [|done].
        unfold deref. rewrite Hcn. simpl. rewrite Hp. unfold lock. by rewrite Hnd.
      - apply Hstep; [done|done|]. intros l. simpl.
        destruct (decide (t = "" ∨ t = ".")); [done|].
        destruct (decide (t = "..")); [|done].
        by destruct (decide (current ≠ root fs)). }
    destruct Hdir as (nd & children & Hnd & Hdata).
    unfold children_of. rewrite Hnd, Hdata. simpl.
    destruct (children !! t) as [child|] eqn:Hchild; [|done].
    assert (child_edge fs current child) as Hedge by (by eexists _, _, _).
    destruct (child_edge_inv fs Hwf current child Hedge) as (_ & cn & Hcn & Hp).
    assert (reachable fs child) as Hrc.
    { destruct Hreach as [ancestors Hch]. eexists. by eapply chain_child. }
    unfold deref. rewrite Hcn. simpl. unfold getType.
    destruct (data cn) as [content|grandchildren] eqn:Hcd.
    + destruct (decide (rest ≠ [])) as [|Hrest]; [done|]. intros [= <-].
      split; [done|right].
      assert (rest = []) as -> by (by destruct rest; [|destruct Hrest]).
      exists [], t, current, nd, children, cn, content.
      split_and!; try done; tauto.
    + apply Hstep; [done|by eexists _, _|]. intros l. simpl.
      destruct (decide (t = "" ∨ t = ".")); [done|].
      destruct (decide (t = "..")); [done|].
      unfold children_of. rewrite Hnd, Hdata. simpl. rewrite Hchild.
      unfold deref. rewrite Hcn. simpl. unfold getType. by rewrite Hcd.
Qed.

Lemma resolvePath_inv fs path node :
  wf fs →
  _resolvePath path fs = Ret node →
  path ≠ ""
  ∧ reachable fs node
  ∧ (is_dir fs node
     ∨ ∃ prefix k d dn children fn content,
         getlines (skip_slash path) = (prefix ++ [k])%list
         ∧ resolve_loop fs prefix (root fs) = Ret d
         ∧ heap fs !! d = Some dn ∧ data dn = DirectoryNode children
         ∧ children !! k = Some node
         ∧ (k ≠ "" ∧ k ≠ "." ∧ k ≠ "..")
         ∧ heap fs !! node = Some fn ∧ data fn = FileNode content).
Proof.
  intros Hwf Hres.
  assert (path ≠ "") as Hp by (by intros ->).
  split; [done|]. rewrite resolvePath_walk in Hres by done.
  apply (resolve_loop_inv fs _ (root fs)); [done| |by apply wf_root_dir|done].
  eexists. constructor.
Qed.

(** Nothing resolves below a file. *)
Lemma resolve_loop_below_file fs components rest current node fn content :
  wf fs → reachable fs current → is_dir fs current →
  resolve_loop fs components current = Ret node →
  heap fs !! node = Some fn → data fn = FileNode content →
  rest ≠ [] →
  resolve_loop fs (components ++ rest) current = Throw NotADirectory.
Proof.
  intros Hwf Hreach Hdir Hwalk Hnode Hdata Hrest.
  destruct (resolve_loop_inv fs components current node Hwf Hreach Hdir Hwalk)
    as [_ [(nd & ch & Hnd & Hnddata)|Hfile]]; [congruence|].
  destruct Hfile as (prefix & k & d & dn & children & fn' & content' & -> & Hpre & Hd & Hddata
                     & Hk & (Hk0 & Hk1 & Hk2) & Hfn & Hfdata).
  rewrite <- app_assoc.
  rewrite (resolve_loop_app fs prefix _ current d Hpre) by (by eexists _, _).
  simpl. destruct (decide (k = "" ∨ k = ".")) as [[?|?]|_]; [done|done|].
  destruct (decide (k = "..")); [done|].
  unfold children_of. rewrite Hd, Hddata. simpl. rewrite Hk.
  unfold deref. rewrite Hfn. simpl. unfold getType. rewrite Hfdata.
  by destruct (decide (rest ≠ [])).
Qed.

(** What [_resolvePath] finds for a path that [_resolveParentAndName] has
    split. *)
Lemma resolvePath_child fs path d nm children :
  _resolveParentAndName path fs = Ret (d, nm) →
  nm ≠ "." → nm ≠ ".." →
  children_of d fs = Ret children →
  _resolvePath path fs
  = match children !! nm with
    | None => Throw NotFound
    | Some c => if heap fs !! c is Some _ then Ret c else Fault
    end.
Proof.
  intros Hrpn Hn1 Hn2 Hch.
  destruct (resolveParentAndName_Ret path fs d nm Hrpn)
    as (prefix & dn & children' & Hd & Hdata & Hn0 & Hp1 & Hp2 & Hwalk & Htokens).
  rewrite resolvePath_walk by done. rewrite Htokens.
  rewrite (resolve_loop_app fs prefix _ (root fs) d Hwalk) by (by eexists _, _).
  by apply resolve_loop_name.
Qed.

(** X3.  The two resolvers agree.  When [_resolveParentAndName] splits a
    path into the directory [d] and a final component [nm] other than "."
    and "..", [_resolvePath] finds for the same path what [d] holds under
    [nm], and fails with [NotFound] when [d] holds nothing there: the place
    where [touch], [writeFile] and [rm] look is the place [exists], [cat] and
    the others look. *)
Theorem resolvers_agree fs path d nm children :
  _resolveParentAndName path fs = Ret (d, nm) →
  nm ≠ "." → nm ≠ ".." →
  children_of d fs = Ret children →
  _resolvePath path fs
  = match children !! nm with
    | None => Throw NotFound
    | Some c => if heap fs !! c is Some _ then Ret c else Fault
    end
  ∧ (wf fs → exists_ path fs = Ret (bool_decide (is_Some (children !! nm)))).
Proof.
  intros Hrpn Hn1 Hn2 Hch.
  pose proof (resolvePath_child fs path d nm children Hrpn Hn1 Hn2 Hch) as Heq.
  split; [done|]. intros Hwf. unfold exists_. rewrite Heq.
  destruct (children !! nm) as [c|] eqn:Hc; [|done].
  destruct (resolveParentAndName_children path fs d nm Hrpn)
    as (dn & children' & Hd & Hdata & Hch').
  assert (children' = children) as -> by congruence.
  destruct (wf_child fs Hwf d dn children nm c Hd Hdata Hc) as (cn & -> & _).
  rewrite bool_decide_eq_true_2; [done|by eexists].
Qed.

Lemma resolvers_agree_witness :
  _resolvePath "/home/x" fs_notes = Throw NotFound
  ∧ exists_ "/notes" fs_notes = Ret true.
Proof.
  split.
  - destruct (resolvers_agree fs_notes "/home/x" 2%positive "x" ∅) as [H _];
      [vm_compute; reflexivity|done|done|vm_compute; reflexivity|exact H].
  - destruct (resolvers_agree fs_notes "/notes" 1%positive "notes"
                {[ "home" := 2%positive; "notes" := 3%positive ]}) as [_ H];
      [vm_compute; reflexivity|done|done|vm_compute; reflexivity|].
    rewrite H; [vm_compute; reflexivity|]. apply wfb_sound. vm_compute. reflexivity.
Defined.

(** X4.  What lies after a path that resolves, on a well-formed store.
    After a directory, a slash or a "." component stays there and a ".."
    component goes to its parent, and stays at the root when the directory is
    the root.  After a file nothing resolves: every longer path fails with
    [NotADirectory], "/." and "/.." included. *)
Theorem resolvePath_continued fs p node nd :
  wf fs →
  _resolvePath p fs = Ret node →
  heap fs !! node = Some nd →
  match data nd with
  | DirectoryNode _ =>
      _resolvePath (p ++ "/") fs = Ret node
      ∧ _resolvePath (p ++ "/.") fs = Ret node
      ∧ _resolvePath (p ++ "/..") fs = Ret (default node (parent nd))
  | FileNode _ =>
      ∀ x, x ≠ "" → _resolvePath (p ++ String "/" x) fs = Throw NotADirectory
  end.
Proof.
  intros Hwf Hres Hnode.
  destruct (resolvePath_inv fs p node Hwf Hres) as (Hp & Hreach & _).
  assert (∀ x, p ++ String "/" x ≠ "") as Hne by (intros x; by destruct p).
  rewrite resolvePath_walk in Hres by done.
  assert (reachable fs (root fs)) as Hrr by (eexists; constructor).
  pose proof (wf_root_dir fs Hwf) as Hrd.
  destruct (data nd) as [content|children] eqn:Hdata.
  - intros x Hx. rewrite resolvePath_walk by done.
    pose proof (getlines_nonempty x Hx) as Hxs.
    destruct (path_components_after p x Hp) as [-> | ->];
      by eapply resolve_loop_below_file.
  - assert (is_dir fs node) as Hdir by (by eexists _, _).
    assert (resolve_loop fs [".."] node = Ret (default node (parent nd))) as Hup.
    { simpl. destruct (decide (node ≠ root fs)) as [Hnr|Hr].
      - destruct Hreach as [ancestors Hch].
        destruct Hch as [|d ancestors c Hd Hedge]; [done|].
        destruct (child_edge_inv fs Hwf d c Hedge) as (Hddir & cn & Hcn & Hpar).
        assert (cn = nd) as -> by congruence.
        unfold deref. rewrite Hnode. simpl. rewrite Hpar. unfold lock.
        by destruct Hddir as (dn & dch & -> & _).
      - assert (node = root fs) as -> by (by destruct (decide (node = root fs)); [|destruct Hr]).
        by rewrite (wf_root_parent fs Hwf nd Hnode). }
    assert (∀ rest, resolve_loop fs (getlines (skip_slash p) ++ rest) (root fs)
                    = resolve_loop fs rest node) as Happ.
    { intros rest. by apply resolve_loop_app. }
    assert (∀ rest, resolve_loop fs ("" :: rest) node = resolve_loop fs rest node) as Hskip.
    { done. }
    split_and!; rewrite resolvePath_walk by done.
    + destruct (path_components_after p "" Hp) as [-> | ->]; by rewrite Happ.
    + destruct (path_components_after p "." Hp) as [-> | ->]; by rewrite Happ.
    + destruct (path_components_after p ".." Hp) as [-> | ->]; rewrite Happ; [done|].
      change (getlines "..") with [".."]. by rewrite Hskip.
Qed.

Lemma resolvePath_continued_witness :
  (_resolvePath "/home/" fs_notes = Ret 2%positive
   ∧ _resolvePath "/home/." fs_notes = Ret 2%positive
   ∧ _resolvePath "/home/.." fs_notes = Ret 1%positive)
  ∧ _resolvePath "/notes/.." fs_notes = Throw NotADirectory.
Proof.
  split.
  - apply (resolvePath_continued fs_notes "/home" 2%positive
             (mkFSNode "home" (Some 1%positive) (DirectoryNode ∅))).
    + apply wfb_sound. vm_compute. reflexivity.
    + vm_compute. reflexivity.
    + vm_compute. reflexivity.
  - apply (resolvePath_continued fs_notes "/notes" 3%positive
             (mkFSNode "notes" (Some 1%positive) (FileNode [xde; xad; xbe; xef]%byte)));
      [apply wfb_sound; vm_compute; reflexivity|vm_compute; reflexivity
      |vm_compute; reflexivity|done].
Defined.

(** ** [mkdir] *)

Lemma extends_created fs d dn children k n :
  heap fs !! d = Some dn →
  data dn = DirectoryNode children →
  children !! k = None →
  extends fs (created fs d dn children k n).
Proof.
  intros Hd Hdata Hk. pose proof (fresh_not_in_heap fs) as Hq.
  split; [done|]. intros p nd Hp. unfold created, with_children. simpl.
  destruct (decide (p = d)) as [->|Hne].
  - rewrite lookup_insert_eq. eexists. split; [done|]. simpl.
    assert (nd = dn) as -> by congruence. split_and!; [done|done|].
    rewrite Hdata. eexists. split; [done|]. by apply insert_subseteq.
  - rewrite lookup_insert_ne by done. rewrite lookup_insert_ne by congruence.
    exists nd. split_and!; try done. destruct (data nd); [done|]. eauto.
Qed.

(** [mkdir] only adds: whatever it returns or throws, the store it leaves
    extends the one it found. *)
Lemma mkdir_loop_extends components current fs :
  extends fs (mkdir_loop components current fs).2.
Proof.
  revert current fs. induction components as [|component rest IH]; intros current fs; simpl.
  - apply extends_refl.
  - destruct (decide (component = "")) as [_|_]; [apply IH|].
    unfold mbind at 1, M_bind at 1, read at 1, children_of.
    destruct (heap fs !! current) as [nd|] eqn:Hcur; [|apply extends_refl].
    destruct (data nd) as [content|children] eqn:Hdata; [apply extends_refl|].
    destruct (children !! component) as [child|] eqn:Hchild.
    + unfold mbind, M_bind, read. destruct (deref child fs) as [cn| | |];
        try apply extends_refl.
      destruct (decide (getType cn ≠ Directory)); [apply extends_refl|apply IH].
    + rewrite (create_bind current component _ (mkdir_loop rest) fs nd children) by done.
      eapply extends_trans; [by apply extends_created|apply IH].
Qed.

Lemma mkdir_extends path fs : extends fs (mkdir path fs).2.
Proof.
  unfold mkdir. destruct (decide (path = "/")); [apply extends_refl|].
  apply mkdir_loop_extends.
Qed.

(** An entry that leads to a directory is still there, and still leads to a
    directory, in a store that extends the first. *)
Lemma extends_entry fs fs' d children k c :
  extends fs fs' →
  children_of d fs = Ret children →
  children !! k = Some c →
  is_dir fs c →
  ∃ children', children_of d fs' = Ret children' ∧ children' !! k = Some c ∧ is_dir fs' c.
Proof.
  intros [_ Hext] Hch Hk (cn & grandchildren & Hc & Hcdata).
  revert Hch. unfold children_of.
  destruct (heap fs !! d) as [dn|] eqn:Hd; [|done].
  destruct (data dn) as [|children0] eqn:Hdata; [done|]. intros [= ->].
  destruct (Hext d dn Hd) as (dn' & -> & _ & _ & Hd').
  rewrite Hdata in Hd'. destruct Hd' as (children' & -> & Hsub).
  exists children'. split_and!; [done|by eapply lookup_weaken|].
  destruct (Hext c cn Hc) as (cn' & Hc' & _ & _ & Hcd').
  rewrite Hcdata in Hcd'. destruct Hcd' as (grandchildren' & Hcd' & _). by eexists _, _.
Qed.

Lemma is_dir_extends fs fs' p : extends fs fs' → is_dir fs p → is_dir fs' p.
Proof.
  intros [_ Hext] (nd & children & Hp & Hdata).
  destruct (Hext p nd Hp) as (nd' & Hp' & _ & _ & Hd').
  rewrite Hdata in Hd'. destruct Hd' as (children' & Hd' & _). by eexists _, _.
Qed.

(** The step of [_resolvePath] and of [mkdir] into a directory that is there. *)
Lemma resolve_loop_into fs current children component child rest :
  children_of current fs = Ret children →
  children !! component = Some child →
  is_dir fs child →
  component ≠ "" → component ≠ "." → component ≠ ".." →
  resolve_loop fs (component :: rest) current = resolve_loop fs rest child.
Proof.
  intros Hch Hk (cn & grandchildren & Hc & Hcdata) H0 H1 H2. simpl.
  destruct (decide (component = "" ∨ component = ".")) as [[?|?]|_]; [done|done|].
  destruct (decide (component = "..")); [done|].
  rewrite Hch. simpl. rewrite Hk. unfold deref. rewrite Hc. simpl.
  unfold getType. by rewrite Hcdata.
Qed.

Lemma mkdir_loop_into fs current children component child rest :
  children_of current fs = Ret children →
  children !! component = Some child →
  is_dir fs child →
  component ≠ "" →
  mkdir_loop (component :: rest) current fs = mkdir_loop rest child fs.
Proof.
  intros Hch Hk (cn & grandchildren & Hc & Hcdata) H0. simpl.
  destruct (decide (component = "")); [done|].
  unfold mbind at 1, M_bind at 1, read at 1. rewrite Hch. rewrite Hk.
  unfold mbind, M_bind, read, deref. rewrite Hc.
  destruct (decide (getType cn ≠ Directory)) as [Hty|]; [|done].
  destruct Hty. unfold getType. by rewrite Hcdata.
Qed.

(** How a call of [mkdir] that returns has gone, component by component:
    into the directory that was there, or into the one it made. *)
Lemma mkdir_loop_Ret_inv component rest current fs fs' :
  is_dir fs current →
  component ≠ "" →
  mkdir_loop (component :: rest) current fs = (Ret tt, fs') →
  ∃ fs1 children child,
    extends fs fs1
    ∧ children_of current fs1 = Ret children
    ∧ children !! component = Some child
    ∧ is_dir fs1 child
    ∧ mkdir_loop rest child fs1 = (Ret tt, fs').
Proof.
  intros (nd & children & Hcur & Hdata) H0. simpl.
  destruct (decide (component = "")); [done|].
  unfold mbind at 1, M_bind at 1, read at 1, children_of. rewrite Hcur, Hdata.
  destruct (children !! component) as [child|] eqn:Hchild.
  - unfold mbind, M_bind, read, deref.
    destruct (heap fs !! child) as [cn|] eqn:Hc; [|done].
    destruct (decide (getType cn ≠ Directory)) as [|Hty]; [done|]. intros Hrun.
    exists fs, children, child. split_and!; try done.
    + apply extends_refl.
    + by rewrite Hcur, Hdata.
    + unfold getType in Hty. destruct (data cn) eqn:Hcd; [by destruct Hty|]. by eexists _, _.
  - rewrite (create_bind current component _ (mkdir_loop rest) fs nd children) by done.
    intros Hrun. eexists _, _, _. split_and!; [|..|exact Hrun].
    + by apply extends_created.
    + unfold created, with_children, children_of. simpl. by rewrite lookup_insert_eq.
    + apply lookup_insert_eq.
    + eexists _, _. split; [by apply created_new_node|done].
Qed.

Lemma mkdir_loop_Ret components current fs fs' :
  is_dir fs current →
  Forall (λ c, c ≠ "." ∧ c ≠ "..") components →
  mkdir_loop components current fs = (Ret tt, fs') →
  ∃ d, resolve_loop fs' components current = Ret d ∧ is_dir fs' d.
Proof.
  revert current fs.
  induction components as [|component rest IH]; intros current fs Hdir Hplain.
  - intros [= <-]. by exists current.
  - apply Forall_cons in Hplain as [[H1 H2] Hplain].
    destruct (decide (component = "")) as [->|H0]; [by apply IH|].
    intros Hrun.
    destruct (mkdir_loop_Ret_inv component rest current fs fs' Hdir H0 Hrun)
      as (fs1 & children & child & _ & Hch & Hk & Hcdir & Hrest).
    destruct (IH child fs1 Hcdir Hplain Hrest) as (d & Hwalk & Hd).
    exists d. split; [|done].
    pose proof (mkdir_loop_extends rest child fs1) as Hext. rewrite Hrest in Hext.
    destruct (extends_entry fs1 fs' current children component child Hext Hch Hk Hcdir)
      as (children' & Hch' & Hk' & Hcdir').
    by rewrite (resolve_loop_into fs' current children' component child rest).
Qed.

(** When [mkdir] has returned, calling it again, even on a store that has
    grown since, finds every directory in place and changes nothing. *)
Lemma mkdir_loop_again components current fs fs' fs'' :
  is_dir fs current →
  mkdir_loop components current fs = (Ret tt, fs') →
  extends fs' fs'' →
  mkdir_loop components current fs'' = (Ret tt, fs'').
Proof.
  revert current fs.
  induction components as [|component rest IH]; intros current fs Hdir; [done|].
  destruct (decide (component = "")) as [->|H0]; [by apply IH|].
  intros Hrun Hext.
  destruct (mkdir_loop_Ret_inv component rest current fs fs' Hdir H0 Hrun)
    as (fs1 & children & child & _ & Hch & Hk & Hcdir & Hrest).
  pose proof (mkdir_loop_extends rest child fs1) as Hext1. rewrite Hrest in Hext1.
  destruct (extends_entry fs1 fs'' current children component child
              (extends_trans _ _ _ Hext1 Hext) Hch Hk Hcdir)
    as (children'' & Hch'' & Hk'' & Hcdir'').
  rewrite (mkdir_loop_into fs'' current children'' component child rest) by done.
  by apply (IH child fs1).
Qed.

(** X5.  [mkdir] makes the directory it is asked for.  When [mkdir(p)]
    returns, for a non-empty [p] without "." and ".." components, [p]
    resolves to a directory. *)
Theorem mkdir_makes_the_directory fs path fs' :
  is_dir fs (root fs) →
  path ≠ "" →
  plain path →
  mkdir path fs = (Ret tt, fs') →
  getNodeType path fs' = Ret Directory ∧ exists_ path fs' = Ret true.
Proof.
  intros Hroot Hpath Hplain. unfold mkdir.
  assert (∀ d, _resolvePath path fs' = Ret d → is_dir fs' d →
               getNodeType path fs' = Ret Directory ∧ exists_ path fs' = Ret true) as Hfin.
  { intros d Hres (dn & children & Hd & Hdata). unfold getNodeType, exists_. rewrite Hres.
    split; [|done]. simpl. unfold deref. rewrite Hd. simpl. unfold getType. by rewrite Hdata. }
  destruct (decide (path = "/")) as [->|Hne].
  - intros [= <-]. by apply (Hfin (root fs)).
  - intros Hrun.
    destruct (mkdir_loop_Ret _ (root fs) fs fs' Hroot Hplain Hrun) as (d & Hwalk & Hd).
    apply (Hfin d); [|done]. rewrite resolvePath_walk by done.
    pose proof (mkdir_loop_extends (getlines (skip_slash path)) (root fs) fs) as [Hr _].
    rewrite Hrun in Hr. simpl in Hr. by rewrite Hr.
Qed.

Lemma mkdir_makes_the_directory_witness :
  getNodeType "/home/user/documents" (run (mkdir "/home/user/documents") fs_notes)
  = Ret Directory
  ∧ exists_ "/home/user/documents" (run (mkdir "/home/user/documents") fs_notes) = Ret true.
Proof.
  apply (mkdir_makes_the_directory fs_notes "/home/user/documents").
  - eexists _, _. split; vm_compute; reflexivity.
  - done.
  - unfold plain. vm_compute. repeat constructor; by intros [=].
  - vm_compute. reflexivity.
Defined.

(** X6.  [mkdir] is idempotent: once [mkdir(p)] has returned, a second
    [mkdir(p)] returns as well and leaves the store as it is. *)
Theorem mkdir_idempotent fs path fs' :
  is_dir fs (root fs) →
  mkdir path fs = (Ret tt, fs') →
  mkdir path fs' = (Ret tt, fs').
Proof.
  intros Hroot. unfold mkdir. destruct (decide (path = "/")); [done|]. intros Hrun.
  pose proof (mkdir_loop_extends (getlines (skip_slash path)) (root fs) fs) as [Hr _].
  rewrite Hrun in Hr. simpl in Hr. rewrite Hr.
  apply (mkdir_loop_again _ (root fs) fs fs' fs'); [done|done|apply extends_refl].
Qed.

Lemma mkdir_idempotent_witness :
  mkdir "/a/./b" (run (mkdir "/a/./b") FileSystem_new)
  = (Ret tt, run (mkdir "/a/./b") FileSystem_new).
Proof.
  apply (mkdir_idempotent FileSystem_new "/a/./b").
  - eexists _, _. split; vm_compute; reflexivity.
  - vm_compute. reflexivity.
Defined.

(** ** Creating a file: [touch], [writeFile], [cp] *)

Lemma create_run d k n fs dn children :
  heap fs !! d = Some dn →
  data dn = DirectoryNode children →
  (make_shared n ≫= λ p, store_child d k p) fs = (Ret tt, created fs d dn children k n).
Proof.
  intros Hd Hdata. pose proof (fresh_not_in_heap fs) as Hp.
  unfold mbind, M_bind, make_shared, store_child.
  rewrite (modify_children_Ret d _ _ dn children); [done| |done].
  simpl. rewrite lookup_insert_ne by congruence. done.
Qed.

(** A new file stored under the final component of [path] is what [path]
    then resolves to, and what [cat] reads, when that component is a proper
    name that was free or led to a file. *)
Lemma resolvePath_created path fs d nm dn children file :
  _resolveParentAndName path fs = Ret (d, nm) →
  heap fs !! d = Some dn →
  data dn = DirectoryNode children →
  nm ≠ "." → nm ≠ ".." →
  getType file = File →
  (∀ c, children !! nm = Some c → ∃ cn, heap fs !! c = Some cn ∧ getType cn = File) →
  _resolvePath path (created fs d dn children nm file) = Ret (fresh (dom (heap fs))).
Proof.
  intros Hrpn Hd Hdata Hn1 Hn2 Hty Hfile.
  destruct (resolveParentAndName_Ret path fs d nm Hrpn)
    as (prefix & dn' & children' & Hd' & Hdata' & Hn0 & Hp1 & Hp2 & Hwalk & Htokens).
  pose proof (fresh_not_in_heap fs) as Hq.
  rewrite resolvePath_components by done. rewrite Htokens.
  unfold created.
  match goal with
  | |- context [root (with_children ?a ?b ?c ?e)] =>
      change (root (with_children a b c e)) with (root fs)
  end.
  by apply (resolve_after_store fs d dn children nm Hd Hdata (conj Hn0 (conj Hn1 Hn2))).
Qed.

Lemma cat_created path fs d nm dn children content :
  _resolveParentAndName path fs = Ret (d, nm) →
  heap fs !! d = Some dn →
  data dn = DirectoryNode children →
  nm ≠ "." → nm ≠ ".." →
  (∀ c, children !! nm = Some c → ∃ cn, heap fs !! c = Some cn ∧ getType cn = File) →
  cat path (created fs d dn children nm (mkFSNode nm (Some d) (FileNode content)))
  = Ret content.
Proof.
  intros Hrpn Hd Hdata Hn1 Hn2 Hfile. unfold cat.
  rewrite (resolvePath_created path fs d nm dn children
             (mkFSNode nm (Some d) (FileNode content)) Hrpn Hd Hdata Hn1 Hn2 eq_refl Hfile).
  simpl. unfold deref. by rewrite created_new_node.
Qed.

Lemma touch_run path fs d nm dn children :
  _resolveParentAndName path fs = Ret (d, nm) →
  heap fs !! d = Some dn →
  data dn = DirectoryNode children →
  touch path fs
  = match children !! nm with
    | None => (Ret tt, created fs d dn children nm (mkFSNode nm (Some d) (FileNode [])))
    | Some c =>
        match heap fs !! c with
        | Some cn => (if decide (getType cn = File) then Ret tt else Throw NotAFile, fs)
        | None => (Fault, fs)
        end
    end.
Proof.
  intros Hrpn Hd Hdata. unfold touch.
  unfold mbind at 1, M_bind at 1, read at 1. rewrite Hrpn.
  unfold mbind at 1, M_bind at 1, read at 1, children_of. rewrite Hd, Hdata.
  destruct (children !! nm) as [c|].
  - unfold mbind, M_bind, read, deref. destruct (heap fs !! c) as [cn|]; [|done].
    destruct (decide (getType cn ≠ File)) as [Hty|Hty].
    + by destruct (decide (getType cn = File)).
    + destruct (decide (getType cn = File)); [done|]. by destruct (getType cn).
  - by apply create_run.
Qed.

Lemma touch_extends path fs : extends fs (touch path fs).2.
Proof.
  destruct (_resolveParentAndName path fs) as [[d nm]|e| |] eqn:Hrpn.
  - destruct (resolveParentAndName_children path fs d nm Hrpn)
      as (dn & children & Hd & Hdata & _).
    rewrite (touch_run path fs d nm dn children) by done.
    destruct (children !! nm) as [c|] eqn:Hc.
    + destruct (heap fs !! c); apply extends_refl.
    + by apply extends_created.
  - unfold touch, mbind, M_bind, read. rewrite Hrpn. apply extends_refl.
  - unfold touch, mbind, M_bind, read. rewrite Hrpn. apply extends_refl.
  - unfold touch, mbind, M_bind, read. rewrite Hrpn. apply extends_refl.
Qed.

Lemma cat_extends fs fs' path content :
  extends fs fs' → cat path fs = Ret content → cat path fs' = Ret content.
Proof.
  intros Hext. unfold cat.
  destruct (_resolvePath path fs) as [node| | |] eqn:Hres; simpl; [|done..].
  rewrite (resolvePath_extends fs fs' path node Hext Hres). simpl.
  unfold deref. destruct (heap fs !! node) as [nd|] eqn:Hnd; simpl; [|done].
  destruct Hext as [_ Hext]. destruct (Hext node nd Hnd) as (nd' & -> & _ & _ & Hd).
  simpl. destruct (data nd); [|done]. by rewrite Hd.
Qed.

Lemma getNodeType_extends fs fs' path t :
  extends fs fs' → getNodeType path fs = Ret t → getNodeType path fs' = Ret t.
Proof.
  intros Hext. unfold getNodeType.
  destruct (_resolvePath path fs) as [node| | |] eqn:Hres; simpl; [|done..].
  rewrite (resolvePath_extends fs fs' path node Hext Hres). simpl.
  unfold deref. destruct (heap fs !! node) as [nd|] eqn:Hnd; simpl; [|done].
  destruct Hext as [_ Hext]. destruct (Hext node nd Hnd) as (nd' & -> & _ & _ & Hd).
  simpl. unfold getType. destruct (data nd).
  - by rewrite Hd.
  - by destruct Hd as (? & -> & _).
Qed.

(** X7.  [mkdir] and [touch] only add.  Whatever they return or throw, every
    path that resolved before the call resolves to the same node after it,
    with the same class, and every file reads as before. *)
Theorem mkdir_and_touch_only_add fs path q :
  ∀ fs', fs' = run (mkdir path) fs ∨ fs' = run (touch path) fs →
    (∀ node, _resolvePath q fs = Ret node → _resolvePath q fs' = Ret node)
    ∧ (exists_ q fs = Ret true → exists_ q fs' = Ret true)
    ∧ (∀ t, getNodeType q fs = Ret t → getNodeType q fs' = Ret t)
    ∧ (∀ content, cat q fs = Ret content → cat q fs' = Ret content).
Proof.
  intros fs' Hfs'.
  assert (extends fs fs') as Hext.
  { destruct Hfs' as [-> | ->]; [apply mkdir_extends|apply touch_extends]. }
  split_and!.
  - intros node. by apply resolvePath_extends.
  - intros [node Hres]%exists_true_iff. apply exists_true_iff. exists node.
    by apply (resolvePath_extends fs).
  - intros t. by apply getNodeType_extends.
  - intros content. by apply cat_extends.
Qed.

Lemma mkdir_and_touch_only_add_witness :
  cat "/notes" (run (mkdir "/home/user") fs_notes) = Ret [xde; xad; xbe; xef]%byte
  ∧ exists_ "/home" (run (touch "/home/x") fs_notes) = Ret true.
Proof.
  split.
  - apply (mkdir_and_touch_only_add fs_notes "/home/user" "/notes"); [by left|].
    vm_compute. reflexivity.
  - apply (mkdir_and_touch_only_add fs_notes "/home/x" "/home"); [by right|].
    vm_compute. reflexivity.
Defined.

(** X8.  [touch], at the directory [d] and the name [nm] its path splits
    into.  On a free name it makes an empty file, which [cat] then reads as
    the empty sequence (for a name other than "." and ".."), and takes
    nothing away.  On a file it returns and changes nothing: the content
    stays.  On a directory it throws and changes nothing. *)
Theorem touch_contract fs path d nm children :
  _resolveParentAndName path fs = Ret (d, nm) →
  children_of d fs = Ret children →
  (children !! nm = None →
   ∃ fs', touch path fs = (Ret tt, fs')
          ∧ extends fs fs'
          ∧ (nm ≠ "." → nm ≠ ".." → cat path fs' = Ret []))
  ∧ (∀ c cn,
       children !! nm = Some c → heap fs !! c = Some cn →
       touch path fs
       = (match data cn with
          | FileNode _ => Ret tt
          | DirectoryNode _ => Throw NotAFile
          end, fs)).
Proof.
  intros Hrpn Hch.
  destruct (resolveParentAndName_children path fs d nm Hrpn)
    as (dn & children' & Hd & Hdata & Hch').
  assert (children' = children) as -> by congruence.
  rewrite (touch_run path fs d nm dn children) by done. split.
  - intros Hc. rewrite Hc. eexists. split; [done|]. split; [by apply extends_created|].
    intros Hn1 Hn2. apply cat_created; try done. intros c. by rewrite Hc.
  - intros c cn -> ->. unfold getType. by destruct (data cn).
Qed.

Lemma touch_contract_witness :
  (∃ fs', touch "/home/x" fs_notes = (Ret tt, fs')
          ∧ extends fs_notes fs'
          ∧ ("x" ≠ "." → "x" ≠ ".." → cat "/home/x" fs' = Ret []))
  ∧ touch "/notes" fs_notes = (Ret tt, fs_notes)
  ∧ touch "/home" fs_notes = (Throw NotAFile, fs_notes).
Proof.
  split_and!.
  - apply (touch_contract fs_notes "/home/x" 2%positive "x" ∅); vm_compute; reflexivity.
  - apply (proj2 (touch_contract fs_notes "/notes" 1%positive "notes"
                    {[ "home" := 2%positive; "notes" := 3%positive ]}
                    ltac:(vm_compute; reflexivity) ltac:(vm_compute; reflexivity)) 3%positive
             (mkFSNode "notes" (Some 1%positive) (FileNode [xde; xad; xbe; xef]%byte)));
      vm_compute; reflexivity.
  - apply (proj2 (touch_contract fs_notes "/home" 1%positive "home"
                    {[ "home" := 2%positive; "notes" := 3%positive ]}
                    ltac:(vm_compute; reflexivity) ltac:(vm_compute; reflexivity)) 2%positive
             (mkFSNode "home" (Some 1%positive) (DirectoryNode ∅)));
      vm_compute; reflexivity.
Defined.

(** ** [append] *)

Lemma same_shape_with_content fs p n old content :
  heap fs !! p = Some n →
  data n = FileNode old →
  same_shape fs (with_content fs p n content).
Proof.
  intros Hp Hdata. split; [done|]. intros x. unfold with_content. simpl.
  destruct (decide (p = x)) as [<-|Hne].
  - rewrite lookup_insert_eq, Hp. simpl. by rewrite Hdata.
  - rewrite lookup_insert_ne by done. destruct (heap fs !! x) as [nd|]; [|done].
    split_and!; try done. by destruct (data nd).
Qed.

Lemma cat_Ret path fs content :
  cat path fs = Ret content ↔
  ∃ node nd, _resolvePath path fs = Ret node ∧ heap fs !! node = Some nd
             ∧ data nd = FileNode content.
Proof.
  unfold cat. split.
  - destruct (_resolvePath path fs) as [node| | |]; simpl; [|done..].
    unfold deref. destruct (heap fs !! node) as [nd|] eqn:Hnd; simpl; [|done].
    destruct (data nd) eqn:Hdata; [|done]. intros [= ->]. by eexists _, _.
  - intros (node & nd & -> & Hnd & Hdata). simpl. unfold deref. rewrite Hnd. simpl.
    by rewrite Hdata.
Qed.

Lemma append_run path content fs node nd old :
  _resolvePath path fs = Ret node →
  heap fs !! node = Some nd →
  data nd = FileNode old →
  append path content fs = (Ret tt, with_content fs node nd (old ++ content)).
Proof.
  intros Hres Hnd Hdata. unfold append, mbind, M_bind, read, deref.
  rewrite Hres, Hnd, Hdata. unfold modify_node. by rewrite Hnd.
Qed.

Lemma ls_entries_same_shape fs fs' order :
  same_shape fs fs' → ls_entries order fs' = ls_entries order fs.
Proof.
  intros [_ Hsame]. unfold ls_entries.
  induction order as [|[nm child] order IH]; simpl; [done|].
  rewrite IH. unfold deref. pose proof (Hsame child) as Hc.
  destruct (heap fs !! child) as [cn|], (heap fs' !! child) as [cn'|]; simpl; try done.
  destruct Hc as (_ & _ & Hdata). unfold getType.
  by destruct (data cn), (data cn').
Qed.

(** X9.  [append] adds to the end of a file and touches nothing else.  When
    [cat(p)] reads [old], [append(p, b)] returns and [cat(p)] then reads [old]
    followed by [b]; every path resolves as before, every directory lists as
    before, and a file that is not the one [p] leads to reads as before.  On
    a directory [append] throws and changes nothing. *)
Theorem append_contract fs path content :
  (∀ old,
     cat path fs = Ret old →
     ∃ fs', append path content fs = (Ret tt, fs')
            ∧ cat path fs' = Ret (old ++ content)%list
            ∧ (∀ q, _resolvePath q fs' = _resolvePath q fs)
            ∧ (∀ q, exists_ q fs' = exists_ q fs)
            ∧ (∀ q, getNodeType q fs' = getNodeType q fs)
            ∧ (∀ q, ls q fs' = ls q fs)
            ∧ (∀ q, _resolvePath q fs ≠ _resolvePath path fs → cat q fs' = cat q fs))
  ∧ (getNodeType path fs = Ret Directory →
     append path content fs = (Throw NotAFile, fs)).
Proof.
  split.
  - intros old (node & nd & Hres & Hnd & Hdata)%cat_Ret.
    rewrite (append_run path content fs node nd old) by done.
    eexists. split; [done|].
    pose proof (same_shape_with_content fs node nd old (old ++ content) Hnd Hdata) as Hsame.
    pose proof (λ q, resolvePath_same_shape fs _ q Hsame) as Hres'.
    assert (∀ q, getNodeType q (with_content fs node nd (old ++ content))
                 = getNodeType q fs) as Hty.
    { intros q. unfold getNodeType. rewrite (Hres' q).
      destruct (_resolvePath q fs) as [x| | |]; simpl; [|done..].
      destruct Hsame as [_ Hsame]. pose proof (Hsame x) as Hx. unfold deref.
      destruct (heap fs !! x) as [xn|], (heap (with_content _ _ _ _) !! x) as [xn'|];
        simpl; try done.
      destruct Hx as (_ & _ & Hx). unfold getType. by destruct (data xn), (data xn'). }
    split_and!; [|done| |done| |].
    + apply cat_Ret. exists node, (mkFSNode (name nd) (parent nd) (FileNode (old ++ content))).
      rewrite Hres'. split_and!; [done| |done]. unfold with_content. simpl.
      apply lookup_insert_eq.
    + intros q. unfold exists_. by rewrite Hres'.
    + intros q. unfold ls, ls_in_order. rewrite (Hres' q).
      destruct (_resolvePath q fs) as [x| | |]; simpl; [|done..].
      destruct Hsame as [Hroot Hsame]. pose proof (Hsame x) as Hx. unfold deref.
      destruct (heap fs !! x) as [xn|], (heap (with_content _ _ _ _) !! x) as [xn'|];
        simpl; try done.
      destruct Hx as (_ & _ & Hx).
      destruct (data xn) as [|children], (data xn') as [|children']; try done.
      subst children'. by rewrite (ls_entries_same_shape fs _ _ (conj Hroot Hsame)).
    + intros q Hq. unfold cat. rewrite (Hres' q).
      destruct (_resolvePath q fs) as [x| | |]; simpl; [|done..].
      unfold deref, with_content. simpl. rewrite lookup_insert_ne; [done|].
      intros <-. by rewrite Hres in Hq.
  - unfold getNodeType, append, mbind, M_bind, read.
    destruct (_resolvePath path fs) as [node| | |]; simpl; [|done..].
    destruct (deref node fs) as [nd| | |]; simpl; [|done..].
    unfold getType. by destruct (data nd).
Qed.

Lemma append_contract_witness :
  (∃ fs', append "/notes" [x21]%byte fs_notes = (Ret tt, fs')
          ∧ cat "/notes" fs' = Ret [xde; xad; xbe; xef; x21]%byte
          ∧ (∀ q, _resolvePath q fs' = _resolvePath q fs_notes)
          ∧ (∀ q, exists_ q fs' = exists_ q fs_notes)
          ∧ (∀ q, getNodeType q fs' = getNodeType q fs_notes)
          ∧ (∀ q, ls q fs' = ls q fs_notes)
          ∧ (∀ q, _resolvePath q fs_notes ≠ _resolvePath "/notes" fs_notes →
                  cat q fs' = cat q fs_notes))
  ∧ append "/home" [x21]%byte fs_notes = (Throw NotAFile, fs_notes).
Proof.
  split.
  - apply (proj1 (append_contract fs_notes "/notes" [x21]%byte) [xde; xad; xbe; xef]%byte).
    vm_compute. reflexivity.
  - apply (proj2 (append_contract fs_notes "/home" [x21]%byte)).
    vm_compute. reflexivity.
Defined.

(** X10.  Appending composes.  Two calls of [append] on the same path leave
    the store that one call with the two sequences joined leaves; and
    [append] after [writeFile], on a path whose final component is neither
    "." nor "..", leaves the store that [writeFile] with the joined
    sequence leaves. *)
Theorem append_composes fs path a b :
  (∀ fs1 fs2,
     append path a fs = (Ret tt, fs1) →
     append path b fs1 = (Ret tt, fs2) →
     append path (a ++ b) fs = (Ret tt, fs2))
  ∧ (∀ fs1 d nm,
       _resolveParentAndName path fs = Ret (d, nm) →
       nm ≠ "." → nm ≠ ".." →
       writeFile path a fs = (Ret tt, fs1) →
       append path b fs1 = writeFile path (a ++ b) fs).
Proof.
  split.
  - intros fs1 fs2 H1 H2.
    assert (∃ node nd old, _resolvePath path fs = Ret node ∧ heap fs !! node = Some nd
                           ∧ data nd = FileNode old) as (node & nd & old & Hres & Hnd & Hdata).
    { revert H1. unfold append, mbind, M_bind, read.
      destruct (_resolvePath path fs) as [node| | |]; simpl; [|done..].
      unfold deref. destruct (heap fs !! node) as [nd|] eqn:Hnd; simpl; [|done].
      destruct (data nd) as [old|] eqn:Hdata; [|done]. intros _. by eexists _, _, _. }
    rewrite (append_run path a fs node nd old) in H1 by done. injection H1 as <-.
    pose proof (same_shape_with_content fs node nd old (old ++ a) Hnd Hdata) as Hsame.
    rewrite (append_run path b _ node
               (mkFSNode (name nd) (parent nd) (FileNode (old ++ a))) (old ++ a)) in H2.
    + injection H2 as <-. rewrite (append_run path (a ++ b) fs node nd old) by done.
      unfold with_content. simpl. by rewrite insert_insert_eq, app_assoc.
    + by rewrite (resolvePath_same_shape fs _ path Hsame).
    + unfold with_content. simpl. apply lookup_insert_eq.
    + done.
  - intros fs1 d nm Hrpn Hn1 Hn2 Hw.
    destruct (resolveParentAndName_children path fs d nm Hrpn)
      as (dn & children & Hd & Hdata & Hch).
    destruct (writeFile_Ret_inv path a fs fs1 d nm children Hrpn Hch Hw) as [Hfile Hstore].
    rewrite (create_run d nm _ fs dn children Hd Hdata) in Hstore. injection Hstore as <-.
    assert (∃ fs2, writeFile path (a ++ b) fs = (Ret tt, fs2)) as [fs2 Hw2].
    { apply (writeFile_Ret path (a ++ b) fs d nm children Hrpn Hch).
      destruct (children !! nm) as [c|] eqn:Hc; [right|by left].
      destruct (Hfile c eq_refl) as (cn & Hcn & Hty). by exists c, cn. }
    rewrite Hw2.
    destruct (writeFile_Ret_inv path (a ++ b) fs fs2 d nm children Hrpn Hch Hw2)
      as [_ Hstore2].
    rewrite (create_run d nm _ fs dn children Hd Hdata) in Hstore2. injection Hstore2 as <-.
    pose proof (cat_created path fs d nm dn children a Hrpn Hd Hdata Hn1 Hn2 Hfile) as Hcat.
    apply cat_Ret in Hcat as (node & nd & Hres & Hnd & Hnddata).
    rewrite (append_run path b _ node nd a Hres Hnd Hnddata). f_equal.
    pose proof (fresh_not_in_heap fs) as Hq.
    assert (d ≠ fresh (dom (heap fs))) as Hdq by congruence.
    pose proof (resolvePath_created path fs d nm dn children
                  (mkFSNode nm (Some d) (FileNode a)) Hrpn Hd Hdata Hn1 Hn2 eq_refl Hfile) as Hres2.
    assert (node = fresh (dom (heap fs))) as -> by congruence.
    assert (nd = mkFSNode nm (Some d) (FileNode a)) as ->.
    { revert Hnd. unfold created, with_children. simpl.
      rewrite lookup_insert_ne by done. rewrite lookup_insert_eq. by intros [= <-]. }
    unfold with_content, created, with_children. simpl. f_equal.
    rewrite (insert_insert_ne _ (fresh (dom (heap fs))) d) by done.
    by rewrite insert_insert_eq.
Qed.

Lemma append_composes_witness :
  append "/notes" [x01; x02]%byte fs_notes
  = (Ret tt, run (append "/notes" [x02]%byte) (run (append "/notes" [x01]%byte) fs_notes))
  ∧ append "/home/log" [x02]%byte (run (writeFile "/home/log" [x01]%byte) fs_notes)
    = writeFile "/home/log" [x01; x02]%byte fs_notes.
Proof.
  split.
  - apply (proj1 (append_composes fs_notes "/notes" [x01]%byte [x02]%byte)
             (run (append "/notes" [x01]%byte) fs_notes));
      vm_compute; reflexivity.
  - apply (proj2 (append_composes fs_notes "/home/log" [x01]%byte [x02]%byte) _
             2%positive "log"); [vm_compute; reflexivity|done|done|reflexivity].
Defined.

(** ** Text: the overloads for strings, [catAsString] and [type] *)

Lemma string_of_list_byte_app l1 l2 :
  string_of_list_byte (l1 ++ l2)%list = string_of_list_byte l1 ++ string_of_list_byte l2.
Proof.
  unfold string_of_list_byte. induction l1 as [|b l1 IH]; simpl; [done|]. by rewrite IH.
Qed.

(** X11.  Text goes in and comes out unchanged.  What the string overload
    of [writeFile] has written under a final component other than "." and
    "..", [catAsString] and its alias [type] read back as the same string;
    and after the string overload of [append] they read the old text followed
    by the new. *)
Theorem text_roundtrip fs path text :
  (∀ fs' d nm,
     _resolveParentAndName path fs = Ret (d, nm) →
     nm ≠ "." → nm ≠ ".." →
     writeFile_sv path text fs = (Ret tt, fs') →
     catAsString path fs' = Ret text ∧ type path fs' = Ret text)
  ∧ (∀ old,
       catAsString path fs = Ret old →
       ∃ fs', append_sv path text fs = (Ret tt, fs')
              ∧ catAsString path fs' = Ret (old ++ text)).
Proof.
  split.
  - intros fs' d nm Hrpn Hn1 Hn2 Hw. unfold type, catAsString.
    rewrite (writeFile_then_cat path _ fs fs' d nm Hrpn Hn1 Hn2 Hw). simpl.
    by rewrite string_of_list_byte_of_string.
  - intros old. unfold catAsString, append_sv.
    destruct (cat path fs) as [content| | |] eqn:Hcat; simpl; [|done..]. intros [= <-].
    apply cat_Ret in Hcat as (node & nd & Hres & Hnd & Hdata).
    rewrite (append_run path _ fs node nd content Hres Hnd Hdata).
    eexists. split; [done|].
    pose proof (same_shape_with_content fs node nd content
                  (content ++ list_byte_of_string text) Hnd Hdata) as Hsame.
    unfold cat. rewrite (resolvePath_same_shape fs _ path Hsame), Hres. simpl.
    unfold deref, with_content. simpl. rewrite lookup_insert_eq. simpl.
    by rewrite string_of_list_byte_app, string_of_list_byte_of_string.
Qed.

Lemma text_roundtrip_witness :
  (catAsString "/home/user.txt" (run (writeFile_sv "/home/user.txt" "Log entry 1.") fs_notes)
   = Ret "Log entry 1."
   ∧ type "/home/user.txt" (run (writeFile_sv "/home/user.txt" "Log entry 1.") fs_notes)
     = Ret "Log entry 1.")
  ∧ ∃ fs', append_sv "/f" " on" fs_f_g = (Ret tt, fs')
           ∧ catAsString "/f" fs' = Ret "moved on".
Proof.
  split.
  - apply (proj1 (text_roundtrip fs_notes "/home/user.txt" "Log entry 1.") _ 2%positive
             "user.txt"); [vm_compute; reflexivity|done|done|reflexivity].
  - apply (proj2 (text_roundtrip fs_f_g "/f" " on") "moved"). vm_compute. reflexivity.
Defined.

(** ** The readers *)

(** X12.  The readers agree on what a path is.  On a well-formed store,
    [getNodeType] returns exactly when [exists] is true; it says [File]
    exactly when [cat] returns, in which case [ls] throws [NotADirectory];
    it says [Directory] exactly when [ls] returns, in which case [cat] throws
    [NotAFile]. *)
Theorem readers_agree fs path :
  wf fs →
  (exists_ path fs = Ret true ↔ ∃ t, getNodeType path fs = Ret t)
  ∧ (getNodeType path fs = Ret File ↔ ∃ content, cat path fs = Ret content)
  ∧ (getNodeType path fs = Ret Directory ↔ ∃ entries, ls path fs = Ret entries)
  ∧ (getNodeType path fs = Ret File → ls path fs = Throw NotADirectory)
  ∧ (getNodeType path fs = Ret Directory → cat path fs = Throw NotAFile).
Proof.
  intros Hwf.
  destruct (resolvePath_wf fs Hwf path) as [(node & Hres & [ancestors Hch])|[e He]].
  - destruct (chain_in_heap fs Hwf node ancestors Hch) as [nd Hnd].
    assert (exists_ path fs = Ret true) as -> by (unfold exists_; by rewrite Hres).
    assert (getNodeType path fs = Ret (getType nd)) as ->.
    { unfold getNodeType, deref. rewrite Hres. simpl. by rewrite Hnd. }
    unfold getType. destruct (data nd) as [content|children] eqn:Hdata.
    + assert (cat path fs = Ret content) as ->.
      { apply cat_Ret. by exists node, nd. }
      assert (ls path fs = Throw NotADirectory) as ->.
      { unfold ls, ls_in_order, deref. rewrite Hres. simpl. rewrite Hnd. simpl.
        by rewrite Hdata. }
      split_and!; try done; try (split; [eauto|done]). split; [done|]. by intros [? ?].
    + assert (cat path fs = Throw NotAFile) as ->.
      { unfold cat, deref. rewrite Hres. simpl. rewrite Hnd. simpl. by rewrite Hdata. }
      unfold ls. rewrite (ls_in_order_spec fs map_to_list path node nd children) by done.
      split_and!; try done; try (split; [eauto|done]). split; [done|]. by intros [? ?].
  - unfold exists_, getNodeType, cat, ls, ls_in_order. rewrite He. simpl.
    split_and!; try done; split; try done; by intros [? ?].
Qed.

Lemma readers_agree_witness :
  (∃ content, cat "/notes" fs_notes = Ret content)
  ∧ cat "/home" fs_notes = Throw NotAFile.
Proof.
  destruct (readers_agree fs_notes "/notes") as (_ & Hfile & _);
    [apply wfb_sound; vm_compute; reflexivity|].
  destruct (readers_agree fs_notes "/home") as (_ & _ & _ & _ & Hdir);
    [apply wfb_sound; vm_compute; reflexivity|].
  split.
  - apply Hfile. vm_compute. reflexivity.
  - apply Hdir. vm_compute. reflexivity.
Defined.

(** ** The invariant is kept *)

(** X13.  Every public mutating operation keeps the store well-formed: the
    root stays a directory called "/" without a parent, and every entry
    [k ↦ c] of a directory [d] leads to a node whose [parent] is [d] and whose
    [name] is [k].  So every store built from [FileSystem()] by public
    operations is well-formed. *)
Theorem operations_keep_the_invariant :
  (∀ fuel op fs, wf fs → wf (run (perform fuel op) fs))
  ∧ wf FileSystem_new
  ∧ (∀ fs, built fs → wf fs).
Proof.
  split_and!.
  - apply wf_perform.
  - apply wf_new.
  - apply built_wf.
Qed.

Lemma operations_keep_the_invariant_witness :
  wf (run (perform 5 (Mv "/notes" "/home")) fs_notes).
Proof.
  apply (proj1 operations_keep_the_invariant). apply wfb_sound. vm_compute. reflexivity.
Defined.

(** ** The exceptions of each operation *)

Section throws_only.
Context {A B : Type} (kinds : list FileSystemException).

Lemma throws_only_silent (m : M A) : silent m → throws_only kinds m.
Proof. intros Hm fs e fs' H. by destruct (Hm fs e fs'). Qed.

Lemma throws_only_throw e : e ∈ kinds → throws_only kinds (throw (A:=A) e).
Proof. by intros He fs e' fs' [= <- _]. Qed.

Lemma throws_only_read (f : FileSystem → outcome A) :
  (∀ fs e, f fs = Throw e → e ∈ kinds) → throws_only kinds (read f).
Proof. intros Hf fs e fs'. unfold read. intros [= H _]. by eapply Hf. Qed.

Lemma throws_only_bind (m : M A) (k : A → M B) :
  throws_only kinds m → (∀ a, throws_only kinds (k a)) → throws_only kinds (m ≫= k).
Proof.
  intros Hm Hk fs e fs'. unfold mbind, M_bind.
  destruct (m fs) as [[a|e0| |] fs1] eqn:Hrun; try done.
  - apply Hk.
  - intros [= <- _]. by eapply Hm.
Qed.
End throws_only.

Lemma throws_only_resolvePath kinds path :
  InvalidPath ∈ kinds → NotFound ∈ kinds → NotADirectory ∈ kinds →
  throws_only kinds (read (_resolvePath path)).
Proof.
  intros H1 H2 H3. apply throws_only_read. intros fs e.
  by intros [->|[->| ->]]%resolvePath_throws.
Qed.

Lemma throws_only_resolveParentAndName kinds path :
  InvalidPath ∈ kinds → NotFound ∈ kinds → NotADirectory ∈ kinds →
  throws_only kinds (read (_resolveParentAndName path)).
Proof.
  intros H1 H2 H3. apply throws_only_read. intros fs e.
  by intros [->|[->| ->]]%resolveParentAndName_throws.
Qed.

Lemma throws_only_resolveDestination kinds dest nm :
  InvalidPath ∈ kinds → NotFound ∈ kinds → NotADirectory ∈ kinds →
  throws_only kinds (read (_resolveDestination dest nm)).
Proof.
  intros H1 H2 H3. apply throws_only_read. intros fs e.
  by intros [->|[->| ->]]%resolveDestination_throws.
Qed.

Lemma mv_guard_throws fuel tempParent sourceNode fs e :
  mv_guard fuel tempParent sourceNode fs = Throw e → e = CyclicMove.
Proof.
  revert tempParent. induction fuel as [|fuel IH]; intros [t|]; simpl; try done.
  destruct (decide (t = sourceNode)); [by intros [= <-]|].
  unfold deref. destruct (heap fs !! t) as [tn|]; simpl; [|done]. apply IH.
Qed.

Ltac in_kinds := apply list_elem_of_In; simpl; auto 10.

Lemma throws_only_mkdir_loop components current :
  throws_only [NotADirectory] (mkdir_loop components current).
Proof.
  revert current. induction components as [|component rest IH]; intros current; simpl.
  - apply throws_only_silent, silent_ret.
  - destruct (decide (component = "")); [apply IH|].
    apply throws_only_bind; [apply throws_only_silent, silent_read_children_of|].
    intros children. destruct (children !! component) as [child|].
    + apply throws_only_bind; [apply throws_only_silent, silent_read_deref|]. intros cn.
      destruct (decide (getType cn ≠ Directory)); [apply throws_only_throw; in_kinds|apply IH].
    + apply throws_only_bind; [apply throws_only_silent, silent_make_shared|]. intros p.
      apply throws_only_bind; [apply throws_only_silent, silent_store_child|]. intros _.
      apply IH.
Qed.

(** X14.  The exceptions each operation can throw.  [mkdir] throws only
    when a file is in the way.  The others throw what the resolution of
    their path throws (an invalid path, a component that is not found, a
    file where a directory is needed) and one or two kinds of their own;
    [mv] never throws [AlreadyExists], and throws [InternalError] for a
    source other than "/" that resolves to the root. *)
Theorem exceptions_of_the_operations :
  (∀ path, throws_only [NotADirectory] (mkdir path))
  ∧ (∀ path, throws_only [InvalidPath; NotFound; NotADirectory; NotAFile] (touch path))
  ∧ (∀ path content,
       throws_only [InvalidPath; NotFound; NotADirectory; IsADirectory]
         (writeFile path content))
  ∧ (∀ path content,
       throws_only [InvalidPath; NotFound; NotADirectory; NotAFile] (append path content))
  ∧ (∀ path recursive,
       throws_only [InvalidPath; NotFound; NotADirectory; DirectoryNotEmpty]
         (rm path recursive))
  ∧ (∀ fuel src dest,
       throws_only [InvalidPath; NotFound; NotADirectory; AlreadyExists] (cp fuel src dest))
  ∧ (∀ fuel src dest,
       throws_only [InvalidPath; NotFound; NotADirectory; CyclicMove; InternalError]
         (mv fuel src dest))
  ∧ (∀ path, throws_only [InvalidPath; NotFound; NotADirectory; NotAFile] (read (cat path)))
  ∧ (∀ path, throws_only [InvalidPath; NotFound; NotADirectory] (read (ls path)))
  ∧ (∀ path, throws_only [InvalidPath; NotFound; NotADirectory] (read (getNodeType path)))
  ∧ (∀ fuel path, throws_only [InvalidPath; NotFound; NotADirectory] (read (size fuel path)))
  ∧ (∀ fuel, mv fuel "/." "/x" FileSystem_new = (Throw InternalError, FileSystem_new)).
Proof.
  split_and!.
  - intros path fs e fs'. unfold mkdir. destruct (decide (path = "/")); [done|].
    apply throws_only_mkdir_loop.
  - intros path fs e fs' [H| ->]%touch_throws; [|in_kinds].
    apply resolveParentAndName_throws in H as [->|[->| ->]]; in_kinds.
  - intros path content fs e fs' [H| ->]%writeFile_throws; [|in_kinds].
    apply resolveParentAndName_throws in H as [->|[->| ->]]; in_kinds.
  - intros path content. unfold append.
    apply throws_only_bind; [apply throws_only_resolvePath; in_kinds|]. intros node.
    apply throws_only_bind; [apply throws_only_silent, silent_read_deref|]. intros nd.
    destruct (data nd).
    + apply throws_only_silent, silent_modify_node.
    + apply throws_only_throw. in_kinds.
  - intros path recursive fs e fs' [H|[->| ->]]%rm_throws; [|in_kinds..].
    apply resolveParentAndName_throws in H as [->|[->| ->]]; in_kinds.
  - intros fuel src dest. unfold cp.
    apply throws_only_bind; [apply throws_only_resolvePath; in_kinds|]. intros s.
    apply throws_only_bind; [apply throws_only_silent, silent_read_deref|]. intros sn.
    apply throws_only_bind; [apply throws_only_resolveDestination; in_kinds|].
    intros [destParent newName].
    apply throws_only_bind; [apply throws_only_silent, silent_read_children_of|].
    intros siblings.
    destruct (siblings !! newName); [apply throws_only_throw; in_kinds|].
    apply throws_only_silent. destruct (data sn).
    + apply silent_bind; [apply silent_make_shared|]. intros q. apply silent_store_child.
    + apply silent_bind; [apply silent_make_shared|]. intros q.
      apply silent_bind; [apply silent_store_child|]. intros _. apply silent_recursiveCopy.
  - intros fuel src dest. unfold mv.
    destruct (decide (src = "/")); [apply throws_only_throw; in_kinds|].
    apply throws_only_bind; [apply throws_only_resolvePath; in_kinds|]. intros s.
    apply throws_only_bind; [apply throws_only_silent, silent_read_deref|]. intros sn.
    apply throws_only_bind; [by apply throws_only_read|]. intros [oldParent|];
      [|apply throws_only_throw; in_kinds].
    apply throws_only_bind; [apply throws_only_resolveDestination; in_kinds|].
    intros [newParent newName].
    apply throws_only_bind.
    { apply throws_only_read. intros fs e ->%mv_guard_throws. in_kinds. }
    intros _. apply throws_only_silent.
    apply silent_bind; [apply silent_erase_child|]. intros _.
    apply silent_bind; [apply silent_modify_node|]. intros _. apply silent_store_child.
  - intros path. apply throws_only_read. intros fs e. unfold cat.
    destruct (_resolvePath path fs) as [node|e0| |] eqn:Hres; simpl; [|intros [= <-]|done..].
    + unfold deref. destruct (heap fs !! node) as [nd|]; simpl; [|done].
      destruct (data nd); [done|]. intros [= <-]. in_kinds.
    + apply resolvePath_throws in Hres as [->|[->| ->]]; in_kinds.
  - intros path. apply throws_only_read. intros fs e. unfold ls, ls_in_order.
    destruct (_resolvePath path fs) as [node|e0| |] eqn:Hres; simpl; [|intros [= <-]|done..].
    + unfold deref. destruct (heap fs !! node) as [nd|]; simpl; [|done].
      destruct (data nd) as [|children]; [intros [= <-]; in_kinds|].
      destruct (ls_entries (map_to_list children) fs) as [entries|e0| |] eqn:Hls;
        simpl; [done| |done..].
      exfalso. revert Hls. unfold ls_entries. clear.
      generalize (map_to_list children). intros l. revert e0.
      induction l as [|[k c] l IH]; intros e0; simpl; [done|].
      unfold deref. destruct (heap fs !! c); simpl; [|done].
      destruct (mapM _ l) eqn:Hl; simpl; try done. intros [= <-]. by eapply IH.
    + apply resolvePath_throws in Hres as [->|[->| ->]]; in_kinds.
  - intros path. apply throws_only_read. intros fs e. unfold getNodeType.
    destruct (_resolvePath path fs) as [node|e0| |] eqn:Hres; simpl; [|intros [= <-]|done..].
    + unfold deref. by destruct (heap fs !! node).
    + apply resolvePath_throws in Hres as [->|[->| ->]]; in_kinds.
  - intros fuel path. apply throws_only_read. intros fs e. unfold size.
    destruct (_resolvePath path fs) as [node|e0| |] eqn:Hres; simpl; [|intros [= <-]|done..].
    + intros H. exfalso. clear Hres. revert node e H. induction fuel as [|fuel IH]; intros p e;
        simpl; [done|].
      unfold deref. destruct (heap fs !! p) as [nd|]; simpl; [|done].
      destruct (data nd) as [|children]; [done|].
      generalize (map_to_list children) 0%Z. intros l. induction l as [|[k c] l IHl];
        intros acc; simpl; [done|].
      destruct (FSNode_size fuel fs c) as [s|e0| |] eqn:Hs; simpl; try done.
      * apply IHl.
      * by apply IH in Hs.
    + apply resolvePath_throws in Hres as [->|[->| ->]]; in_kinds.
  - intros fuel. reflexivity.
Qed.

Lemma exceptions_of_the_operations_witness :
  mkdir "/notes/x" fs_notes = (Throw NotADirectory, fs_notes)
  ∧ NotADirectory ∈ [NotADirectory].
Proof.
  split; [vm_compute; reflexivity|].
  destruct exceptions_of_the_operations as (Hmkdir & _).
  apply (Hmkdir "/notes/x" fs_notes NotADirectory fs_notes). vm_compute. reflexivity.
Defined.

(** ** [mv]: the guard, and where the node ends up *)

Lemma reachable_entry fs p nd :
  wf fs → reachable fs p → p ≠ root fs → heap fs !! p = Some nd →
  ∃ d dn siblings,
    parent nd = Some d ∧ heap fs !! d = Some dn ∧ data dn = DirectoryNode siblings
    ∧ siblings !! name nd = Some p ∧ reachable fs d.
Proof.
  intros Hwf [ancestors Hch] Hnr Hnd.
  destruct Hch as [|d ancestors c Hd (dn & siblings & k & Hdn & Hdata & Hk)]; [done|].
  destruct (wf_child fs Hwf d dn siblings k c Hdn Hdata Hk) as (cn & Hcn & Hp & Hn).
  assert (cn = nd) as -> by congruence. subst k.
  exists d, dn, siblings. split_and!; try done. by eexists.
Qed.

(** Up the parents of a node that is reached from the root, the loop of
    [mv] ends: at the node that is moved, or past the root. *)
Lemma mv_guard_chain fs s np ancestors :
  wf fs →
  chain fs np ancestors →
  ∀ fuel, length (np :: ancestors) ≤ fuel →
    mv_guard fuel (Some np) s fs
    = if decide (s ∈ np :: ancestors) then Throw CyclicMove else Ret tt.
Proof.
  intros Hwf. induction 1 as [|d ancestors c Hd IH Hedge]; intros [|fuel] Hfuel;
    simpl in Hfuel; try lia; simpl.
  - destruct (decide (root fs = s)) as [Heq|Hne].
    + rewrite decide_True; [done|]. rewrite Heq. by left.
    + rewrite decide_False; [|intros [Heq|[]%elem_of_nil]%elem_of_cons; by destruct Hne].
      destruct (wf_root fs Hwf) as [children Hr]. unfold deref. rewrite Hr. simpl.
      by destruct fuel.
  - destruct (decide (c = s)) as [Heq|Hne].
    + rewrite decide_True; [done|]. rewrite Heq. by left.
    + destruct (child_edge_inv fs Hwf d c Hedge) as ((dn & ? & Hdn & _) & cn & Hcn & Hp).
      unfold deref. rewrite Hcn. simpl. rewrite Hp. unfold lock. rewrite Hdn.
      rewrite IH by (simpl; lia).
      destruct (decide (s ∈ d :: ancestors)) as [Hin|Hin].
      * rewrite decide_True; [done|]. by right.
      * rewrite decide_False; [done|]. intros [Heq|?]%elem_of_cons; [by destruct Hne|done].
Qed.

(** The nodes on the way from the root to [np] are those from which entries
    lead down to [np]. *)
Lemma chain_above fs s np ancestors :
  wf fs →
  chain fs np ancestors →
  s ∈ np :: ancestors ↔ ∃ k, nsteps (child_edge fs) k s np.
Proof.
  intros Hwf Hch. split.
  - induction Hch as [|d ancestors c Hd IH Hedge].
    + intros [->|[]%elem_of_nil]%elem_of_cons. exists 0. constructor.
    + intros [->|Hin]%elem_of_cons; [exists 0; constructor|].
      destruct (IH Hin) as [k Hk]. exists (S k). by eapply nsteps_r.
  - intros [k Hk]. revert np ancestors Hch Hk.
    induction k as [|k IH]; intros np ancestors Hch Hk.
    + inversion Hk; subst. by left.
    + apply nsteps_inv_r in Hk as (d & Hk & Hedge).
      destruct (child_edge_inv fs Hwf d np Hedge) as (_ & cn & Hcn & Hp).
      destruct Hch as [|d' ancestors c Hd' Hedge'].
      * by rewrite (wf_root_parent fs Hwf cn Hcn) in Hp.
      * destruct (child_edge_inv fs Hwf d' c Hedge') as (_ & cn' & Hcn' & Hp').
        assert (d' = d) as -> by congruence.
        right. by apply (IH d ancestors).
Qed.

Lemma resolveDestination_wf fs dest nm :
  wf fs →
  (∃ d nn, _resolveDestination dest nm fs = Ret (d, nn) ∧ reachable fs d ∧ is_dir fs d)
  ∨ (∃ e, _resolveDestination dest nm fs = Throw e).
Proof.
  intros Hwf.
  assert ((∃ d nn, _resolveParentAndName dest fs = Ret (d, nn) ∧ reachable fs d ∧ is_dir fs d)
          ∨ (∃ e, _resolveParentAndName dest fs = Throw e)) as Hrpn.
  { unfold _resolveParentAndName.
    destruct (decide (dest = "" ∨ dest = "/")); [right; eauto|].
    destruct (find_last_of dest "/") as [i|]; [|right; eauto].
    destruct (decide (substr_from (i + 1) dest = "")); [right; eauto|].
    destruct (resolvePath_wf fs Hwf (if decide (i = 0) then "/" else substring 0 i dest))
      as [(node & -> & Hreach)|[e ->]]; [|right; eauto]. simpl.
    destruct Hreach as [ancestors Hch].
    destruct (chain_in_heap fs Hwf node ancestors Hch) as [nd Hnd].
    unfold deref. rewrite Hnd. simpl.
    destruct (decide (getType nd ≠ Directory)) as [|Hty]; [right; eauto|left].
    eexists _, _. split; [done|]. split; [by eexists|].
    unfold getType in Hty. destruct (data nd) eqn:Hdata; [by destruct Hty|]. by eexists _, _. }
  unfold _resolveDestination, _resolveDestination_try.
  destruct (resolvePath_wf fs Hwf dest) as [(node & -> & Hreach)|[e ->]]; [|done]. simpl.
  destruct Hreach as [ancestors Hch].
  destruct (chain_in_heap fs Hwf node ancestors Hch) as [nd Hnd].
  unfold deref. rewrite Hnd. simpl.
  destruct (data nd) as [|children] eqn:Hdata; [done|].
  destruct (children !! nm); [done|]. simpl. left.
  eexists _, _. split; [done|]. split; [by eexists|by eexists _, _].
Qed.

(** What [mv] does once the guard has let it pass: the node keeps its handle
    and its data, and changes its labels; its old parent loses one entry and
    its new parent gains one; nothing else changes. *)
Lemma mv_run fs fuel src dest s sn np nn ancestors :
  wf fs →
  _resolvePath src fs = Ret s →
  s ≠ root fs →
  heap fs !! s = Some sn →
  _resolveDestination dest (name sn) fs = Ret (np, nn) →
  chain fs np ancestors →
  s ∉ np :: ancestors →
  length (np :: ancestors) ≤ fuel →
  ∃ fs' op,
    mv fuel src dest fs = (Ret tt, fs')
    ∧ root fs' = root fs
    ∧ parent sn = Some op
    ∧ heap fs' !! s = Some (mkFSNode nn (Some np) (data sn))
    ∧ (∀ p pn children,
         p ≠ s → heap fs !! p = Some pn → data pn = DirectoryNode children →
         heap fs' !! p
         = Some (mkFSNode (name pn) (parent pn)
                   (DirectoryNode
                      ((if decide (p = np) then <[nn := s]> else id)
                         ((if decide (p = op) then delete (name sn) else id) children)))))
    ∧ (∀ p pn content,
         p ≠ s → heap fs !! p = Some pn → data pn = FileNode content →
         heap fs' !! p = Some pn).
Proof.
  intros Hwf Hsrc Hnr Hs Hdest Hch Hnotin Hfuel.
  assert (src ≠ "/") as Hsrc'.
  { intros ->. revert Hsrc. unfold _resolvePath. simpl. by intros [= <-]. }
  assert (reachable fs s) as Hreach.
  { destruct (resolvePath_wf fs Hwf src) as [(s' & Hs' & Hr)|[e He]]; congruence. }
  destruct (reachable_entry fs s sn Hwf Hreach Hnr Hs)
    as (op & opn & siblings & Hpar & Hop & Hopdata & Hsib & _).
  assert (s ≠ op) as Hsop.
  { intros <-. destruct Hreach as [anc Hanc].
    pose proof (chain_NoDup fs Hwf s anc Hanc) as Hnd.
    destruct Hanc as [|d anc' c Hd Hedge]; [done|].
    destruct (child_edge_inv fs Hwf d c Hedge) as (_ & cn & Hcn & Hp).
    assert (d = c) as -> by congruence.
    apply NoDup_cons in Hnd as [Hnd _]. apply Hnd. by left. }
  assert (np ≠ s) as Hnps.
  { intros ->. apply Hnotin. by left. }
  destruct (chain_in_heap fs Hwf np ancestors Hch) as [npn Hnp].
  assert (∃ entries, data npn = DirectoryNode entries) as [entries Hnpdata].
  { destruct (resolveDestination_wf fs dest (name sn) Hwf)
      as [(d' & nn' & Hd' & _ & (dn' & ch' & Hdn' & Hdata'))|[e He]]; [|congruence].
    assert (d' = np) as -> by congruence.
    assert (dn' = npn) as -> by congruence. eauto. }
  set (opn' := mkFSNode (name opn) (parent opn) (DirectoryNode (delete (name sn) siblings))).
  set (sn' := mkFSNode nn (Some np) (data sn)).
  set (h2 := <[s := sn']> (<[op := opn']> (heap fs))).
  assert (∃ npn2 entries2,
            h2 !! np = Some npn2 ∧ data npn2 = DirectoryNode entries2
            ∧ name npn2 = name npn ∧ parent npn2 = parent npn
            ∧ entries2 = (if decide (np = op) then delete (name sn) else id) entries)
    as (npn2 & entries2 & Hnp2 & Hnp2data & Hnp2name & Hnp2par & Hentries2).
  { unfold h2. rewrite lookup_insert_ne by done.
    destruct (decide (np = op)) as [->|Hne].
    - rewrite lookup_insert_eq. exists opn', (delete (name sn) siblings).
      assert (npn = opn) as -> by congruence.
      assert (entries = siblings) as -> by congruence. done.
    - rewrite lookup_insert_ne by done. by exists npn, entries. }
  exists (mkFileSystem
            (<[np := mkFSNode (name npn2) (parent npn2)
                       (DirectoryNode (<[nn := s]> entries2))]> h2) (root fs)), op.
  split_and!.
  - unfold mv. destruct (decide (src = "/")); [done|].
    unfold mbind at 1, M_bind at 1, read at 1. rewrite Hsrc.
    unfold mbind at 1, M_bind at 1, read at 1, deref at 1. rewrite Hs.
    unfold mbind at 1, M_bind at 1, read at 1. unfold lock at 1. rewrite Hpar, Hop.
    unfold mbind at 1, M_bind at 1, read at 1. rewrite Hdest.
    unfold mbind at 1, M_bind at 1, read at 1.
    rewrite (mv_guard_chain fs s np ancestors Hwf Hch fuel Hfuel).
    rewrite decide_False by done.
    unfold mbind at 1, M_bind at 1, erase_child, modify_children at 1.
    rewrite Hop, Hopdata.
    unfold mbind at 1, M_bind at 1, modify_node. simpl.
    rewrite lookup_insert_ne by done. rewrite Hs.
    unfold store_child, modify_children. simpl.
    fold opn'. fold sn'. fold h2. by rewrite Hnp2, Hnp2data.
  - done.
  - done.
  - simpl. rewrite lookup_insert_ne by done. unfold h2. apply lookup_insert_eq.
  - intros p pn children Hps Hp Hpdata. simpl.
    destruct (decide (p = np)) as [->|Hpnp].
    + rewrite lookup_insert_eq. rewrite Hnp2name, Hnp2par, Hentries2.
      assert (pn = npn) as -> by congruence.
      assert (children = entries) as -> by congruence. done.
    + rewrite lookup_insert_ne by done. unfold h2. rewrite lookup_insert_ne by done.
      destruct (decide (p = op)) as [->|Hpop].
      * rewrite lookup_insert_eq. unfold opn'.
        assert (pn = opn) as -> by congruence.
        assert (children = siblings) as -> by congruence. done.
      * rewrite lookup_insert_ne by done. rewrite Hp. destruct pn; simpl in *; by subst.
  - intros p pn content Hps Hp Hpdata. simpl.
    rewrite lookup_insert_ne by congruence. unfold h2.
    rewrite lookup_insert_ne by done. rewrite lookup_insert_ne by congruence. done.
Qed.

(** X15.  The guard of [mv] is exact, and its loop ends.  On a well-formed
    store, once [mv] has resolved a source other than the root and a
    destination, and is given a step for every node of the store, it throws
    [CyclicMove] exactly when the destination directory is the source or is
    reached from it through entries of directories, and it returns in every
    other case. *)
Theorem mv_guard_is_exact fs fuel src dest s sn np nn :
  wf fs →
  _resolvePath src fs = Ret s →
  s ≠ root fs →
  heap fs !! s = Some sn →
  _resolveDestination dest (name sn) fs = Ret (np, nn) →
  base.size (dom (heap fs)) ≤ fuel →
  (result (mv fuel src dest) fs = Throw CyclicMove
   ↔ ∃ k, nsteps (child_edge fs) k s np)
  ∧ (result (mv fuel src dest) fs = Ret tt
     ↔ ¬ ∃ k, nsteps (child_edge fs) k s np).
Proof.
  intros Hwf Hsrc Hnr Hs Hdest Hfuel.
  destruct (resolveDestination_wf fs dest (name sn) Hwf)
    as [(d' & nn' & Hd' & [ancestors Hch] & _)|[e He]]; [|congruence].
  assert (d' = np) as -> by congruence.
  pose proof (chain_length fs Hwf np ancestors Hch) as Hlen.
  pose proof (chain_above fs s np ancestors Hwf Hch) as Habove.
  destruct (decide (s ∈ np :: ancestors)) as [Hin|Hnotin].
  - destruct (proj1 Habove Hin) as [k Hk].
    assert (mv fuel src dest fs = (Throw CyclicMove, fs)) as Hrun.
    { assert (src ≠ "/") as Hsrc'.
      { intros ->. revert Hsrc. unfold _resolvePath. simpl. by intros [= <-]. }
      assert (reachable fs s) as Hreach.
      { destruct (resolvePath_wf fs Hwf src) as [(s' & Hs' & Hr)|[e He]]; congruence. }
      destruct (reachable_parent fs s sn Hwf Hreach Hnr Hs) as [op Hop].
      unfold mv. destruct (decide (src = "/")); [done|].
      unfold mbind at 1, M_bind at 1, read at 1. rewrite Hsrc.
      unfold mbind at 1, M_bind at 1, read at 1, deref at 1. rewrite Hs.
      unfold mbind at 1, M_bind at 1, read at 1. rewrite Hop.
      unfold mbind at 1, M_bind at 1, read at 1. rewrite Hdest.
      unfold mbind at 1, M_bind at 1, read at 1.
      rewrite (mv_guard_chain fs s np ancestors Hwf Hch fuel) by lia.
      by rewrite decide_True. }
    unfold result. rewrite Hrun. simpl. split; [split; eauto|]. split; [done|].
    intros Hno. destruct Hno. eauto.
  - destruct (mv_run fs fuel src dest s sn np nn ancestors) as (fs' & op & Hrun & _);
      try done; [lia|].
    unfold result. rewrite Hrun. simpl. split; [split; [done|]|].
    + intros Hk. by apply Habove in Hk.
    + split; [|done]. intros _ Hk. by apply Habove in Hk.
Qed.

Lemma mv_guard_is_exact_witness :
  result (mv 3 "/a/b" "/c") fs_a_b = Ret tt
  ∧ result (mv 3 "/a" "/a/b/c") fs_a_b = Throw CyclicMove.
Proof.
  assert (wf fs_a_b) as Hwf by (apply wfb_sound; vm_compute; reflexivity).
  split.
  - apply (mv_guard_is_exact fs_a_b 3 "/a/b" "/c" 3%positive
             (mkFSNode "b" (Some 2%positive) (DirectoryNode ∅)) 1%positive "c");
      [done|vm_compute; reflexivity|done|vm_compute; reflexivity|vm_compute; reflexivity
      |vm_compute; lia|].
    intros Hk.
    apply (chain_above fs_a_b 3%positive 1%positive [] Hwf (chain_root fs_a_b)) in Hk.
    by apply list_elem_of_singleton in Hk.
  - apply (mv_guard_is_exact fs_a_b 3 "/a" "/a/b/c" 2%positive
             (mkFSNode "a" (Some 1%positive) (DirectoryNode {[ "b" := 3%positive ]}))
             3%positive "c");
      [done|vm_compute; reflexivity|done|vm_compute; reflexivity|vm_compute; reflexivity
      |vm_compute; lia|].
    exists 1. apply nsteps_once.
    exists (mkFSNode "a" (Some 1%positive) (DirectoryNode {[ "b" := 3%positive ]})),
      {[ "b" := 3%positive ]}, "b".
    split_and!; vm_compute; reflexivity.
Defined.

(** A walk that ends in a directory has passed through directories only: it
    goes the same way in a store that has kept the directories. *)
Lemma resolve_loop_keeps_directories fs fs' components current d :
  wf fs →
  keeps_directories fs fs' →
  reachable fs current → is_dir fs current →
  resolve_loop fs components current = Ret d →
  is_dir fs d →
  resolve_loop fs' components current = Ret d.
Proof.
  intros Hwf [Hroot Hkeep]. revert current.
  induction components as [|t rest IH]; intros current Hreach Hdir; simpl; [done|].
  destruct (decide (t = "" ∨ t = ".")) as [_|_]; [by apply IH|].
  destruct (decide (t = "..")) as [_|_].
  - rewrite Hroot. destruct (decide (current ≠ root fs)) as [Hnr|_]; [|by apply IH].
    destruct Hreach as [ancestors Hch].
    destruct Hch as [|p ancestors c Hp Hedge]; [done|].
    destruct (child_edge_inv fs Hwf p c Hedge) as ((pn & pch & Hpn & Hpdata) & cn & Hcn & Hpar).
    destruct Hdir as (cn0 & cch & Hcn0 & Hcdata).
    assert (cn0 = cn) as -> by congruence.
    destruct (Hkeep c cn cch Hcn Hcdata) as (cch' & Hc' & _).
    destruct (Hkeep p pn pch Hpn Hpdata) as (pch' & Hp' & _).
    unfold deref. rewrite Hcn, Hc'. simpl. rewrite Hpar. unfold lock. rewrite Hpn, Hp'.
    apply IH; [by eexists|by eexists _, _].
  - destruct Hdir as (nd & children & Hnd & Hdata).
    destruct (Hkeep current nd children Hnd Hdata) as (children' & Hcur' & Hentries).
    unfold children_of. rewrite Hnd, Hcur', Hdata. simpl.
    destruct (children !! t) as [child|] eqn:Hchild; [|done].
    assert (child_edge fs current child) as Hedge by (by eexists _, _, _).
    destruct (child_edge_inv fs Hwf current child Hedge) as (_ & cn & Hcn & Hp).
    unfold deref. rewrite Hcn. simpl. unfold getType.
    destruct (data cn) as [content|grandchildren] eqn:Hcdata.
    + destruct (decide (rest ≠ [])); [done|]. intros [= <-] (? & ? & ? & ?). congruence.
    + intros Hwalk Hd.
      assert (is_dir fs child) as Hcdir by (by eexists _, _).
      rewrite (Hentries t child Hchild Hcdir).
      destruct (Hkeep child cn grandchildren Hcn Hcdata) as (gch' & -> & _). simpl.
      apply IH; [|done|done|done].
      destruct Hreach as [ancestors Hch]. eexists. by eapply chain_child.
Qed.

Lemma children_of_Ret fs d children :
  children_of d fs = Ret children ↔
  ∃ dn, heap fs !! d = Some dn ∧ data dn = DirectoryNode children.
Proof.
  unfold children_of. split.
  - destruct (heap fs !! d) as [dn|]; [|done].
    destruct (data dn) eqn:Hdata; [done|]. intros [= ->]. eauto.
  - intros (dn & -> & ->). done.
Qed.

(** What [mv] does with a file: the directories stay as they are, but for
    the entry taken out and the entry put in. *)
Lemma mv_file_run fs fuel src dest s sn content np nn entries :
  wf fs →
  _resolvePath src fs = Ret s →
  heap fs !! s = Some sn →
  data sn = FileNode content →
  _resolveDestination dest (name sn) fs = Ret (np, nn) →
  children_of np fs = Ret entries →
  (∀ c, entries !! nn = Some c → ¬ is_dir fs c) →
  base.size (dom (heap fs)) ≤ fuel →
  ∃ fs' op entries',
    mv fuel src dest fs = (Ret tt, fs')
    ∧ parent sn = Some op
    ∧ keeps_directories fs fs'
    ∧ heap fs' !! s = Some (mkFSNode nn (Some np) (FileNode content))
    ∧ children_of np fs' = Ret entries'
    ∧ entries' !! nn = Some s
    ∧ ((op, name sn) ≠ (np, nn) → exists_ src fs' = Ret false).
Proof.
  intros Hwf Hsrc Hs Hsdata Hdest Hentries Hocc Hfuel.
  assert (¬ is_dir fs s) as Hsfile.
  { intros (? & ? & ? & ?). congruence. }
  assert (s ≠ root fs) as Hnr.
  { intros ->. by apply Hsfile, wf_root_dir. }
  destruct (resolveDestination_wf fs dest (name sn) Hwf)
    as [(d' & nn' & Hd' & [ancestors Hch] & Hnpdir)|[e He]]; [|congruence].
  assert (d' = np) as -> by congruence. clear Hd' nn'.
  assert (s ∉ np :: ancestors) as Hnotin.
  { intros [k Hk]%(chain_above fs s np ancestors Hwf Hch).
    destruct k as [|k].
    - inversion Hk; subst. done.
    - inversion Hk as [|? ? x ? (nd & ch & ? & Hnd & Hdata & _) _]; subst.
      apply Hsfile. by eexists _, _. }
  pose proof (chain_length fs Hwf np ancestors Hch) as Hlen.
  destruct (mv_run fs fuel src dest s sn np nn ancestors)
    as (fs' & op & Hrun & Hroot & Hpar & Hs' & Hdirs & Hfiles); try done; [lia|].
  apply children_of_Ret in Hentries as (npn & Hnp & Hnpdata).
  assert (np ≠ s) as Hnps by (intros ->; apply Hnotin; by left).
  assert (keeps_directories fs fs') as Hkeep.
  { split; [done|]. intros p pn children Hp Hpdata.
    assert (p ≠ s) as Hps by congruence.
    eexists. split; [by apply Hdirs|]. intros k c Hk Hcdir.
    assert (c ≠ s) as Hcs by (by intros ->).
    assert ((if decide (p = op) then delete (name sn) else id) children !! k = Some c) as Hk1.
    { destruct (decide (p = op)) as [->|_]; [|done].
      apply lookup_delete_Some. split; [|done]. intros <-.
      destruct (reachable_entry fs s sn Hwf) as (op' & opn & siblings & Hpar' & Hop & Hopdata
                                                & Hsib & _); try done.
      { destruct (resolvePath_wf fs Hwf src) as [(s' & Hs'' & Hr)|[e He]]; congruence. }
      assert (op' = op) as -> by congruence.
      assert (opn = pn) as -> by congruence.
      assert (siblings = children) as -> by congruence. congruence. }
    destruct (decide (p = np)) as [->|_]; [|done].
    rewrite lookup_insert_ne; [done|]. intros <-.
    assert (pn = npn) as -> by congruence.
    assert (children = entries) as -> by congruence.
    destruct (decide (np = op)) as [->|_].
    - apply lookup_delete_Some in Hk1 as [_ Hk1]. by apply (Hocc c).
    - by apply (Hocc c). }
  assert (reachable fs (root fs)) as Hrr by (eexists; constructor).
  pose proof (wf_root_dir fs Hwf) as Hrd.
  pose proof (Hdirs np npn entries Hnps Hnp Hnpdata) as Hnp'.
  rewrite decide_True in Hnp' by done.
  eexists fs', op, _. split_and!; try done.
  - by rewrite Hs', Hsdata.
  - unfold children_of. by rewrite Hnp'.
  - by rewrite lookup_insert_eq.
  - intros Hne.
    destruct (resolvePath_inv fs src s Hwf Hsrc) as (Hsrc0 & Hreach & [Hsdir|Hfile]); [done|].
    destruct Hfile as (l & k & dd & ddn & dch & fn & content' & Htokens & Hwalk & Hdd & Hdddata
                       & Hk & (Hk0 & Hk1 & Hk2) & _).
    destruct (wf_child fs Hwf dd ddn dch k s Hdd Hdddata Hk) as (sn' & Hsn' & Hp' & Hname').
    assert (sn' = sn) as -> by congruence.
    assert (dd = op) as -> by congruence. subst k.
    assert (is_dir fs op) as Hopdir by (by eexists _, _).
    pose proof (resolve_loop_keeps_directories fs fs' l (root fs) op Hwf Hkeep Hrr Hrd
                  Hwalk Hopdir) as Hwalk'.
    assert (op ≠ s) as Hops by congruence.
    pose proof (Hdirs op ddn dch Hops Hdd Hdddata) as Hop'.
    rewrite (decide_True (P := op = op)) in Hop' by done.
    unfold exists_. rewrite resolvePath_walk by done. rewrite Htokens, Hroot.
    rewrite (resolve_loop_app fs' l _ (root fs) op Hwalk') by (by eexists _, _).
    erewrite resolve_loop_name; [|by unfold children_of; rewrite Hop'|done..].
    destruct (decide (op = np)) as [->|_].
    + rewrite lookup_insert_ne by congruence. by rewrite lookup_delete_eq.
    + simpl. by rewrite lookup_delete_eq.
Qed.

(** The path that named the entry put in leads to the file. *)
Lemma resolvePath_moved fs fs' q s sn np nn entries' :
  wf fs →
  keeps_directories fs fs' →
  _resolveParentAndName q fs = Ret (np, nn) →
  nn ≠ "." → nn ≠ ".." →
  children_of np fs' = Ret entries' →
  entries' !! nn = Some s →
  heap fs' !! s = Some sn →
  _resolvePath q fs' = Ret s.
Proof.
  intros Hwf Hkeep Hrpn Hn1 Hn2 Hnp' Hnn Hs'.
  destruct (resolveParentAndName_Ret q fs np nn Hrpn)
    as (prefix & npn & entries & Hnp & Hnpdata & Hn0 & Hq1 & Hq2 & Hwalk & Htokens).
  assert (reachable fs (root fs)) as Hrr by (eexists; constructor).
  pose proof (resolve_loop_keeps_directories fs fs' prefix (root fs) np Hwf Hkeep Hrr
                (wf_root_dir fs Hwf) Hwalk ltac:(by eexists _, _)) as Hwalk'.
  destruct Hkeep as [Hroot _].
  rewrite resolvePath_walk by done. rewrite Htokens, Hroot.
  rewrite (resolve_loop_app fs' prefix _ (root fs) np Hwalk').
  - erewrite resolve_loop_name; [|done..]. by rewrite Hnn, Hs'.
  - apply children_of_Ret in Hnp' as (? & ? & ?). by eexists _, _.
Qed.

(** X16.  [mv] moves a file.  On a well-formed store, when the source is a
    file and the name [nn] that [_resolveDestination] gives in the directory
    [np] is free or holds a file, [mv] returns; afterwards, when [nn] is
    neither "." nor "..", every path that used to split into [np] and [nn]
    leads to the very node that was moved, with its content; and the source
    path no longer resolves (unless the file was moved onto its own
    entry). *)
Theorem mv_moves_a_file fs fuel src dest s sn content np nn entries :
  wf fs →
  _resolvePath src fs = Ret s →
  heap fs !! s = Some sn →
  data sn = FileNode content →
  _resolveDestination dest (name sn) fs = Ret (np, nn) →
  children_of np fs = Ret entries →
  (∀ c, entries !! nn = Some c → ¬ is_dir fs c) →
  base.size (dom (heap fs)) ≤ fuel →
  ∃ fs' op,
    mv fuel src dest fs = (Ret tt, fs')
    ∧ parent sn = Some op
    ∧ (∀ q, _resolveParentAndName q fs = Ret (np, nn) →
            nn ≠ "." → nn ≠ ".." →
            _resolvePath q fs' = Ret s ∧ cat q fs' = Ret content)
    ∧ ((op, name sn) ≠ (np, nn) → exists_ src fs' = Ret false).
Proof.
  intros Hwf Hsrc Hs Hsdata Hdest Hentries Hocc Hfuel.
  destruct (mv_file_run fs fuel src dest s sn content np nn entries)
    as (fs' & op & entries' & Hrun & Hpar & Hkeep & Hs' & Hnp' & Hnn & Hgone); try done.
  exists fs', op. split_and!; try done.
  intros q Hrpn Hn1 Hn2.
  pose proof (resolvePath_moved fs fs' q s _ np nn entries' Hwf Hkeep Hrpn Hn1 Hn2 Hnp' Hnn
                Hs') as Hq.
  split; [done|]. apply cat_Ret. by eexists _, _.
Qed.

Lemma mv_moves_a_file_witness :
  ∃ fs' op,
    mv 3 "/notes" "/home" fs_notes = (Ret tt, fs')
    ∧ Some 1%positive = Some op
    ∧ (∀ q, _resolveParentAndName q fs_notes = Ret (2%positive, "notes") →
            "notes" ≠ "." → "notes" ≠ ".." →
            _resolvePath q fs' = Ret 3%positive
            ∧ cat q fs' = Ret [xde; xad; xbe; xef]%byte)
    ∧ ((op, "notes") ≠ (2%positive, "notes") → exists_ "/notes" fs' = Ret false).
Proof.
  apply (mv_moves_a_file fs_notes 3 "/notes" "/home" 3%positive
           (mkFSNode "notes" (Some 1%positive) (FileNode [xde; xad; xbe; xef]%byte))
           [xde; xad; xbe; xef]%byte 2%positive "notes" ∅).
  - apply wfb_sound. vm_compute. reflexivity.
  - vm_compute. reflexivity.
  - vm_compute. reflexivity.
  - reflexivity.
  - vm_compute. reflexivity.
  - vm_compute. reflexivity.
  - intros c Hc. by rewrite lookup_empty in Hc.
  - vm_compute. lia.
Defined.

(** ** [cp] *)

Lemma leads_down fs x s c : leads fs x s → child_edge fs x c → leads fs c s.
Proof.
  induction 1 as [|y c0 Hne Hedge _ IH]; intros Hxc.
  - destruct (decide (x = c)) as [->|Hne]; [constructor|].
    apply (leads_step fs c x c); [done|done|constructor].
  - destruct (decide (y = c)) as [->|Hyc]; [constructor|].
    apply (leads_step fs c y c0); [done|done|by apply IH].
Qed.

Lemma leads_in_heap fs x s :
  wf fs → is_Some (heap fs !! s) → leads fs x s → is_Some (heap fs !! x).
Proof.
  intros Hwf Hs. induction 1 as [|y c Hne Hedge _ IH]; [done|].
  apply IH. destruct (child_edge_inv fs Hwf y c Hedge) as (_ & cn & -> & _). eauto.
Qed.

Lemma mirrors_preserved new n fs0 fs fs' :
  (∀ z zn, new z → heap fs !! z = Some zn → heap fs' !! z = Some zn) →
  ∀ x y, new y → mirrors new n fs0 x fs y → mirrors new n fs0 x fs' y.
Proof.
  intros Hsame. induction n as [|n IH]; intros x y Hy; simpl.
  - destruct (heap fs0 !! x) as [xn|]; [|done].
    destruct (heap fs !! y) as [yn|] eqn:Hyn; [|done].
    by rewrite (Hsame y yn Hy Hyn).
  - destruct (heap fs0 !! x) as [xn|]; [|done].
    destruct (heap fs !! y) as [yn|] eqn:Hyn; [|done].
    rewrite (Hsame y yn Hy Hyn).
    destruct (data xn) as [|children], (data yn) as [|children']; try done.
    intros [Hdom Hch]. split; [done|]. intros k a b Ha Hb.
    destruct (Hch k a b Ha Hb) as [Hnew Hm]. split; [done|]. by apply IH.
Qed.

Lemma mirrors_weaken (new new' : ptr → Prop) n fs0 fs :
  (∀ z, new z → new' z) →
  ∀ x y, mirrors new n fs0 x fs y → mirrors new' n fs0 x fs y.
Proof.
  intros Hsub. induction n as [|n IH]; intros x y; simpl; [done|].
  destruct (heap fs0 !! x) as [xn|]; [|done].
  destruct (heap fs !! y) as [yn|]; [|done].
  destruct (data xn) as [|children], (data yn) as [|children']; try done.
  intros [Hdom Hch]. split; [done|]. intros k a b Ha Hb.
  destruct (Hch k a b Ha Hb) as [Hnew Hm]. split; [by apply Hsub|]. by apply IH.
Qed.

(** [_recursiveCopy] into a directory that is not in the tree it copies.
    [fs0] is the store when the copy begins, [s0] the directory copied: what
    lies below [s0] is not changed while it is copied, so the recursion goes
    down a tree of bounded depth, and the copy mirrors the tree. *)
Section outside_subtree.
Context (fs0 : FileSystem) (s0 : ptr).
Hypothesis Hwf0 : wf fs0.
Hypothesis Hs0 : is_Some (heap fs0 !! s0).

Lemma below_kept_frame fs fs' dest :
  below_kept fs0 s0 fs → ¬ leads fs0 dest s0 → frame fs fs' dest → below_kept fs0 s0 fs'.
Proof.
  intros Hkept Hdest Hfr x nd Hx Hnd. apply Hfr; [by apply Hkept|]. by intros ->.
Qed.

Lemma fresh_not_below fs : below_kept fs0 s0 fs → ¬ leads fs0 (fresh (dom (heap fs))) s0.
Proof.
  intros Hkept Hleads.
  destruct (leads_in_heap fs0 _ s0 Hwf0 Hs0 Hleads) as [nd Hnd].
  pose proof (fresh_not_in_heap fs) as Hfresh.
  by rewrite (Hkept _ nd Hleads Hnd) in Hfresh.
Qed.

Lemma copy_entries_copies fuel source ancestors sn children dest dn fsS :
  (∀ c dest' dn' fs,
     chain fs0 c (source :: ancestors) → leads fs0 c s0 → is_dir fs0 c →
     below_kept fs0 s0 fs → ¬ leads fs0 dest' s0 →
     heap fs !! dest' = Some dn' → data dn' = DirectoryNode ∅ →
     ∃ fs' children',
       _recursiveCopy fuel c dest' fs = (Ret tt, fs')
       ∧ heap fs' !! dest'
         = Some (mkFSNode (name dn') (parent dn') (DirectoryNode children'))
       ∧ mirrors (λ z, heap fs !! z = None) fuel fs0 c fs' dest') →
  chain fs0 source ancestors → leads fs0 source s0 →
  heap fs0 !! source = Some sn → data sn = DirectoryNode children →
  ¬ leads fs0 dest s0 →
  is_Some (heap fsS !! dest) →
  ∀ entries fs dch,
    (∀ k c, (k, c) ∈ entries → children !! k = Some c) →
    below_kept fs0 s0 fs →
    (∀ z, is_Some (heap fsS !! z) → is_Some (heap fs !! z)) →
    heap fs !! dest = Some (mkFSNode (name dn) (parent dn) (DirectoryNode dch)) →
    (∀ k y, dch !! k = Some y →
       ∃ x, children !! k = Some x ∧ heap fsS !! y = None
            ∧ mirrors (λ z, heap fsS !! z = None) fuel fs0 x fs y) →
    ∃ fs' dch',
      copy_entries (_recursiveCopy fuel) dest entries fs = (Ret tt, fs')
      ∧ heap fs' !! dest = Some (mkFSNode (name dn) (parent dn) (DirectoryNode dch'))
      ∧ (∀ k y, dch' !! k = Some y →
           ∃ x, children !! k = Some x ∧ heap fsS !! y = None
                ∧ mirrors (λ z, heap fsS !! z = None) fuel fs0 x fs' y)
      ∧ (∀ k, is_Some (dch !! k) → is_Some (dch' !! k))
      ∧ (∀ k c, (k, c) ∈ entries → is_Some (dch' !! k)).
Proof.
  intros IH Hch Hleads Hsn Hdata Hdest HdestS.
  induction entries as [|[k c] rest IHrest]; intros fs dch Hentries Hkept Hgrown Hd Hinv;
    simpl.
  { exists fs, dch. split_and!; try done. intros k c Hin. by apply elem_of_nil in Hin. }
  assert (children !! k = Some c) as Hk by (apply Hentries; by left).
  assert (child_edge fs0 source c) as Hedge by (by eexists _, _, _).
  destruct (wf_child fs0 Hwf0 source sn children k c Hsn Hdata Hk) as (cn & Hcn & _ & Hname).
  assert (leads fs0 c s0) as Hc by (by eapply leads_down).
  unfold mbind at 1, M_bind at 1, read at 1, deref at 1.
  rewrite (Hkept c cn Hc Hcn). rewrite Hname.
  pose proof (fresh_not_in_heap fs) as Hfresh.
  set (p := fresh (dom (heap fs))) in *.
  assert (heap fsS !! p = None) as HpS.
  { destruct (heap fsS !! p) eqn:HpS; [|done].
    destruct (Hgrown p) as [? Hp]; [by eexists|congruence]. }
  assert (p ≠ dest) as Hpd by congruence.
  assert (∀ fs2,
            frame fs fs2 dest →
            ∀ z zn, heap fsS !! z = None → heap fs !! z = Some zn → heap fs2 !! z = Some zn)
    as Hold.
  { intros fs2 Hfr z zn Hz Hzn. apply Hfr; [done|]. intros ->.
    destruct HdestS as [? HdestS]. congruence. }
  destruct (data cn) as [content|grandchildren] eqn:Hcdata.
  - rewrite (create_bind dest _ _ _ fs _ dch Hd eq_refl). fold p.
    set (fs2 := created _ _ _ _ _ _).
    assert (frame fs fs2 dest) as Hfr2 by (by apply created_frame).
    destruct (IHrest fs2 (<[k := p]> dch)) as (fs' & dch' & Hrun & Hd' & Hinv' & Hkeys & Hin').
    + intros k' c' Hin. apply Hentries. by right.
    + by apply (below_kept_frame fs _ dest).
    + intros z Hz. destruct (Hgrown z Hz) as [zn Hzn].
      destruct (decide (z = dest)) as [->|Hne]; [|rewrite (Hfr2 z zn Hzn Hne); eauto].
      unfold fs2, created, with_children. simpl. rewrite lookup_insert_eq. eauto.
    + unfold fs2, created, with_children. simpl. by rewrite lookup_insert_eq.
    + intros k' y [[<- <-]|[Hne Hy]]%lookup_insert_Some.
      * exists c. split_and!; [done|done|].
        assert (heap fs2 !! p = Some (mkFSNode k (Some dest) (FileNode content))) as Hp2.
        { unfold fs2. by apply created_new_node. }
        destruct fuel; cbn [mirrors]; rewrite Hcn, Hp2, Hcdata; done.
      * destruct (Hinv k' y Hy) as (x & Hx & Hnew & Hm). exists x. split_and!; [done|done|].
        apply (mirrors_preserved _ fuel fs0 fs fs2); [|done|done]. by apply Hold.
    + exists fs', dch'. split_and!; try done.
      * intros k' Hk'. apply Hkeys. destruct (decide (k = k')) as [->|Hne].
        -- rewrite lookup_insert_eq. eauto.
        -- by rewrite lookup_insert_ne.
      * intros k' c' [[= -> ->]|Hin]%elem_of_cons; [|by eapply Hin'].
        apply Hkeys. rewrite lookup_insert_eq. eauto.
  - rewrite (create_bind dest _ _ _ fs _ dch Hd eq_refl). fold p.
    set (fs2 := created _ _ _ _ _ _).
    assert (frame fs fs2 dest) as Hfr2 by (by apply created_frame).
    assert (below_kept fs0 s0 fs2) as Hkept2 by (by apply (below_kept_frame fs _ dest)).
    assert (¬ leads fs0 p s0) as Hp by (by apply fresh_not_below).
    assert (heap fs2 !! p = Some (mkFSNode k (Some dest) (DirectoryNode ∅))) as Hp2.
    { unfold fs2. by apply created_new_node. }
    destruct (IH c p (mkFSNode k (Some dest) (DirectoryNode ∅)) fs2)
      as (fs3 & gch & Hrec & Hp3 & Hm3); try done.
    { by apply chain_child. }
    { by eexists _, _. }
    unfold mbind at 1, M_bind at 1. rewrite Hrec.
    destruct (recursiveCopy_frame fuel c p fs2 (Ret tt) fs3) as [Hfr3 _];
      [by eexists _, _|done|].
    assert (∀ z, is_Some (heap fsS !! z) → is_Some (heap fs2 !! z)) as Hgrown2.
    { intros z Hz. destruct (Hgrown z Hz) as [zn Hzn].
      destruct (decide (z = dest)) as [->|Hne]; [|rewrite (Hfr2 z zn Hzn Hne); eauto].
      unfold fs2, created, with_children. simpl. rewrite lookup_insert_eq. eauto. }
    destruct (IHrest fs3 (<[k := p]> dch)) as (fs' & dch' & Hrun & Hd' & Hinv' & Hkeys & Hin').
    + intros k' c' Hin. apply Hentries. by right.
    + by apply (below_kept_frame fs2 _ p).
    + intros z Hz. destruct (Hgrown2 z Hz) as [zn Hzn].
      destruct (decide (z = p)) as [->|Hne]; [by rewrite Hp3; eauto|].
      rewrite (Hfr3 z zn Hzn Hne); eauto.
    + apply Hfr3; [|done]. unfold fs2, created, with_children. simpl.
      by rewrite lookup_insert_eq.
    + intros k' y [[<- <-]|[Hne Hy]]%lookup_insert_Some.
      * exists c. split_and!; [done|done|].
        apply (mirrors_weaken (λ z, heap fs2 !! z = None)); [|done].
        intros z Hz. destruct (heap fsS !! z) eqn:HzS; [|done].
        destruct (Hgrown2 z) as [? ?]; [by eexists|congruence].
      * destruct (Hinv k' y Hy) as (x & Hx & Hnew & Hm). exists x. split_and!; [done|done|].
        apply (mirrors_preserved _ fuel fs0 fs fs3); [|done|done].
        intros z zn Hz Hzn. apply Hfr3; [by apply (Hold fs2)|]. congruence.
    + exists fs', dch'. split_and!; try done.
      * intros k' Hk'. apply Hkeys. destruct (decide (k = k')) as [->|Hne].
        -- rewrite lookup_insert_eq. eauto.
        -- by rewrite lookup_insert_ne.
      * intros k' c' [[= -> ->]|Hin]%elem_of_cons; [|by eapply Hin'].
        apply Hkeys. rewrite lookup_insert_eq. eauto.
Qed.

Lemma recursiveCopy_copies fuel :
  ∀ source ancestors dest dn fs,
    chain fs0 source ancestors → leads fs0 source s0 → is_dir fs0 source →
    base.size (dom (heap fs0)) < length (source :: ancestors) + fuel →
    below_kept fs0 s0 fs → ¬ leads fs0 dest s0 →
    heap fs !! dest = Some dn → data dn = DirectoryNode ∅ →
    ∃ fs' children',
      _recursiveCopy fuel source dest fs = (Ret tt, fs')
      ∧ heap fs' !! dest = Some (mkFSNode (name dn) (parent dn) (DirectoryNode children'))
      ∧ mirrors (λ z, heap fs !! z = None) fuel fs0 source fs' dest.
Proof.
  induction fuel as [|fuel IH]; intros source ancestors dest dn fs Hch Hleads Hsdir Hfuel
                                       Hkept Hdest Hd Hddata.
  - pose proof (chain_length fs0 Hwf0 source ancestors Hch). lia.
  - simpl _recursiveCopy. destruct Hsdir as (sn & children & Hsn & Hdata).
    unfold mbind at 1, M_bind at 1, read at 1, children_of.
    rewrite (Hkept source sn Hleads Hsn), Hdata.
    destruct (copy_entries_copies fuel source ancestors sn children dest dn fs)
      with (entries := map_to_list children) (fs := fs) (dch := (∅ : gmap string ptr))
      as (fs' & dch' & Hrun & Hd' & Hinv & _ & Hin); try done.
    + intros c dest' dn' fs1 Hc Hcl Hcdir Hkept1 Hdest' Hd1 Hd1data.
      apply (IH c (source :: ancestors)); try done. simpl in *. lia.
    + intros k c Hin. by apply elem_of_map_to_list.
    + destruct dn as [nm par dt]. simpl in *. by subst dt.
    + exists fs', dch'. split_and!; [done|done|].
      simpl. rewrite Hsn, Hd', Hdata. simpl. split.
      * apply set_eq. intros k. rewrite !elem_of_dom. split.
        -- intros [y Hy]. destruct (Hinv k y Hy) as (x & Hx & _). eauto.
        -- intros [x Hx]. apply (Hin k x). by apply elem_of_map_to_list.
      * intros k x y Hx Hy. destruct (Hinv k y Hy) as (x' & Hx' & Hnew & Hm).
        assert (x' = x) as -> by congruence. done.
Qed.
End outside_subtree.

Lemma mirrors_nodes new n fs x fs' y :
  mirrors new n fs x fs' y →
  ∃ xn yn,
    heap fs !! x = Some xn ∧ heap fs' !! y = Some yn
    ∧ match data xn, data yn with
      | FileNode content, FileNode content' => content' = content
      | DirectoryNode _, DirectoryNode _ => True
      | _, _ => False
      end.
Proof.
  destruct n; simpl;
    (destruct (heap fs !! x) as [xn|]; [|done]);
    (destruct (heap fs' !! y) as [yn|]; [|done]);
    intros Hm; exists xn, yn; (split; [done|]); (split; [done|]);
    by destruct (data xn), (data yn).
Qed.

(** Down a copy, a walk without ".." goes as it goes down the original. *)
Lemma mirrors_walk new fs fs' components :
  Forall (λ component, component ≠ "..") components →
  ∀ n a b,
    mirrors new n fs a fs' b →
    match resolve_loop fs components a with
    | Ret x => ∃ y m, resolve_loop fs' components b = Ret y ∧ mirrors new m fs x fs' y
    | Throw e => resolve_loop fs' components b = Throw e
    | Fault | OutOfFuel => True
    end.
Proof.
  induction components as [|t rest IH]; intros Hplain n a b Hm; simpl; [by eexists _, _|].
  apply Forall_cons in Hplain as [Ht Hplain].
  destruct (decide (t = "" ∨ t = ".")) as [_|_]; [by apply (IH Hplain n)|].
  destruct (decide (t = "..")); [done|].
  destruct n as [|n]; cbn [mirrors] in Hm; unfold children_of;
    (destruct (heap fs !! a) as [an|]; [|done]);
    (destruct (heap fs' !! b) as [bn|]; [|done]);
    destruct (data an) as [|children], (data bn) as [|children']; try done.
  destruct Hm as [Hdom Hch]. simpl.
  destruct (children !! t) as [x|] eqn:Hx.
  - assert (is_Some (children' !! t)) as [y Hy].
    { apply elem_of_dom. rewrite Hdom. apply elem_of_dom. eauto. }
    rewrite Hy. destruct (Hch t x y Hx Hy) as [_ Hm].
    destruct (mirrors_nodes _ _ _ _ _ _ Hm) as (xn & yn & Hxn & Hyn & Hdata).
    unfold deref. rewrite Hxn, Hyn. simpl. unfold getType.
    destruct (data xn), (data yn); try done.
    + destruct (decide (rest ≠ [])); [done|]. by eexists _, _.
    + by apply (IH Hplain n).
  - assert (children' !! t = None) as ->; [|done].
    apply not_elem_of_dom. rewrite Hdom. by apply not_elem_of_dom.
Qed.

Lemma cp_file_run fuel src dest fs s sn content dp nn dpn siblings :
  _resolvePath src fs = Ret s →
  heap fs !! s = Some sn →
  data sn = FileNode content →
  _resolveDestination dest (name sn) fs = Ret (dp, nn) →
  heap fs !! dp = Some dpn →
  data dpn = DirectoryNode siblings →
  cp fuel src dest fs
  = match siblings !! nn with
    | Some _ => (Throw AlreadyExists, fs)
    | None =>
        (Ret tt, created fs dp dpn siblings nn (mkFSNode nn (Some dp) (FileNode content)))
    end.
Proof.
  intros Hs Hsn Hdata Hdest Hdp Hdpdata. unfold cp.
  unfold mbind at 1, M_bind at 1, read at 1. rewrite Hs.
  unfold mbind at 1, M_bind at 1, read at 1, deref at 1. rewrite Hsn.
  unfold mbind at 1, M_bind at 1, read at 1. rewrite Hdest.
  unfold mbind at 1, M_bind at 1, read at 1, children_of. rewrite Hdp, Hdpdata.
  destruct (siblings !! nn); [done|]. rewrite Hdata. by apply create_run.
Qed.

(** X17.  [cp] copies a file.  When the source is a file and the name [nn]
    that [_resolveDestination] gives in the directory [dp] is free, [cp]
    returns and takes nothing away, and the source reads as before.  When
    [nn] is neither "." nor "..", every path that splits into [dp] and [nn]
    then reads the same content, and the copy is a node of its own: appending
    to it leaves the source as it was.  When the name is taken, [cp] throws
    [AlreadyExists] and changes nothing. *)
Theorem cp_copies_a_file fs fuel src dest s sn content dp nn siblings :
  _resolvePath src fs = Ret s →
  heap fs !! s = Some sn →
  data sn = FileNode content →
  _resolveDestination dest (name sn) fs = Ret (dp, nn) →
  children_of dp fs = Ret siblings →
  (siblings !! nn = None →
   ∃ fs',
     cp fuel src dest fs = (Ret tt, fs')
     ∧ extends fs fs'
     ∧ cat src fs' = Ret content
     ∧ ∀ q, _resolveParentAndName q fs = Ret (dp, nn) →
            nn ≠ "." → nn ≠ ".." →
            cat q fs' = Ret content
            ∧ ∀ more, ∃ fs'',
                append q more fs' = (Ret tt, fs'')
                ∧ cat q fs'' = Ret (content ++ more)%list
                ∧ cat src fs'' = Ret content)
  ∧ (is_Some (siblings !! nn) → cp fuel src dest fs = (Throw AlreadyExists, fs)).
Proof.
  intros Hs Hsn Hdata Hdest (dpn & Hdp & Hdpdata)%children_of_Ret.
  rewrite (cp_file_run fuel src dest fs s sn content dp nn dpn siblings) by done.
  split; [|by intros [c ->]].
  intros Hfree. rewrite Hfree. eexists. split; [done|].
  set (file := mkFSNode nn (Some dp) (FileNode content)).
  set (fs' := created fs dp dpn siblings nn file).
  assert (extends fs fs') as Hext by (by apply extends_created).
  assert (cat src fs = Ret content) as Hcat by (apply cat_Ret; by exists s, sn).
  pose proof (cat_extends fs fs' src content Hext Hcat) as Hcat'.
  split_and!; [done|done|].
  intros q Hrpn Hn1 Hn2.
  assert (∀ c, siblings !! nn = Some c → ∃ cn, heap fs !! c = Some cn ∧ getType cn = File)
    as Hocc by (intros c; by rewrite Hfree).
  pose proof (resolvePath_created q fs dp nn dpn siblings file Hrpn Hdp Hdpdata Hn1 Hn2
                eq_refl Hocc) as Hq.
  fold fs' in Hq.
  assert (heap fs' !! fresh (dom (heap fs)) = Some file) as Hnew.
  { by apply created_new_node. }
  split; [apply cat_Ret; by exists (fresh (dom (heap fs))), file|].
  intros more. rewrite (append_run q more fs' _ file content Hq Hnew eq_refl).
  eexists. split; [done|].
  pose proof (same_shape_with_content fs' _ file content (content ++ more) Hnew eq_refl)
    as Hsame.
  split.
  - apply cat_Ret. eexists _, _. rewrite (resolvePath_same_shape fs' _ q Hsame).
    split; [done|]. unfold with_content. simpl. rewrite lookup_insert_eq. done.
  - apply cat_Ret in Hcat' as (s' & sn' & Hs' & Hsn' & Hdata').
    assert (s' = s) as ->.
    { pose proof (resolvePath_extends fs fs' src s Hext Hs). congruence. }
    apply cat_Ret. exists s, sn'. rewrite (resolvePath_same_shape fs' _ src Hsame).
    split; [done|]. split; [|done]. unfold with_content. simpl.
    rewrite lookup_insert_ne; [done|]. intros Heq.
    pose proof (fresh_not_in_heap fs). congruence.
Qed.

Lemma cp_copies_a_file_witness :
  (∃ fs',
     cp 0 "/notes" "/home" fs_notes = (Ret tt, fs')
     ∧ extends fs_notes fs'
     ∧ cat "/notes" fs' = Ret [xde; xad; xbe; xef]%byte
     ∧ ∀ q, _resolveParentAndName q fs_notes = Ret (2%positive, "notes") →
            "notes" ≠ "." → "notes" ≠ ".." →
            cat q fs' = Ret [xde; xad; xbe; xef]%byte
            ∧ ∀ more, ∃ fs'',
                append q more fs' = (Ret tt, fs'')
                ∧ cat q fs'' = Ret ([xde; xad; xbe; xef]%byte ++ more)%list
                ∧ cat "/notes" fs'' = Ret [xde; xad; xbe; xef]%byte)
  ∧ cp 0 "/notes" "/notes" fs_notes = (Throw AlreadyExists, fs_notes).
Proof.
  split.
  - apply (cp_copies_a_file fs_notes 0 "/notes" "/home" 3%positive
             (mkFSNode "notes" (Some 1%positive) (FileNode [xde; xad; xbe; xef]%byte))
             [xde; xad; xbe; xef]%byte 2%positive "notes" ∅); vm_compute; reflexivity.
  - apply (cp_copies_a_file fs_notes 0 "/notes" "/notes" 3%positive
             (mkFSNode "notes" (Some 1%positive) (FileNode [xde; xad; xbe; xef]%byte))
             [xde; xad; xbe; xef]%byte 1%positive "notes"
             {[ "home" := 2%positive; "notes" := 3%positive ]});
      [vm_compute; reflexivity..|]. vm_compute. eauto.
Defined.

Lemma copy_entries_root recur dest entries fs :
  (∀ s d fs1, root (recur s d fs1).2 = root fs1) →
  root (copy_entries recur dest entries fs).2 = root fs.
Proof.
  intros Hrec. revert fs. induction entries as [|[k child] rest IH]; intros fs; simpl; [done|].
  unfold mbind at 1, M_bind at 1, read at 1, deref at 1.
  destruct (heap fs !! child) as [cn|]; [|done].
  assert (∀ n (after : ptr → M unit),
            (∀ p fs1, root (after p fs1).2 = root fs1) →
            root ((make_shared n ≫= λ p, store_child dest (name cn) p;; after p) fs).2
            = root fs) as Hcreate.
  { intros n after Hafter. unfold mbind at 1, M_bind at 1, make_shared at 1.
    unfold mbind at 1, M_bind at 1, store_child, modify_children. simpl.
    destruct (_ !! dest) as [dn|]; [|done].
    destruct (data dn); [done|]. by rewrite Hafter. }
  destruct (data cn).
  - apply Hcreate. intros p fs1. apply IH.
  - apply Hcreate. intros p fs1. unfold mbind, M_bind.
    pose proof (Hrec child p fs1) as Hr.
    destruct (recur child p fs1) as [[[]| | |] fs2]; simpl in *; try done.
    by rewrite IH.
Qed.

Lemma recursiveCopy_root fuel source dest fs :
  root (_recursiveCopy fuel source dest fs).2 = root fs.
Proof.
  revert source dest fs. induction fuel as [|fuel IH]; intros source dest fs; simpl; [done|].
  unfold mbind, M_bind, read. destruct (children_of source fs); try done.
  by apply copy_entries_root.
Qed.

(** X18.  [cp] copies a directory that does not hold its destination.  On
    a well-formed store, when the source is a directory, the name [nn] that
    [_resolveDestination] gives in the directory [dp] is free, and [dp] is
    neither the source nor below it, [cp] returns once it is given a level
    of recursion for every node of the store.  Nothing that was there is
    changed, but for the new entry of [dp].  When [nn] is neither "." nor
    "..", under every path [q] that splits into [dp] and [nn], whatever path
    [rel] without ".." is read below the source is read the same below [q]:
    the same bytes, the same class, the same exception. *)
Theorem cp_copies_a_directory fs fuel src dest s sn children dp nn siblings :
  wf fs →
  _resolvePath src fs = Ret s →
  heap fs !! s = Some sn →
  data sn = DirectoryNode children →
  _resolveDestination dest (name sn) fs = Ret (dp, nn) →
  children_of dp fs = Ret siblings →
  siblings !! nn = None →
  ¬ leads fs dp s →
  base.size (dom (heap fs)) ≤ fuel →
  ∃ fs',
    cp fuel src dest fs = (Ret tt, fs')
    ∧ frame fs fs' dp
    ∧ extends fs fs'
    ∧ ∀ q rel,
        _resolveParentAndName q fs = Ret (dp, nn) →
        nn ≠ "." → nn ≠ ".." →
        Forall (λ component, component ≠ "..") (getlines rel) →
        cat (q ++ String "/" rel) fs' = cat (src ++ String "/" rel) fs
        ∧ getNodeType (q ++ String "/" rel) fs' = getNodeType (src ++ String "/" rel) fs
        ∧ exists_ (q ++ String "/" rel) fs' = exists_ (src ++ String "/" rel) fs.
Proof.
  intros Hwf Hs Hsn Hdata Hdest Hsib Hfree Hout Hfuel.
  rewrite (cp_directory_steps fuel src dest fs s sn children dp nn siblings) by done.
  apply children_of_Ret in Hsib as (dpn & Hdp & Hdpdata).
  rewrite (create_bind dp nn _ _ fs dpn siblings Hdp Hdpdata).
  set (n := mkFSNode nn (Some dp) (DirectoryNode ∅)).
  set (p := fresh (dom (heap fs))).
  set (fs1 := created fs dp dpn siblings nn n).
  pose proof (fresh_not_in_heap fs) as Hp. fold p in Hp.
  assert (p ≠ dp) as Hpdp by congruence.
  assert (frame fs fs1 dp) as Hfr1 by (by apply created_frame).
  assert (heap fs1 !! p = Some n) as Hp1 by (by apply created_new_node).
  destruct (resolvePath_inv fs src s Hwf Hs) as (Hsrc0 & [ancestors Hch] & _).
  assert (is_Some (heap fs !! s)) as Hs0 by eauto.
  assert (below_kept fs s fs1) as Hkept.
  { apply (below_kept_frame fs s fs fs1 dp); [by intros x nd _ Hx|done|done]. }
  assert (¬ leads fs p s) as Hpout.
  { intros Hl. destruct (leads_in_heap fs p s Hwf Hs0 Hl). congruence. }
  pose proof (chain_length fs Hwf s ancestors Hch) as Hlen.
  destruct (recursiveCopy_copies fs s Hwf Hs0 fuel s ancestors p n fs1)
    as (fs' & children' & Hrun & Hp' & Hm); try done.
  { constructor. }
  { by eexists _, _. }
  { simpl in *. lia. }
  rewrite Hrun. exists fs'.
  destruct (recursiveCopy_frame fuel s p fs1 (Ret tt) fs') as [Hfr' _];
    [by eexists _, _|done|].
  assert (frame fs fs' dp) as Hfr by (by apply (frame_then_new fs fs1 fs' dp p)).
  assert (extends fs fs1) as Hext1 by (by apply extends_created).
  assert (extends fs1 fs') as Hext'.
  { split.
    - pose proof (recursiveCopy_root fuel s p fs1) as Hr. by rewrite Hrun in Hr.
    - intros x nd Hx. destruct (decide (x = p)) as [->|Hne].
      + rewrite Hp'. eexists. split; [done|].
        assert (nd = n) as -> by congruence. split_and!; [done|done|]. simpl.
        eexists. split; [done|]. apply map_empty_subseteq.
      + exists nd. rewrite (Hfr' x nd Hx Hne). split_and!; try done.
        destruct (data nd); [done|]. eauto. }
  pose proof (extends_trans _ _ _ Hext1 Hext') as Hext.
  split_and!; [done|done|done|].
  intros q rel Hrpn Hn1 Hn2 Hplain.
  (* the path [q] leads to the new directory *)
  destruct (resolveParentAndName_Ret q fs dp nn Hrpn)
    as (prefix & dpn' & siblings' & _ & _ & Hn0 & Hq1 & Hq2 & Hwalk & Htokens).
  pose proof (resolve_loop_extends fs fs' prefix (root fs) dp Hext Hwalk) as Hwalk'.
  assert (heap fs' !! dp
          = Some (mkFSNode (name dpn) (parent dpn) (DirectoryNode (<[nn := p]> siblings))))
    as Hdp'.
  { apply Hfr'; [|done]. unfold fs1, created, with_children. simpl.
    by rewrite lookup_insert_eq. }
  assert (root fs' = root fs) as Hroot by (by destruct Hext).
  assert (resolve_loop fs' (getlines (skip_slash q)) (root fs) = Ret p) as Hq.
  { rewrite Htokens.
    rewrite (resolve_loop_app fs' prefix _ (root fs) dp Hwalk') by (by eexists _, _).
    erewrite resolve_loop_name; [|by unfold children_of; rewrite Hdp'|done..].
    rewrite lookup_insert_eq. by rewrite Hp'. }
  assert (resolve_loop fs (getlines (skip_slash src)) (root fs) = Ret s) as Hsrc.
  { by rewrite <- resolvePath_walk. }
  (* below it, as below the source *)
  assert (∀ x, q ++ String "/" x ≠ "") as Hqne by (intros x; by destruct q).
  assert (∀ x, src ++ String "/" x ≠ "") as Hsne by (intros x; by destruct src).
  assert (_resolvePath (q ++ String "/" rel) fs' = resolve_loop fs' (getlines rel) p) as Hleft.
  { rewrite resolvePath_walk by done. rewrite Hroot.
    destruct (path_components_after q rel Hq1) as [-> | ->];
      by rewrite (resolve_loop_app fs' _ _ (root fs) p Hq) by (by eexists _, _). }
  assert (_resolvePath (src ++ String "/" rel) fs = resolve_loop fs (getlines rel) s)
    as Hright.
  { rewrite resolvePath_walk by done.
    destruct (path_components_after src rel Hsrc0) as [-> | ->];
      by rewrite (resolve_loop_app fs _ _ (root fs) s Hsrc) by (by eexists _, _). }
  pose proof (mirrors_walk _ fs fs' (getlines rel) Hplain fuel s p Hm) as Hmw.
  assert (reachable fs s) as Hreach by (by eexists).
  destruct (resolve_loop_wf fs Hwf (getlines rel) s Hreach) as [(x & Hx & _)|[e He]];
    [by eexists _, _| |].
  - rewrite Hx in Hmw. destruct Hmw as (y & m & Hy & Hxy).
    destruct (mirrors_nodes _ _ _ _ _ _ Hxy) as (xn & yn & Hxn & Hyn & Hd).
    unfold cat, getNodeType, exists_. rewrite Hleft, Hright, Hx, Hy. simpl.
    unfold deref. rewrite Hxn, Hyn. simpl. unfold getType.
    destruct (data xn), (data yn); try done. by subst.
  - rewrite He in Hmw. unfold cat, getNodeType, exists_.
    by rewrite Hleft, Hright, He, Hmw.
Qed.

Lemma leads_nsteps fs dest x : leads fs dest x → ∃ k, nsteps (child_edge fs) k x dest.
Proof.
  induction 1 as [|y c _ Hedge _ [k IH]]; [exists 0; constructor|].
  exists (S k). by eapply nsteps_l.
Qed.

Lemma cp_copies_a_directory_witness :
  ∃ fs',
    cp 3 "/a" "/c" fs_a_b = (Ret tt, fs')
    ∧ getNodeType "/c/b" fs' = getNodeType "/a/b" fs_a_b
    ∧ exists_ "/c/b/x" fs' = exists_ "/a/b/x" fs_a_b.
Proof.
  assert (wf fs_a_b) as Hwf by (apply wfb_sound; vm_compute; reflexivity).
  destruct (cp_copies_a_directory fs_a_b 3 "/a" "/c" 2%positive
              (mkFSNode "a" (Some 1%positive) (DirectoryNode {[ "b" := 3%positive ]}))
              {[ "b" := 3%positive ]} 1%positive "c" {[ "a" := 2%positive ]})
    as (fs' & Hrun & _ & _ & Hbelow);
    [done|vm_compute; reflexivity|vm_compute; reflexivity|reflexivity|vm_compute; reflexivity
    |vm_compute; reflexivity|vm_compute; reflexivity| |vm_compute; lia|].
  - intros Hl%leads_nsteps.
    apply (chain_above fs_a_b 2%positive 1%positive [] Hwf (chain_root fs_a_b)) in Hl.
    by apply list_elem_of_singleton in Hl.
  - exists fs'. split; [done|]. split.
    + apply (Hbelow "/c" "b"); [vm_compute; reflexivity|done|done|].
      vm_compute. repeat constructor; by intros [=].
    + apply (Hbelow "/c" "b/x"); [vm_compute; reflexivity|done|done|].
      vm_compute. repeat constructor; by intros [=].
Defined.

(** ** No operation goes through a bad handle *)

Lemma wf_created fs d dn children k n :
  wf fs →
  heap fs !! d = Some dn → data dn = DirectoryNode children →
  leaf n → parent n = Some d → name n = k →
  wf (created fs d dn children k n).
Proof.
  intros Hwf Hd Hdata Hleaf Hpar Hname.
  pose proof (fresh_not_in_heap fs) as Hq. unfold created.
  apply (wf_with_children _ d dn children); simpl.
  - by apply wf_alloc.
  - rewrite lookup_insert_ne by congruence. done.
  - done.
  - intros k' c [[<- <-]|[_ Hold]]%lookup_insert_Some; [right|by left].
    exists n. split; [apply lookup_insert_eq|done].
Qed.

Lemma resolveParentAndName_wf fs path :
  wf fs →
  (∃ d nm, _resolveParentAndName path fs = Ret (d, nm) ∧ reachable fs d ∧ is_dir fs d)
  ∨ (∃ e, _resolveParentAndName path fs = Throw e).
Proof.
  intros Hwf. unfold _resolveParentAndName.
  destruct (decide (path = "" ∨ path = "/")); [right; eauto|].
  destruct (find_last_of path "/") as [i|]; [|right; eauto].
  destruct (decide (substr_from (i + 1) path = "")); [right; eauto|].
  destruct (resolvePath_wf fs Hwf (if decide (i = 0) then "/" else substring 0 i path))
    as [(node & -> & Hreach)|[e ->]]; [|right; eauto]. simpl.
  destruct Hreach as [ancestors Hch].
  destruct (chain_in_heap fs Hwf node ancestors Hch) as [nd Hnd].
  unfold deref. rewrite Hnd. simpl.
  destruct (decide (getType nd ≠ Directory)) as [|Hty]; [right; eauto|left].
  eexists _, _. split; [done|]. split; [by eexists|].
  unfold getType in Hty. destruct (data nd) eqn:Hdata; [by destruct Hty|]. by eexists _, _.
Qed.

Lemma mkdir_loop_safe components current fs :
  wf fs → is_dir fs current → (mkdir_loop components current fs).1 ≠ Fault.
Proof.
  revert current fs.
  induction components as [|component rest IH]; intros current fs Hwf Hdir; simpl; [done|].
  destruct (decide (component = "")); [by apply IH|].
  destruct Hdir as (nd & children & Hcur & Hdata).
  unfold mbind at 1, M_bind at 1, read at 1, children_of. rewrite Hcur, Hdata.
  destruct (children !! component) as [child|] eqn:Hchild.
  - destruct (wf_child fs Hwf current nd children component child Hcur Hdata Hchild)
      as (cn & Hcn & _).
    unfold mbind, M_bind, read, deref. rewrite Hcn.
    destruct (decide (getType cn ≠ Directory)) as [|Hty]; [done|].
    apply IH; [done|]. unfold getType in Hty.
    destruct (data cn) eqn:Hcd; [by destruct Hty|]. by eexists _, _.
  - rewrite (create_bind current component _ (mkdir_loop rest) fs nd children) by done.
    apply IH.
    + by apply wf_created.
    + eexists _, _. split; [by apply created_new_node|done].
Qed.

Lemma copy_entries_safe recur dest entries fs :
  (∀ s d fs1, wf fs1 → is_dir fs1 s → is_dir fs1 d → (recur s d fs1).1 ≠ Fault) →
  (∀ s d fs1, wf fs1 → wf (recur s d fs1).2) →
  (∀ s d fs1 o fs2, is_dir fs1 d → recur s d fs1 = (o, fs2) → frame fs1 fs2 d ∧ is_dir fs2 d) →
  wf fs → is_dir fs dest →
  (∀ k c, (k, c) ∈ entries → is_Some (heap fs !! c)) →
  (copy_entries recur dest entries fs).1 ≠ Fault.
Proof.
  intros Hsafe Hrwf Hrfr. revert fs.
  induction entries as [|[k c] rest IH]; intros fs Hwf Hdir Hin; simpl; [done|].
  destruct (Hin k c) as [cn Hcn]; [by left|].
  unfold mbind at 1, M_bind at 1, read at 1, deref at 1. rewrite Hcn.
  pose proof Hdir as (dn & dch & Hd & Hddata).
  pose proof (fresh_not_in_heap fs) as Hfresh.
  assert (∀ n k' c', (k', c') ∈ rest →
                     is_Some (heap (created fs dest dn dch (name cn) n) !! c')) as Hkeep.
  { intros n k' c' Hin'. destruct (Hin k' c') as [cn' Hcn']; [by right|].
    destruct (decide (c' = dest)) as [->|Hne].
    - destruct (created_is_dir fs dest dn dch (name cn) n) as (? & ? & -> & _). eauto.
    - rewrite (created_frame fs dest dn dch (name cn) n Hd c' cn' Hcn' Hne). eauto. }
  destruct (data cn) as [content|grandchildren] eqn:Hcdata.
  - rewrite (create_bind dest _ _ _ fs dn dch Hd Hddata).
    apply IH; [by apply wf_created|apply created_is_dir|by apply Hkeep].
  - rewrite (create_bind dest _ _ _ fs dn dch Hd Hddata).
    set (n := mkFSNode (name cn) (Some dest) (DirectoryNode ∅)).
    set (fs2 := created fs dest dn dch (name cn) n).
    set (p := fresh (dom (heap fs))) in *.
    assert (wf fs2) as Hwf2 by (by apply wf_created).
    assert (is_dir fs2 p) as Hdirp.
    { eexists _, _. split; [by apply created_new_node|done]. }
    assert (is_dir fs2 c) as Hdirc.
    { destruct (decide (c = dest)) as [->|Hne]; [apply created_is_dir|].
      exists cn, grandchildren. split; [|done]. by apply created_frame. }
    assert (p ≠ dest) as Hpd by congruence.
    unfold mbind at 1, M_bind at 1.
    pose proof (Hsafe c p fs2 Hwf2 Hdirc Hdirp) as Hs.
    pose proof (Hrwf c p fs2 Hwf2) as Hw.
    destruct (recur c p fs2) as [o fs3] eqn:Hrec. simpl in Hs, Hw.
    destruct (Hrfr c p fs2 o fs3 Hdirp Hrec) as [Hfr3 Hdirp3].
    destruct o as [[]| | |]; try done.
    apply IH; [done| |].
    + apply (is_dir_frame fs2 fs3 p); [done|done|apply created_is_dir].
    + intros k' c' Hin'. destruct (Hkeep n k' c' Hin') as [cn' Hcn'].
      destruct (decide (c' = p)) as [->|Hne].
      * destruct Hdirp3 as (? & ? & -> & _). eauto.
      * rewrite (Hfr3 c' cn' Hcn' Hne). eauto.
Qed.

Lemma recursiveCopy_safe fuel :
  ∀ source dest fs,
    wf fs → is_dir fs source → is_dir fs dest →
    (_recursiveCopy fuel source dest fs).1 ≠ Fault.
Proof.
  induction fuel as [|fuel IH]; intros source dest fs Hwf Hsdir Hdir; simpl; [done|].
  destruct Hsdir as (sn & children & Hsn & Hdata).
  unfold mbind at 1, M_bind at 1, read at 1, children_of. rewrite Hsn, Hdata.
  apply copy_entries_safe; try done.
  - intros s d fs1 Hwf1. by apply wf_recursiveCopy.
  - intros s d fs1 o fs2. apply recursiveCopy_frame.
  - intros k c Hin%elem_of_map_to_list.
    destruct (wf_child fs Hwf source sn children k c Hsn Hdata Hin) as (cn & -> & _). eauto.
Qed.

(** The loop of [mv] on a well-formed store: it throws, or runs out of
    steps, or has gone past the root without meeting the source. *)
Lemma mv_guard_outcome fs s np ancestors :
  wf fs →
  chain fs np ancestors →
  ∀ fuel,
    mv_guard fuel (Some np) s fs = Throw CyclicMove
    ∨ mv_guard fuel (Some np) s fs = OutOfFuel
    ∨ (mv_guard fuel (Some np) s fs = Ret tt
       ∧ (s ∉ np :: ancestors) ∧ length (np :: ancestors) ≤ fuel).
Proof.
  intros Hwf. induction 1 as [|d ancestors c Hd IH Hedge]; intros [|fuel]; simpl; auto.
  - destruct (decide (root fs = s)) as [Heq|Hne]; [auto|].
    destruct (wf_root fs Hwf) as [children Hr]. unfold deref. rewrite Hr. simpl.
    right. right. split; [by destruct fuel|]. split; [|lia].
    intros [Heq|[]%elem_of_nil]%elem_of_cons. by destruct Hne.
  - destruct (decide (c = s)) as [Heq|Hne]; [auto|].
    destruct (child_edge_inv fs Hwf d c Hedge) as ((dn & ? & Hdn & _) & cn & Hcn & Hp).
    unfold deref. rewrite Hcn. simpl. rewrite Hp. unfold lock. rewrite Hdn.
    destruct (IH fuel) as [->|[->|(-> & Hnotin & Hlen)]]; auto.
    right. right. split; [done|]. split; [|simpl in *; lia].
    intros [Heq|?]%elem_of_cons; [by destruct Hne|done].
Qed.

Lemma FSNode_size_safe fuel fs :
  wf fs → ∀ p, is_Some (heap fs !! p) → FSNode_size fuel fs p ≠ Fault.
Proof.
  intros Hwf. induction fuel as [|fuel IH]; intros p [nd Hnd]; simpl; [done|].
  unfold deref. rewrite Hnd. simpl.
  destruct (data nd) as [|children] eqn:Hdata; [done|].
  assert (∀ k c, (k, c) ∈ map_to_list children → is_Some (heap fs !! c)) as Hin.
  { intros k c Hin%elem_of_map_to_list.
    destruct (wf_child fs Hwf p nd children k c Hnd Hdata Hin) as (cn & -> & _). eauto. }
  revert Hin. generalize (map_to_list children) 0%Z. intros l.
  induction l as [|[k c] l IHl]; intros acc Hin; simpl; [done|].
  assert (is_Some (heap fs !! c)) as Hc0 by (apply (Hin k); by left).
  pose proof (IH c Hc0) as Hc.
  destruct (FSNode_size fuel fs c) as [v| | |]; simpl; try done.
  apply IHl. intros k' c' Hin'. apply (Hin k'). by right.
Qed.

Lemma touch_safe path fs : wf fs → (touch path fs).1 ≠ Fault.
Proof.
  intros Hwf.
  destruct (resolveParentAndName_wf fs path Hwf)
    as [(d & nm & Hrpn & _ & (dn & children & Hd & Hdata))|[e He]].
  - rewrite (touch_run path fs d nm dn children Hrpn Hd Hdata).
    destruct (children !! nm) as [c|] eqn:Hc; [|done].
    destruct (wf_child fs Hwf d dn children nm c Hd Hdata Hc) as (cn & -> & _).
    by destruct (decide (getType cn = File)).
  - unfold touch, mbind, M_bind, read. by rewrite He.
Qed.

Lemma writeFile_safe path content fs : wf fs → (writeFile path content fs).1 ≠ Fault.
Proof.
  intros Hwf.
  destruct (resolveParentAndName_wf fs path Hwf)
    as [(d & nm & Hrpn & _ & (dn & children & Hd & Hdata))|[e He]].
  - assert (children_of d fs = Ret children) as Hch.
    { unfold children_of. by rewrite Hd, Hdata. }
    destruct (children !! nm) as [c|] eqn:Hc.
    + destruct (wf_child fs Hwf d dn children nm c Hd Hdata Hc) as (cn & Hcn & _).
      destruct (getType cn) eqn:Hty.
      * destruct (writeFile_Ret path content fs d nm children Hrpn Hch) as [fs' ->]; [|done].
        right. by exists c, cn.
      * by rewrite (writeFile_IsADirectory path content fs d nm children c cn).
    + destruct (writeFile_Ret path content fs d nm children Hrpn Hch) as [fs' ->]; [|done].
      by left.
  - unfold writeFile, mbind, M_bind, read. by rewrite He.
Qed.

Lemma append_safe path content fs : wf fs → (append path content fs).1 ≠ Fault.
Proof.
  intros Hwf.
  destruct (resolvePath_wf fs Hwf path) as [(node & Hres & [ancestors Hch])|[e He]].
  - destruct (chain_in_heap fs Hwf node ancestors Hch) as [nd Hnd].
    destruct (data nd) as [old|children] eqn:Hdata.
    + by rewrite (append_run path content fs node nd old).
    + unfold append, mbind, M_bind, read, deref. by rewrite Hres, Hnd, Hdata.
  - unfold append, mbind, M_bind, read. by rewrite He.
Qed.

Lemma rm_safe path recursive fs : wf fs → (rm path recursive fs).1 ≠ Fault.
Proof.
  intros Hwf. unfold rm. destruct (decide (path = "/")); [done|].
  destruct (resolveParentAndName_wf fs path Hwf)
    as [(d & nm & Hrpn & _ & (dn & children & Hd & Hdata))|[e He]].
  - unfold mbind at 1, M_bind at 1, read at 1. rewrite Hrpn.
    unfold mbind at 1, M_bind at 1, read at 1, children_of. rewrite Hd, Hdata.
    destruct (children !! nm) as [c|] eqn:Hc; [|done].
    destruct (wf_child fs Hwf d dn children nm c Hd Hdata Hc) as (cn & Hcn & _).
    unfold mbind, M_bind, read, deref. rewrite Hcn. unfold erase_child.
    destruct (data cn) as [|grandchildren].
    + by rewrite (modify_children_Ret d _ fs dn children Hd Hdata).
    + destruct (decide (recursive = false ∧ grandchildren ≠ ∅)); [done|].
      by rewrite (modify_children_Ret d _ fs dn children Hd Hdata).
  - unfold mbind, M_bind, read. by rewrite He.
Qed.

Lemma cp_safe fuel src dest fs : wf fs → (cp fuel src dest fs).1 ≠ Fault.
Proof.
  intros Hwf.
  destruct (resolvePath_wf fs Hwf src) as [(s & Hs & [ancestors Hch])|[e He]];
    [|by unfold cp, mbind, M_bind, read; rewrite He].
  destruct (chain_in_heap fs Hwf s ancestors Hch) as [sn Hsn].
  destruct (resolveDestination_wf fs dest (name sn) Hwf)
    as [(dp & nn & Hdest & _ & (dpn & siblings & Hdp & Hdpdata))|[e He]].
  - destruct (data sn) as [content|children] eqn:Hdata.
    + rewrite (cp_file_run fuel src dest fs s sn content dp nn dpn siblings) by done.
      by destruct (siblings !! nn).
    + destruct (siblings !! nn) as [c|] eqn:Hfree.
      * unfold cp, mbind, M_bind, read, deref, children_of.
        by rewrite Hs, Hsn, Hdest, Hdp, Hdpdata, Hfree.
      * rewrite (cp_directory_steps fuel src dest fs s sn children dp nn siblings);
          [|done|done|done|done|by unfold children_of; rewrite Hdp, Hdpdata|done].
        rewrite (create_bind dp nn _ _ fs dpn siblings Hdp Hdpdata).
        apply recursiveCopy_safe.
        -- by apply wf_created.
        -- destruct (decide (s = dp)) as [->|Hne]; [apply created_is_dir|].
           exists sn, children. split; [|done]. by apply created_frame.
        -- eexists _, _. split; [by apply created_new_node|done].
  - unfold cp, mbind, M_bind, read, deref. by rewrite Hs, Hsn, He.
Qed.

Lemma mv_safe fuel src dest fs : wf fs → (mv fuel src dest fs).1 ≠ Fault.
Proof.
  intros Hwf.
  destruct (decide (src = "/")) as [->|Hsrc]; [done|].
  destruct (resolvePath_wf fs Hwf src) as [(s & Hs & Hreach)|[e He]];
    [|by unfold mv; destruct (decide (src = "/")); [done|];
         unfold mbind, M_bind, read; rewrite He].
  pose proof Hreach as [ancestors Hch].
  destruct (chain_in_heap fs Hwf s ancestors Hch) as [sn Hsn].
  destruct (decide (s = root fs)) as [->|Hnr].
  { unfold mv. destruct (decide (src = "/")); [done|].
    unfold mbind, M_bind, read, deref. rewrite Hs, Hsn.
    by rewrite (wf_root_parent fs Hwf sn Hsn). }
  destruct (reachable_parent fs s sn Hwf Hreach Hnr Hsn) as [op Hop].
  destruct (resolveDestination_wf fs dest (name sn) Hwf)
    as [(np & nn & Hdest & [npanc Hnpch] & _)|[e He]].
  - destruct (mv_guard_outcome fs s np npanc Hwf Hnpch fuel)
      as [Hg|[Hg|(Hg & Hnotin & Hlen)]].
    + unfold mv. destruct (decide (src = "/")); [done|].
      unfold mbind, M_bind, read, deref. by rewrite Hs, Hsn, Hop, Hdest, Hg.
    + unfold mv. destruct (decide (src = "/")); [done|].
      unfold mbind, M_bind, read, deref. by rewrite Hs, Hsn, Hop, Hdest, Hg.
    + destruct (mv_run fs fuel src dest s sn np nn npanc) as (fs' & ? & -> & _); done.
  - unfold mv. destruct (decide (src = "/")); [done|].
    unfold mbind, M_bind, read, deref. by rewrite Hs, Hsn, Hop, He.
Qed.

(** X19.  No operation goes through a bad handle.  On a well-formed store,
    and so on every store built by the public operations, no operation
    reaches a handle that holds no node, or a file where it takes the node
    for a directory: each call returns, throws, or (for [cp], [mv] and
    [size]) uses up the recursion it was given. *)
Theorem operations_never_fault fs :
  wf fs →
  (∀ fuel op, result (perform fuel op) fs ≠ Fault)
  ∧ (∀ path, exists_ path fs ≠ Fault)
  ∧ (∀ path, getNodeType path fs ≠ Fault)
  ∧ (∀ path, cat path fs ≠ Fault)
  ∧ (∀ path, ls path fs ≠ Fault)
  ∧ (∀ fuel path, size fuel path fs ≠ Fault).
Proof.
  intros Hwf.
  assert (∀ path,
            (∃ node nd, _resolvePath path fs = Ret node ∧ heap fs !! node = Some nd)
            ∨ (∃ e, _resolvePath path fs = Throw e)) as Hres.
  { intros path.
    destruct (resolvePath_wf fs Hwf path) as [(node & Hnode & [ancestors Hch])|?]; [left|by right].
    destruct (chain_in_heap fs Hwf node ancestors Hch) as [nd Hnd]. eauto. }
  split_and!.
  - intros fuel op. unfold result. destruct op; simpl.
    + unfold mkdir. destruct (decide (path = "/")); [done|].
      apply mkdir_loop_safe; [done|by apply wf_root_dir].
    + by apply touch_safe.
    + by apply writeFile_safe.
    + by apply append_safe.
    + by apply rm_safe.
    + by apply cp_safe.
    + by apply mv_safe.
  - intros path. unfold exists_.
    by destruct (Hres path) as [(node & nd & -> & _)|[e ->]].
  - intros path. unfold getNodeType, deref.
    destruct (Hres path) as [(node & nd & -> & Hnd)|[e ->]]; simpl; [|done]. by rewrite Hnd.
  - intros path. unfold cat, deref.
    destruct (Hres path) as [(node & nd & -> & Hnd)|[e ->]]; simpl; [|done]. rewrite Hnd.
    simpl. by destruct (data nd).
  - intros path.
    destruct (Hres path) as [(node & nd & Hnode & Hnd)|[e He]].
    + destruct (data nd) as [|children] eqn:Hdata.
      * unfold ls, ls_in_order, deref. rewrite Hnode. simpl. rewrite Hnd. simpl.
        by rewrite Hdata.
      * unfold ls. by rewrite (ls_in_order_spec fs map_to_list path node nd children).
    + unfold ls, ls_in_order. by rewrite He.
  - intros fuel path. unfold size.
    destruct (Hres path) as [(node & nd & -> & Hnd)|[e ->]]; simpl; [|done].
    apply FSNode_size_safe; [done|eauto].
Qed.

Lemma operations_never_fault_witness :
  result (perform 3 (Cp "/a" "/a/b/c")) fs_a_b ≠ Fault
  ∧ ls "/a" fs_a_b ≠ Fault.
Proof.
  destruct (operations_never_fault fs_a_b) as (Hop & _ & _ & _ & Hls & _).
  - apply wfb_sound. vm_compute. reflexivity.
  - split; [apply Hop|apply Hls].
Defined.

(** ** What writing or removing a file leaves alone *)

(** A file that a path leads to, in a store that has kept the directories
    and the entry that leads to the file. *)
Lemma cat_keeps_directories fs fs' q content :
  wf fs →
  keeps_directories fs fs' →
  cat q fs = Ret content →
  (∀ f fn d dn children k,
     _resolvePath q fs = Ret f → heap fs !! f = Some fn →
     heap fs !! d = Some dn → data dn = DirectoryNode children → children !! k = Some f →
     k ≠ "" → k ≠ "." → k ≠ ".." →
     heap fs' !! f = Some fn
     ∧ ∃ children', heap fs' !! d = Some (mkFSNode (name dn) (parent dn) (DirectoryNode children'))
                    ∧ children' !! k = Some f) →
  cat q fs' = Ret content.
Proof.
  intros Hwf Hkeep (f & fn & Hres & Hfn & Hfdata)%cat_Ret Hentry.
  destruct (resolvePath_inv fs q f Hwf Hres) as (Hq0 & Hreach & [(? & ? & ? & ?)|Hfile]);
    [congruence|].
  destruct Hfile as (l & k & d & dn & children & fn' & content' & Htokens & Hwalk & Hd & Hddata
                     & Hk & (Hk0 & Hk1 & Hk2) & _).
  destruct (Hentry f fn d dn children k Hres Hfn Hd Hddata Hk Hk0 Hk1 Hk2)
    as (Hfn' & children' & Hd' & Hk').
  assert (reachable fs (root fs)) as Hrr by (eexists; constructor).
  pose proof (resolve_loop_keeps_directories fs fs' l (root fs) d Hwf Hkeep Hrr
                (wf_root_dir fs Hwf) Hwalk ltac:(by eexists _, _)) as Hwalk'.
  destruct Hkeep as [Hroot _].
  apply cat_Ret. exists f, fn. split; [|done].
  rewrite resolvePath_walk by done. rewrite Htokens, Hroot.
  rewrite (resolve_loop_app fs' l _ (root fs) d Hwalk') by (by eexists _, _).
  erewrite resolve_loop_name; [|by unfold children_of; rewrite Hd'|done..].
  by rewrite Hk', Hfn'.
Qed.

Lemma getNodeType_keeps_directories fs fs' q :
  wf fs →
  keeps_directories fs fs' →
  getNodeType q fs = Ret Directory → getNodeType q fs' = Ret Directory.
Proof.
  intros Hwf Hkeep. unfold getNodeType.
  destruct (_resolvePath q fs) as [d| | |] eqn:Hres; simpl; [|done..].
  unfold deref. destruct (heap fs !! d) as [dn|] eqn:Hd; simpl; [|done].
  unfold getType. destruct (data dn) as [|children] eqn:Hdata; [done|]. intros _.
  destruct (resolvePath_inv fs q d Hwf Hres) as (Hq0 & Hreach & _).
  assert (reachable fs (root fs)) as Hrr by (eexists; constructor).
  rewrite resolvePath_walk in Hres by done.
  pose proof (resolve_loop_keeps_directories fs fs' _ (root fs) d Hwf Hkeep Hrr
                (wf_root_dir fs Hwf) Hres ltac:(by eexists _, _)) as Hwalk'.
  destruct Hkeep as [Hroot Hkeep].
  rewrite resolvePath_walk by done. rewrite Hroot, Hwalk'. simpl.
  destruct (Hkeep d dn children Hd Hdata) as (children' & -> & _). done.
Qed.

(** X20.  Writing or removing a file leaves the rest alone.  On a
    well-formed store, when [writeFile] returns, or [rm] has removed a file,
    every path that led to a directory still does, and every file reads as
    before, but for the file that the path written or removed led to. *)
Theorem writing_and_removing_leave_the_rest fs path fs' :
  wf fs →
  (∃ content, writeFile path content fs = (Ret tt, fs'))
  ∨ (∃ recursive old, cat path fs = Ret old ∧ rm path recursive fs = (Ret tt, fs')) →
  ∀ q,
    (getNodeType q fs = Ret Directory → getNodeType q fs' = Ret Directory)
    ∧ (∀ content,
         cat q fs = Ret content →
         _resolvePath q fs ≠ _resolvePath path fs →
         cat q fs' = Ret content).
Proof.
  intros Hwf Hrun.
  assert (∃ d nm dn children new,
            _resolveParentAndName path fs = Ret (d, nm)
            ∧ heap fs !! d = Some dn ∧ data dn = DirectoryNode children
            ∧ (∀ c, children !! nm = Some c → ¬ is_dir fs c)
            ∧ root fs' = root fs
            ∧ heap fs' !! d = Some (mkFSNode (name dn) (parent dn) (DirectoryNode new))
            ∧ (∀ k, k ≠ nm → new !! k = children !! k)
            ∧ (∀ p pn, heap fs !! p = Some pn → p ≠ d → heap fs' !! p = Some pn))
    as (d & nm & dn & children & new & Hrpn & Hd & Hdata & Hocc & Hroot & Hd' & Hnew & Hrest).
  { destruct Hrun as [[content Hw]|(recursive & old & Hcat & Hrm)].
    - destruct (_resolveParentAndName path fs) as [[d nm]| | |] eqn:Hrpn;
        try (by unfold writeFile, mbind, M_bind, read in Hw; rewrite Hrpn in Hw).
      destruct (resolveParentAndName_children path fs d nm Hrpn)
        as (dn & children & Hd & Hdata & Hch).
      destruct (writeFile_Ret_inv path content fs fs' d nm children Hrpn Hch Hw)
        as [Hfile Hstore].
      rewrite (create_run d nm _ fs dn children Hd Hdata) in Hstore. injection Hstore as <-.
      pose proof (fresh_not_in_heap fs) as Hfresh.
      exists d, nm, dn, children, (<[nm := fresh (dom (heap fs))]> children).
      split_and!; try done.
      + intros c Hc (cn & ? & Hcn & Hcd). destruct (Hfile c Hc) as (cn' & Hcn' & Hty).
        assert (cn' = cn) as -> by congruence. unfold getType in Hty. by rewrite Hcd in Hty.
      + unfold created, with_children. simpl. by rewrite lookup_insert_eq.
      + intros k Hk. by rewrite lookup_insert_ne.
      + intros p pn Hp Hne. by apply created_frame.
    - destruct (_resolveParentAndName path fs) as [[d nm]| | |] eqn:Hrpn;
        try (by revert Hrm; unfold rm; destruct (decide (path = "/")); [done|];
                unfold mbind, M_bind, read; rewrite Hrpn).
      destruct (resolveParentAndName_children path fs d nm Hrpn)
        as (dn & children & Hd & Hdata & Hch).
      destruct (children !! nm) as [c|] eqn:Hc.
      2:{ revert Hrm. unfold rm. destruct (decide (path = "/")); [done|].
          unfold mbind, M_bind, read. by rewrite Hrpn, Hch, Hc. }
      destruct (wf_child fs Hwf d dn children nm c Hd Hdata Hc) as (cn & Hcn & _).
      exists d, nm, dn, children, (delete nm children).
      assert (fs' = with_children fs d dn (delete nm children)) as ->.
      { revert Hrm. unfold rm. destruct (decide (path = "/")); [done|].
        unfold mbind at 1, M_bind at 1, read at 1. rewrite Hrpn.
        unfold mbind at 1, M_bind at 1, read at 1. rewrite Hch, Hc.
        unfold mbind at 1, M_bind at 1, read at 1, deref. rewrite Hcn. unfold erase_child.
        destruct (data cn) as [|grandchildren].
        - rewrite (modify_children_Ret d _ fs dn children Hd Hdata). by intros [= <-].
        - destruct (decide (recursive = false ∧ grandchildren ≠ ∅)); [done|].
          rewrite (modify_children_Ret d _ fs dn children Hd Hdata). by intros [= <-]. }
      split_and!; try done.
      + intros c' Hc' Hcdir. assert (c' = c) as -> by congruence.
        (* the path led to a file, so the entry removed did not lead to a directory *)
        apply cat_Ret in Hcat as (f & fn & Hres & Hfn & Hfdata).
        destruct (resolveParentAndName_Ret path fs d nm Hrpn)
          as (prefix & ? & ? & _ & _ & Hn0 & Hp1 & Hp2 & Hwalk & Htokens).
        destruct (resolvePath_inv fs path f Hwf Hres) as (_ & _ & [(? & ? & ? & ?)|Hfile]);
          [congruence|].
        destruct Hfile as (l & k & dd & ddn & dch & fn' & content' & Htokens' & Hwalk' & Hdd
                           & Hdddata & Hk & _).
        rewrite Htokens in Htokens'. apply app_inj_tail in Htokens' as [<- <-].
        assert (dd = d) as -> by congruence.
        assert (ddn = dn) as -> by congruence.
        assert (dch = children) as -> by congruence.
        assert (c = f) as -> by congruence.
        destruct Hcdir as (? & ? & ? & ?). congruence.
      + unfold with_children. simpl. by rewrite lookup_insert_eq.
      + intros k Hk. by rewrite lookup_delete_ne.
      + intros p pn Hp Hne. unfold with_children. simpl. by rewrite lookup_insert_ne. }
  assert (keeps_directories fs fs') as Hkeep.
  { split; [done|]. intros p pn pch Hp Hpdata.
    destruct (decide (p = d)) as [->|Hne].
    - assert (pn = dn) as -> by congruence.
      assert (pch = children) as -> by congruence.
      exists new. split; [done|]. intros k c Hk Hcdir.
      rewrite Hnew; [done|]. intros ->. by apply (Hocc c).
    - exists pch. rewrite (Hrest p pn Hp Hne). split; [|done].
      destruct pn; simpl in *; by subst. }
  intros q. split; [by apply getNodeType_keeps_directories|].
  intros content Hcat Hother.
  apply (cat_keeps_directories fs fs' q content Hwf Hkeep Hcat).
  intros f fn dd ddn dch k Hres Hfn Hdd Hdddata Hk Hk0 Hk1 Hk2.
  assert (f ≠ d) as Hfd.
  { intros ->. apply cat_Ret in Hcat as (f' & fn' & Hres' & Hfn' & Hfdata').
    assert (f' = d) as -> by congruence. congruence. }
  split; [by apply Hrest|].
  destruct (decide (dd = d)) as [->|Hne].
  - assert (ddn = dn) as -> by congruence.
    assert (dch = children) as -> by congruence.
    exists new. split; [done|]. rewrite Hnew; [done|]. intros ->.
    (* the entry written or removed is the one [q] ends with: [q] leads where [path] does *)
    apply Hother. rewrite Hres. symmetry.
    assert (nm ≠ "." ∧ nm ≠ "..") as [Hn1 Hn2] by done.
    rewrite (resolvePath_child fs path d nm children Hrpn Hn1 Hn2)
      by (by unfold children_of; rewrite Hd, Hdata).
    by rewrite Hk, Hfn.
  - exists dch. rewrite (Hrest dd ddn Hdd Hne). split; [|done].
    destruct ddn; simpl in *; by subst.
Qed.

Lemma writing_and_removing_leave_the_rest_witness :
  cat "/f" (run (writeFile "/g" []) fs_f_g) = cat "/f" fs_f_g
  ∧ cat "/g" (run (rm "/f" false) fs_f_g) = cat "/g" fs_f_g.
Proof.
  assert (wf fs_f_g) as Hwf by (apply wfb_sound; vm_compute; reflexivity).
  split.
  - destruct (writing_and_removing_leave_the_rest fs_f_g "/g" (run (writeFile "/g" []) fs_f_g)
                Hwf) with (q := "/f") as [_ Hcat].
    + left. exists []. reflexivity.
    + rewrite (Hcat (list_byte_of_string "moved")); [done|vm_compute; reflexivity|].
      vm_compute. by intros [=].
  - destruct (writing_and_removing_leave_the_rest fs_f_g "/f" (run (rm "/f" false) fs_f_g)
                Hwf) with (q := "/g") as [_ Hcat].
    + right. exists false, (list_byte_of_string "moved"). split; vm_compute; reflexivity.
    + rewrite (Hcat (list_byte_of_string "kept")); [done|vm_compute; reflexivity|].
      vm_compute. by intros [=].
Defined.

(** ** [mv] of a directory *)

(** A walk without ".." only goes down. *)
Lemma resolve_loop_descends fs components :
  Forall (λ component, component ≠ "..") components →
  ∀ current d,
    resolve_loop fs components current = Ret d →
    ∃ k, nsteps (child_edge fs) k current d.
Proof.
  induction 1 as [|component rest Hc _ IH]; intros current d; simpl.
  - intros [= <-]. exists 0. constructor.
  - destruct (decide (component = "" ∨ component = ".")); [by apply IH|].
    rewrite !(decide_False (P := component = "..")) by done.
    destruct (children_of current fs) as [children| | |] eqn:Hch; simpl; try done.
    apply children_of_Ret in Hch as (nd & Hnd & Hdata).
    destruct (children !! component) as [child|] eqn:Hchild; [|done].
    assert (child_edge fs current child) as Hedge by (by eexists _, _, _).
    unfold deref. destruct (heap fs !! child) as [cn|]; simpl; [|done].
    destruct (getType cn).
    + destruct (decide (rest ≠ [])); [done|]. intros [= <-].
      exists 1. by apply nsteps_once.
    + intros [k Hk]%IH. exists (S k). by eapply nsteps_l.
Qed.

(** A walk without ".." to a directory that is not [s] and not below it
    does not pass [s]. *)
Lemma resolve_loop_keeps_directories_but s fs fs' components d :
  keeps_directories_but s fs fs' →
  Forall (λ component, component ≠ "..") components →
  is_dir fs d →
  (¬ ∃ k, nsteps (child_edge fs) k s d) →
  ∀ current,
    resolve_loop fs components current = Ret d →
    resolve_loop fs' components current = Ret d.
Proof.
  intros [_ Hkeep] Hplain Hd Hout.
  induction Hplain as [|component rest Hc Hplain IH]; intros current; simpl; [done|].
  destruct (decide (component = "" ∨ component = ".")); [by apply IH|].
  rewrite !(decide_False (P := component = "..")) by done.
  destruct (children_of current fs) as [children| | |] eqn:Hch; simpl; try done.
  apply children_of_Ret in Hch as (nd & Hnd & Hdata).
  destruct (children !! component) as [child|] eqn:Hchild; [|done].
  unfold deref at 1. destruct (heap fs !! child) as [cn|] eqn:Hcn; simpl; [|done].
  unfold getType at 1. destruct (data cn) as [content|grandchildren] eqn:Hcdata.
  - destruct (decide (rest ≠ [])); [done|]. intros [= <-].
    destruct Hd as (? & ? & ? & ?). congruence.
  - intros Hwalk.
    assert (child_edge fs current child) as Hedge by (by eexists _, _, _).
    destruct (resolve_loop_descends fs rest Hplain child d Hwalk) as [k Hk].
    assert (child ≠ s) as Hcs by (intros ->; apply Hout; eauto).
    assert (current ≠ s) as Hns.
    { intros ->. apply Hout. exists (S k). by eapply nsteps_l. }
    destruct (Hkeep current nd children Hns Hnd Hdata) as (children' & Hnd' & Hkept).
    destruct (Hkeep child cn grandchildren Hcs Hcn Hcdata) as (grandchildren' & Hcn' & _).
    unfold children_of. rewrite Hnd'. simpl.
    rewrite (Hkept component child Hchild) by (done || by eexists _, _).
    unfold deref. rewrite Hcn'. simpl. by apply IH.
Qed.

(** A walk without ".." that starts at [s] or below it reads only what is
    below [s]. *)
Lemma resolve_loop_same_below s fs fs' components :
  same_below s fs fs' →
  Forall (λ component, component ≠ "..") components →
  ∀ current k,
    nsteps (child_edge fs) k s current →
    resolve_loop fs' components current = resolve_loop fs components current.
Proof.
  intros Hsame. induction 1 as [|component rest Hc _ IH]; intros current k Hk; simpl; [done|].
  destruct (decide (component = "" ∨ component = ".")); [by eapply IH|].
  rewrite !(decide_False (P := component = "..")) by done.
  pose proof (Hsame current k Hk) as Hcur.
  unfold children_of.
  destruct (heap fs !! current) as [nd|] eqn:Hnd, (heap fs' !! current) as [nd'|];
    simpl in *; try done.
  injection Hcur as Hcur. rewrite Hcur.
  destruct (data nd) as [|children] eqn:Hdata; simpl; [done|].
  destruct (children !! component) as [child|] eqn:Hchild; [|done].
  assert (nsteps (child_edge fs) (S k) s child) as Hk'.
  { eapply nsteps_r; [done|]. by eexists _, _, _. }
  pose proof (Hsame child (S k) Hk') as Hchild'.
  unfold deref.
  destruct (heap fs !! child) as [cn|], (heap fs' !! child) as [cn'|]; simpl in *; try done.
  injection Hchild' as Hchild'. unfold getType. rewrite Hchild'.
  destruct (data cn); [done|]. by eapply IH.
Qed.

Lemma ls_entries_same_data fs fs' order :
  (∀ nm c, (nm, c) ∈ order → data <$> heap fs' !! c = data <$> heap fs !! c) →
  ls_entries order fs' = ls_entries order fs.
Proof.
  unfold ls_entries. induction order as [|[nm child] order IH]; intros Hsame; simpl; [done|].
  rewrite IH by (intros nm' c' Hin; apply (Hsame nm'); by right).
  pose proof (Hsame nm child ltac:(by left)) as Hc. unfold deref.
  destruct (heap fs !! child) as [cn|], (heap fs' !! child) as [cn'|]; simpl in *; try done.
  injection Hc as Hc. unfold getType. by rewrite Hc.
Qed.

Lemma foldlM_ext {A B} (f g : B → A → outcome B) l :
  (∀ b a, a ∈ l → f b a = g b a) → ∀ b, foldlM f b l = foldlM g b l.
Proof.
  induction l as [|a l IH]; intros Hfg b; simpl; [done|].
  rewrite (Hfg b a) by (by left).
  destruct (g b a); simpl; try done. apply IH. intros b' a' Hin. apply Hfg. by right.
Qed.

Lemma FSNode_size_same_below s fs fs' :
  same_below s fs fs' →
  ∀ fuel x k,
    nsteps (child_edge fs) k s x →
    FSNode_size fuel fs' x = FSNode_size fuel fs x.
Proof.
  intros Hsame. induction fuel as [|fuel IH]; intros x k Hk; simpl; [done|].
  pose proof (Hsame x k Hk) as Hx. unfold deref.
  destruct (heap fs !! x) as [nd|] eqn:Hnd, (heap fs' !! x) as [nd'|]; simpl in *; try done.
  injection Hx as Hx. rewrite Hx.
  destruct (data nd) as [|children] eqn:Hdata; [done|].
  apply foldlM_ext. intros total [nm child] Hin%elem_of_map_to_list.
  rewrite (IH child (S k)); [done|].
  eapply nsteps_r; [done|]. by eexists _, _, _.
Qed.

(** A walk without ".." to the node that was moved away ends where its
    entry was. *)
Lemma resolve_loop_moved_away s sn op fs fs' components :
  wf fs →
  keeps_directories_but s fs fs' →
  heap fs !! s = Some sn →
  parent sn = Some op →
  (∀ opn children,
     heap fs' !! op = Some opn → data opn = DirectoryNode children →
     children !! name sn = None) →
  Forall (λ component, component ≠ "..") components →
  ∀ current,
    current ≠ s →
    resolve_loop fs components current = Ret s →
    resolve_loop fs' components current = Throw NotFound.
Proof.
  intros Hwf [_ Hkeep] Hs Hpar Hgone.
  induction 1 as [|component rest Hc _ IH]; intros current Hns; simpl; [congruence|].
  destruct (decide (component = "" ∨ component = ".")); [by apply IH|].
  rewrite !(decide_False (P := component = "..")) by done.
  destruct (children_of current fs) as [children| | |] eqn:Hch; simpl; try done.
  apply children_of_Ret in Hch as (nd & Hnd & Hdata).
  destruct (Hkeep current nd children Hns Hnd Hdata) as (children' & Hnd' & Hkept).
  unfold children_of. rewrite Hnd'. simpl.
  destruct (children !! component) as [child|] eqn:Hchild; [|done].
  destruct (wf_child fs Hwf current nd children component child Hnd Hdata Hchild)
    as (cn & Hcn & Hcpar & Hcname).
  destruct (decide (child = s)) as [->|Hcs].
  - intros _. assert (cn = sn) as -> by congruence.
    assert (current = op) as -> by congruence. subst component.
    by rewrite (Hgone _ children' Hnd' eq_refl).
  - unfold deref at 1. rewrite Hcn. simpl. unfold getType at 1.
    destruct (data cn) as [content|grandchildren] eqn:Hcdata.
    + destruct (decide (rest ≠ [])); [done|]. congruence.
    + intros Hwalk.
      destruct (Hkeep child cn grandchildren Hcs Hcn Hcdata) as (grandchildren' & Hcn' & _).
      rewrite (Hkept component child Hchild) by (done || by eexists _, _).
      unfold deref. rewrite Hcn'. simpl. by apply IH.
Qed.

(** X21.  [mv] moves a directory with everything below it.  On a
    well-formed store, when the source is a directory other than the root,
    the name [nn] that [_resolveDestination] gives in the directory [np] is
    free or holds a file, and [np] is neither the source nor below it, [mv]
    returns.  Afterwards every path [q] without "." and ".." that used to
    split into [np] and [nn] leads to the very node that was moved, and
    whatever path [rel] without ".." was read below the source is read the
    same below [q]: the same node, the same bytes, the same class, the
    same listing, the same size, the same exception.  A source path without
    "." and ".." no longer resolves (unless the directory was moved onto
    its own entry). *)
Theorem mv_moves_a_directory fs fuel src dest s sn children np nn entries :
  wf fs →
  _resolvePath src fs = Ret s →
  s ≠ root fs →
  heap fs !! s = Some sn →
  data sn = DirectoryNode children →
  _resolveDestination dest (name sn) fs = Ret (np, nn) →
  children_of np fs = Ret entries →
  (∀ c, entries !! nn = Some c → ¬ is_dir fs c) →
  (¬ ∃ k, nsteps (child_edge fs) k s np) →
  base.size (dom (heap fs)) ≤ fuel →
  ∃ fs' op,
    mv fuel src dest fs = (Ret tt, fs')
    ∧ parent sn = Some op
    ∧ (∀ q rel,
         _resolveParentAndName q fs = Ret (np, nn) →
         plain q →
         Forall (λ component, component ≠ "..") (getlines rel) →
         _resolvePath q fs' = Ret s
         ∧ _resolvePath (q ++ String "/" rel) fs' = _resolvePath (src ++ String "/" rel) fs
         ∧ cat (q ++ String "/" rel) fs' = cat (src ++ String "/" rel) fs
         ∧ getNodeType (q ++ String "/" rel) fs' = getNodeType (src ++ String "/" rel) fs
         ∧ exists_ (q ++ String "/" rel) fs' = exists_ (src ++ String "/" rel) fs
         ∧ ls (q ++ String "/" rel) fs' = ls (src ++ String "/" rel) fs
         ∧ ∀ budget, size budget (q ++ String "/" rel) fs'
                     = size budget (src ++ String "/" rel) fs)
    ∧ (plain src → (op, name sn) ≠ (np, nn) → exists_ src fs' = Ret false).
Proof.
  intros Hwf Hsrc Hnr Hs Hsdata Hdest Hentries Hocc Hguard Hfuel.
  destruct (resolveDestination_wf fs dest (name sn) Hwf)
    as [(d' & nn' & Hd' & [ancestors Hch] & Hnpdir)|[e He]]; [|congruence].
  assert (d' = np) as -> by congruence. clear Hd' nn'.
  assert (s ∉ np :: ancestors) as Hnotin.
  { by intros Hin%(chain_above fs s np ancestors Hwf Hch). }
  pose proof (chain_length fs Hwf np ancestors Hch) as Hlen.
  destruct (mv_run fs fuel src dest s sn np nn ancestors)
    as (fs' & op & Hrun & Hroot & Hpar & Hs' & Hdirs & Hfiles); try done; [lia|].
  exists fs', op. split; [done|]. split; [done|].
  apply children_of_Ret in Hentries as (npn & Hnp & Hnpdata).
  assert (np ≠ s) as Hnps by (intros ->; apply Hnotin; by left).
  destruct (resolvePath_inv fs src s Hwf Hsrc) as (Hsrc0 & Hreach & _).
  destruct (reachable_entry fs s sn Hwf Hreach Hnr Hs)
    as (op' & opn & siblings & Hpar' & Hop & Hopdata & Hsib & [above Hopch]).
  assert (op' = op) as -> by congruence. clear Hpar'.
  (* the old parent is not below the directory *)
  assert (¬ ∃ k, nsteps (child_edge fs) k s op) as Habove.
  { intros Hk%(chain_above fs s op above Hwf Hopch).
    assert (chain fs s (op :: above)) as Hsch.
    { constructor; [done|]. by eexists _, _, _. }
    pose proof (chain_NoDup fs Hwf s (op :: above) Hsch) as Hnd.
    by apply NoDup_cons in Hnd as [Hnd _]. }
  assert (op ≠ s) as Hops.
  { intros ->. apply Habove. exists 0. constructor. }
  assert (keeps_directories_but s fs fs') as Hkeep.
  { split; [done|]. intros p pn pch Hps Hp Hpdata.
    eexists. split; [by apply Hdirs|]. intros k c Hk Hcdir Hcs.
    assert ((if decide (p = op) then delete (name sn) else id) pch !! k = Some c) as Hk1.
    { destruct (decide (p = op)) as [->|_]; [|done].
      apply lookup_delete_Some. split; [|done]. intros <-.
      assert (opn = pn) as -> by congruence.
      assert (siblings = pch) as -> by congruence. congruence. }
    destruct (decide (p = np)) as [->|_]; [|done].
    rewrite lookup_insert_ne; [done|]. intros <-.
    assert (pn = npn) as -> by congruence.
    assert (pch = entries) as -> by congruence.
    by apply (Hocc c). }
  assert (same_below s fs fs') as Hsame.
  { intros x k Hk. destruct (decide (x = s)) as [->|Hxs].
    - by rewrite Hs', Hs.
    - assert (x ≠ np) as Hxnp by (intros ->; apply Hguard; eauto).
      assert (x ≠ op) as Hxop by (intros ->; apply Habove; eauto).
      assert (∃ xn, heap fs !! x = Some xn) as [xn Hxn].
      { destruct k as [|k]; [by inversion Hk|].
        apply nsteps_inv_r in Hk as (y & _ & Hedge).
        destruct (child_edge_inv fs Hwf y x Hedge) as (_ & cn & Hcn & _). eauto. }
      rewrite Hxn. destruct (data xn) as [content|xch] eqn:Hxdata.
      + rewrite (Hfiles x xn content Hxs Hxn Hxdata). simpl. by rewrite Hxdata.
      + rewrite (Hdirs x xn xch Hxs Hxn Hxdata). simpl.
        rewrite !decide_False by done. simpl. by rewrite Hxdata. }
  pose proof (Hdirs np npn entries Hnps Hnp Hnpdata) as Hnp'.
  rewrite decide_True in Hnp' by done.
  split.
  - intros q rel Hrpn Hq Hrel.
    destruct (resolveParentAndName_Ret q fs np nn Hrpn)
      as (prefix & npn' & entries' & _ & _ & Hn0 & Hq1 & Hq2 & Hwalk & Htokens).
    unfold plain in Hq. rewrite Htokens in Hq.
    apply Forall_app in Hq as [Hprefix [[Hn1 Hn2] _]%Forall_cons].
    assert (Forall (λ component, component ≠ "..") prefix) as Hprefix'.
    { eapply Forall_impl; [done|]. by intros ? [_ ?]. }
    pose proof (resolve_loop_keeps_directories_but s fs fs' prefix np Hkeep Hprefix' Hnpdir
                  Hguard (root fs) Hwalk) as Hwalk'.
    assert (resolve_loop fs' (getlines (skip_slash q)) (root fs) = Ret s) as Hqs.
    { rewrite Htokens.
      rewrite (resolve_loop_app fs' prefix _ (root fs) np Hwalk') by (by eexists _, _).
      erewrite resolve_loop_name; [|by unfold children_of; rewrite Hnp'|done..].
      rewrite lookup_insert_eq. by rewrite Hs'. }
    assert (resolve_loop fs (getlines (skip_slash src)) (root fs) = Ret s) as Hsrcs.
    { by rewrite <- resolvePath_walk. }
    assert (is_dir fs' s) as Hsdir' by (by eexists _, _).
    assert (is_dir fs s) as Hsdir by (by eexists _, _).
    assert (∀ x, q ++ String "/" x ≠ "") as Hqne by (intros x; by destruct q).
    assert (∀ x, src ++ String "/" x ≠ "") as Hsne by (intros x; by destruct src).
    assert (_resolvePath (q ++ String "/" rel) fs' = resolve_loop fs (getlines rel) s)
      as Hleft.
    { rewrite resolvePath_walk by done. rewrite Hroot.
      rewrite <- (resolve_loop_same_below s fs fs' (getlines rel) Hsame Hrel s 0)
        by constructor.
      destruct (path_components_after q rel Hq1) as [-> | ->];
        by rewrite (resolve_loop_app fs' _ _ (root fs) s Hqs). }
    assert (_resolvePath (src ++ String "/" rel) fs = resolve_loop fs (getlines rel) s)
      as Hright.
    { rewrite resolvePath_walk by done.
      destruct (path_components_after src rel Hsrc0) as [-> | ->];
        by rewrite (resolve_loop_app fs _ _ (root fs) s Hsrcs). }
    split.
    { rewrite resolvePath_walk by done. by rewrite Hroot. }
    split; [by rewrite Hleft, Hright|].
    unfold cat, getNodeType, exists_, ls, ls_in_order, size.
    rewrite Hleft, Hright.
    destruct (resolve_loop fs (getlines rel) s) as [x| | |] eqn:Hx; simpl; try done.
    destruct (resolve_loop_descends fs (getlines rel) Hrel s x Hx) as [k Hk].
    pose proof (Hsame x k Hk) as Hxdata. unfold deref.
    destruct (heap fs !! x) as [xn|] eqn:Hxn, (heap fs' !! x) as [xn'|] eqn:Hxn';
      simpl in *; try done.
    + injection Hxdata as Hxdata. unfold getType. rewrite Hxdata.
      split_and!; try done.
      * destruct (data xn) as [|xch] eqn:Hxch; [done|].
        rewrite (ls_entries_same_data fs fs'); [done|].
        intros nm c Hin%elem_of_map_to_list. apply (Hsame c (S k)).
        eapply nsteps_r; [done|]. by eexists _, _, _.
      * intros budget. by apply (FSNode_size_same_below s fs fs' Hsame budget x k).
    + split_and!; try done. intros budget.
      by apply (FSNode_size_same_below s fs fs' Hsame budget x k).
  - intros Hplain Hne. unfold plain in Hplain.
    assert (Forall (λ component, component ≠ "..") (getlines (skip_slash src))) as Hplain'.
    { eapply Forall_impl; [done|]. by intros ? [_ ?]. }
    rewrite resolvePath_walk in Hsrc by done.
    unfold exists_. rewrite resolvePath_walk by done. rewrite Hroot.
    rewrite (resolve_loop_moved_away s sn op fs fs' _ Hwf Hkeep Hs Hpar); try done.
    intros opn' ch' Hop' Hch'.
    rewrite (Hdirs op opn siblings Hops Hop Hopdata) in Hop'.
    injection Hop' as <-. simpl in Hch'. injection Hch' as <-.
    rewrite (decide_True (P := op = op)) by done.
    destruct (decide (op = np)) as [->|_].
    + rewrite lookup_insert_ne by congruence. by rewrite lookup_delete_eq.
    + simpl. by rewrite lookup_delete_eq.
Qed.
Lemma mv_moves_a_directory_witness :
  ∃ fs' op,
    mv 4 "/dir" "/data" fs_sizes = (Ret tt, fs')
    ∧ Some 1%positive = Some op
    ∧ (∀ q rel,
         _resolveParentAndName q fs_sizes = Ret (1%positive, "data") →
         plain q →
         Forall (λ component, component ≠ "..") (getlines rel) →
         _resolvePath q fs' = Ret 2%positive
         ∧ _resolvePath (q ++ String "/" rel) fs' = _resolvePath ("/dir" ++ String "/" rel) fs_sizes
         ∧ cat (q ++ String "/" rel) fs' = cat ("/dir" ++ String "/" rel) fs_sizes
         ∧ getNodeType (q ++ String "/" rel) fs'
           = getNodeType ("/dir" ++ String "/" rel) fs_sizes
         ∧ exists_ (q ++ String "/" rel) fs' = exists_ ("/dir" ++ String "/" rel) fs_sizes
         ∧ ls (q ++ String "/" rel) fs' = ls ("/dir" ++ String "/" rel) fs_sizes
         ∧ ∀ budget, size budget (q ++ String "/" rel) fs'
                     = size budget ("/dir" ++ String "/" rel) fs_sizes)
    ∧ (plain "/dir" → (op, "dir") ≠ (1%positive, "data") → exists_ "/dir" fs' = Ret false).
Proof.
  assert (wf fs_sizes) as Hwf by (apply wfb_sound; vm_compute; reflexivity).
  apply (mv_moves_a_directory fs_sizes 4 "/dir" "/data" 2%positive
           (mkFSNode "dir" (Some 1%positive)
              (DirectoryNode (<["twenty" := 4%positive]> {[ "ten" := 3%positive ]})))
           (<["twenty" := 4%positive]> {[ "ten" := 3%positive ]})
           1%positive "data" {[ "dir" := 2%positive ]});
    [done|vm_compute; reflexivity|done|vm_compute; reflexivity|reflexivity
    |vm_compute; reflexivity|vm_compute; reflexivity| | |vm_compute; lia].
  - intros c Hc. by apply lookup_singleton_Some in Hc as [[=] _].
  - intros Hk.
    apply (chain_above fs_sizes 2%positive 1%positive [] Hwf (chain_root fs_sizes)) in Hk.
    by apply list_elem_of_singleton in Hk.
Defined.

(** ** [rm]: what is outside the part removed *)

Lemma rm_Ret_inv path recursive fs fs' d nm :
  _resolveParentAndName path fs = Ret (d, nm) →
  rm path recursive fs = (Ret tt, fs') →
  ∃ dn children c,
    heap fs !! d = Some dn ∧ data dn = DirectoryNode children ∧ children !! nm = Some c
    ∧ fs' = with_children fs d dn (delete nm children).
Proof.
  intros Hrpn.
  destruct (resolveParentAndName_children path fs d nm Hrpn)
    as (dn & children & Hd & Hdata & Hch).
  unfold rm. destruct (decide (path = "/")); [done|].
  unfold mbind at 1, M_bind at 1, read at 1. rewrite Hrpn.
  unfold mbind at 1, M_bind at 1, read at 1. rewrite Hch.
  destruct (children !! nm) as [c|] eqn:Hc; [|done].
  unfold mbind at 1, M_bind at 1, read at 1, deref.
  destruct (heap fs !! c) as [cn|]; [|done]. unfold erase_child.
  intros Hrm. exists dn, children, c. split_and!; try done. revert Hrm.
  destruct (data cn) as [|grandchildren].
  - rewrite (modify_children_Ret d _ fs dn children Hd Hdata). by intros [= <-].
  - destruct (decide (recursive = false ∧ grandchildren ≠ ∅)); [done|].
    rewrite (modify_children_Ret d _ fs dn children Hd Hdata). by intros [= <-].
Qed.

(** X22.  [rm] leaves alone what is outside the part it removes.  On a
    well-formed store, when [rm] has removed the entry that led to the node
    [c], every path without ".." that led to a node other than [c] and not
    below [c] leads to the same node afterwards, of the same class, and a
    file there reads as before. *)
Theorem rm_keeps_what_is_outside fs path recursive fs' d nm children c :
  wf fs →
  _resolveParentAndName path fs = Ret (d, nm) →
  children_of d fs = Ret children →
  children !! nm = Some c →
  rm path recursive fs = (Ret tt, fs') →
  ∀ q x,
    Forall (λ component, component ≠ "..") (getlines (skip_slash q)) →
    _resolvePath q fs = Ret x →
    (¬ ∃ k, nsteps (child_edge fs) k c x) →
    _resolvePath q fs' = Ret x
    ∧ cat q fs' = cat q fs
    ∧ getNodeType q fs' = getNodeType q fs.
Proof.
  intros Hwf Hrpn Hch Hc Hrm q x Hq Hx Hout.
  destruct (rm_Ret_inv path recursive fs fs' d nm Hrpn Hrm)
    as (dn & children' & c' & Hd & Hdata & Hc' & ->).
  apply children_of_Ret in Hch as (dn' & Hd' & Hdata').
  assert (dn' = dn) as -> by congruence.
  assert (children' = children) as -> by congruence.
  assert (c' = c) as -> by congruence. clear Hd' Hdata' Hc'.
  set (fs' := with_children fs d dn (delete nm children)).
  assert (heap fs' !! d
          = Some (mkFSNode (name dn) (parent dn) (DirectoryNode (delete nm children))))
    as Hd1 by (unfold fs', with_children; simpl; by rewrite lookup_insert_eq).
  assert (∀ p, p ≠ d → heap fs' !! p = heap fs !! p) as Hrest.
  { intros p Hne. unfold fs', with_children. simpl. by rewrite lookup_insert_ne. }
  assert (keeps_directories_but c fs fs') as Hkeep.
  { split; [done|]. intros p pn pch Hpc Hp Hpdata.
    destruct (decide (p = d)) as [->|Hne].
    - assert (pn = dn) as -> by congruence.
      assert (pch = children) as -> by congruence.
      exists (delete nm children). split; [done|]. intros k c' Hk _ Hne.
      rewrite lookup_delete_ne; [done|]. congruence.
    - exists pch. rewrite (Hrest p Hne), Hp. split; [|done].
      destruct pn; simpl in *; by subst. }
  assert (x ≠ c) as Hxc by (intros ->; apply Hout; exists 0; constructor).
  destruct (resolvePath_inv fs q x Hwf Hx) as (Hq0 & Hreach & Hcases).
  rewrite resolvePath_walk in Hx by done.
  assert (root fs' = root fs) as Hroot by done.
  destruct Hcases as [Hxdir|Hfile].
  - (* a directory *)
    pose proof (resolve_loop_keeps_directories_but c fs fs' _ x Hkeep Hq Hxdir Hout
                  (root fs) Hx) as Hx'.
    assert (_resolvePath q fs' = Ret x) as Hres'.
    { rewrite resolvePath_walk by done. by rewrite Hroot. }
    destruct Hxdir as (xn & xch & Hxn & Hxdata).
    destruct Hkeep as [_ Hkeep].
    destruct (Hkeep x xn xch Hxc Hxn Hxdata) as (xch' & Hxn' & _).
    split; [done|]. unfold cat, getNodeType. rewrite Hres'.
    rewrite (resolvePath_walk q fs), Hx by done. simpl. unfold deref.
    rewrite Hxn, Hxn'. simpl. unfold getType. simpl. by rewrite Hxdata.
  - (* a file *)
    destruct Hfile as (l & k & dd & ddn & dch & fn & content & Htokens & Hwalk & Hdd
                       & Hdddata & Hk & (Hk0 & Hk1 & Hk2) & Hfn & Hfdata).
    rewrite Htokens in Hq. apply Forall_app in Hq as [Hl _].
    assert (is_dir fs dd) as Hdddir by (by eexists _, _).
    assert (child_edge fs dd x) as Hedge by (by eexists _, _, _).
    assert (¬ ∃ k, nsteps (child_edge fs) k c dd) as Hout'.
    { intros [j Hj]. apply Hout. exists (S j). by eapply nsteps_r. }
    pose proof (resolve_loop_keeps_directories_but c fs fs' l dd Hkeep Hl Hdddir Hout'
                  (root fs) Hwalk) as Hwalk'.
    assert (x ≠ d) as Hxd.
    { intros ->. congruence. }
    assert (∃ dch', children_of dd fs' = Ret dch' ∧ dch' !! k = Some x)
      as (dch' & Hdch' & Hk').
    { destruct (decide (dd = d)) as [->|Hne].
      - assert (ddn = dn) as -> by congruence.
        assert (dch = children) as -> by congruence.
        exists (delete nm children). split; [by unfold children_of; rewrite Hd1|].
        rewrite lookup_delete_ne; [done|]. congruence.
      - exists dch. split; [|done]. unfold children_of. by rewrite (Hrest dd Hne), Hdd, Hdddata. }
    assert (_resolvePath q fs' = Ret x) as Hres'.
    { rewrite resolvePath_walk by done. rewrite Htokens, Hroot.
      rewrite (resolve_loop_app fs' l _ (root fs) dd Hwalk').
      - erewrite resolve_loop_name; [|done..]. by rewrite Hk', (Hrest x Hxd), Hfn.
      - apply children_of_Ret in Hdch' as (? & ? & ?). by eexists _, _. }
    split; [done|]. unfold cat, getNodeType. rewrite Hres'.
    rewrite (resolvePath_walk q fs), Hx by done. simpl. unfold deref.
    by rewrite (Hrest x Hxd).
Qed.

Lemma rm_keeps_what_is_outside_witness :
  _resolvePath "/notes" (run (rm "/home" true) fs_notes) = Ret 3%positive
  ∧ cat "/notes" (run (rm "/home" true) fs_notes) = cat "/notes" fs_notes
  ∧ getNodeType "/notes" (run (rm "/home" true) fs_notes) = getNodeType "/notes" fs_notes.
Proof.
  apply (rm_keeps_what_is_outside fs_notes "/home" true (run (rm "/home" true) fs_notes)
           1%positive "home" (<["notes" := 3%positive]> {[ "home" := 2%positive ]})
           2%positive).
  - apply wfb_sound. vm_compute. reflexivity.
  - vm_compute. reflexivity.
  - vm_compute. reflexivity.
  - vm_compute. reflexivity.
  - vm_compute. reflexivity.
  - by repeat constructor.
  - vm_compute. reflexivity.
  - intros [k Hk]. inversion Hk as [|? ? y ? (nd & children & key & Hnd & Hdata & Hkey) _].
    vm_compute in Hnd. injection Hnd as <-. simpl in Hdata. injection Hdata as <-.
    vm_compute in Hkey. done.
Defined.

(** ** [ls] and what is below a directory *)

Lemma string_app_empty s : s ++ "" = s.
Proof.
  induction s as [|a s IH]; [done|]. change (String a (s ++ "") = String a s). by f_equal.
Qed.

Lemma slash_at_end s : ¬ no_slash (s ++ "/").
Proof.
  induction s as [|a s IH].
  - by intros [? _]%no_slash_cons.
  - change (¬ no_slash (String a (s ++ "/"))). by intros [_ ?]%no_slash_cons.
Qed.

(** A name below a path that leads to a directory is looked up in that
    directory. *)
Lemma resolvePath_below fs p d children n :
  _resolvePath p fs = Ret d →
  children_of d fs = Ret children →
  n ≠ "" → no_slash n → n ≠ "." → n ≠ ".." →
  _resolvePath (p ++ String "/" n) fs
  = match children !! n with
    | None => Throw NotFound
    | Some c => if heap fs !! c is Some _ then Ret c else Fault
    end.
Proof.
  intros Hp Hch Hn0 Hns Hn1 Hn2.
  assert (p ≠ "") as Hp0 by (by intros ->).
  assert (is_dir fs d) as Hd.
  { apply children_of_Ret in Hch as (? & ? & ?). by eexists _, _. }
  rewrite resolvePath_walk in Hp by done.
  rewrite resolvePath_walk by (by destruct p).
  rewrite <- (resolve_loop_name fs d children n) by done.
  destruct (path_components_after p n Hp0) as [-> | ->];
    rewrite (resolve_loop_app fs _ _ (root fs) d Hp Hd), (getlines_no_slash n) by done;
    [done|].
  change ("" :: [n]) with ([""] ++ [n])%list.
  by apply resolve_loop_app.
Qed.

(** X23.  [ls] lists what is there.  On a well-formed store, when [ls(p)]
    returns, it has the line [n] exactly when [p/n] is a file, and it has the
    line [n/] when [p/n] is a directory, for every name [n] that a path can
    hold: not empty, without a slash, and other than "." and "..". *)
Theorem ls_lists_what_is_there fs p lines n :
  wf fs →
  ls p fs = Ret lines →
  n ≠ "" → no_slash n → n ≠ "." → n ≠ ".." →
  (getNodeType (p ++ String "/" n) fs = Ret File ↔ n ∈ lines)
  ∧ (getNodeType (p ++ String "/" n) fs = Ret Directory → (n ++ "/") ∈ lines).
Proof.
  intros Hwf Hls Hn0 Hns Hn1 Hn2.
  assert (∃ d nd children,
            _resolvePath p fs = Ret d ∧ heap fs !! d = Some nd
            ∧ data nd = DirectoryNode children)
    as (d & nd & children & Hres & Hnd & Hdata).
  { revert Hls. unfold ls, ls_in_order.
    destruct (_resolvePath p fs) as [d| | |]; simpl; try done.
    unfold deref. destruct (heap fs !! d) as [nd|] eqn:Hnd; simpl; [|done].
    destruct (data nd) as [|children] eqn:Hdata; [done|]. intros _. by exists d, nd, children. }
  unfold ls in Hls.
  rewrite (ls_in_order_spec fs map_to_list p d nd children Hwf Hres Hnd Hdata) in Hls
    by done.
  injection Hls as <-.
  assert (∀ line, line ∈ sort (entry_of fs <$> map_to_list children)
                  ↔ ∃ k c, children !! k = Some c ∧ line = entry_of fs (k, c)) as Hin.
  { intros line. rewrite (sort_perm (entry_of fs <$> map_to_list children)).
    rewrite list_elem_of_fmap. split.
    - intros ([k c] & -> & Hkc%elem_of_map_to_list). eauto.
    - intros (k & c & Hkc & ->). exists (k, c). split; [done|]. by apply elem_of_map_to_list. }
  unfold getNodeType.
  rewrite (resolvePath_below fs p d children n Hres) by (done || by apply children_of_Ret; eauto).
  split; [split|].
  - destruct (children !! n) as [c|] eqn:Hc; [|done]. unfold deref.
    destruct (heap fs !! c) as [cn|] eqn:Hcn; simpl; [|done]. rewrite Hcn. simpl.
    intros [= Hty]. apply Hin. exists n, c. split; [done|].
    unfold entry_of. simpl. rewrite Hcn, Hty. simpl. by rewrite string_app_empty.
  - intros (k & c & Hkc & Hline)%Hin.
    destruct (wf_child fs Hwf d nd children k c Hnd Hdata Hkc) as (cn & Hcn & _).
    unfold entry_of in Hline. simpl in Hline. rewrite Hcn in Hline.
    destruct (decide (getType cn = Directory)) as [|Hty].
    + subst n. by destruct (slash_at_end k).
    + rewrite string_app_empty in Hline. subst k. rewrite Hkc, Hcn. simpl.
      unfold deref. rewrite Hcn. simpl. by destruct (getType cn).
  - destruct (children !! n) as [c|] eqn:Hc; [|done]. unfold deref.
    destruct (heap fs !! c) as [cn|] eqn:Hcn; simpl; [|done]. rewrite Hcn. simpl.
    intros [= Hty]. apply Hin. exists n, c. split; [done|].
    unfold entry_of. simpl. by rewrite Hcn, Hty.
Qed.

Lemma ls_lists_what_is_there_witness :
  (getNodeType ("/" ++ String "/" "notes") fs_notes = Ret File ↔ "notes" ∈ ["home/"; "notes"])
  ∧ (getNodeType ("/" ++ String "/" "home") fs_notes = Ret Directory
     → ("home" ++ "/") ∈ ["home/"; "notes"]).
Proof.
  assert (wf fs_notes) as Hwf by (apply wfb_sound; vm_compute; reflexivity).
  assert (ls "/" fs_notes = Ret ["home/"; "notes"]) as Hls by (vm_compute; reflexivity).
  split.
  - by apply (ls_lists_what_is_there fs_notes "/" ["home/"; "notes"] "notes" Hwf Hls).
  - by apply (ls_lists_what_is_there fs_notes "/" ["home/"; "notes"] "home" Hwf Hls).
Defined.

(** ** Where [cp] and [mv] put a file *)

Lemma getlines_all_no_slash s : Forall no_slash (getlines s).
Proof.
  induction s as [|c s IH]; simpl; [done|].
  destruct (decide (c = "/"%char)) as [->|Hc]; [by constructor|].
  destruct (getlines s) as [|w ws]; [by repeat constructor; apply no_slash_cons|].
  apply Forall_cons in IH as [Hw Hws]. constructor; [|done].
  by apply no_slash_cons.
Qed.

(** The name of a file that a path leads to is the last component of the
    path. *)
Lemma resolvePath_file_name fs src s sn content :
  wf fs →
  _resolvePath src fs = Ret s → heap fs !! s = Some sn → data sn = FileNode content →
  name sn ≠ "" ∧ no_slash (name sn) ∧ name sn ≠ "." ∧ name sn ≠ "..".
Proof.
  intros Hwf Hsrc Hs Hsdata.
  destruct (resolvePath_inv fs src s Hwf Hsrc) as (_ & _ & [(? & ? & ? & ?)|Hfile]);
    [congruence|].
  destruct Hfile as (l & k & dd & ddn & dch & fn & content' & Htokens & Hwalk & Hdd & Hdddata
                     & Hk & (Hk0 & Hk1 & Hk2) & _).
  destruct (wf_child fs Hwf dd ddn dch k s Hdd Hdddata Hk) as (sn' & Hsn' & _ & Hname).
  assert (sn' = sn) as -> by congruence. subst k. split_and!; try done.
  pose proof (getlines_all_no_slash (skip_slash src)) as Hall.
  rewrite Htokens in Hall. by apply Forall_app in Hall as [_ [? _]%Forall_cons].
Qed.

Lemma resolveDestination_into dest nm fs d entries :
  _resolvePath dest fs = Ret d →
  children_of d fs = Ret entries →
  entries !! nm = None →
  _resolveDestination dest nm fs = Ret (d, nm).
Proof.
  intros Hdest (dn & Hd & Hdata)%children_of_Ret Hfree.
  unfold _resolveDestination, _resolveDestination_try. rewrite Hdest. simpl.
  unfold deref. rewrite Hd. simpl. by rewrite Hdata, Hfree.
Qed.

Lemma resolveDestination_new dest nm fs e :
  _resolvePath dest fs = Throw e →
  _resolveDestination dest nm fs = _resolveParentAndName dest fs.
Proof.
  intros Hdest. apply (resolveDestination_fallback dest nm fs e).
  unfold _resolveDestination_try. by rewrite Hdest.
Qed.

(** X24.  Where [cp] and [mv] put a file.  On a well-formed store, with a
    source that is a file: when the destination is a directory that has no
    entry of the file's name, [cp] and [mv] return and the content is then
    read at the destination path followed by "/" and the file's name; when
    the destination does not resolve but splits into a directory and a name
    other than "." and "..", they return and the content is then read at
    the destination path itself.  After [cp] the source still reads the same;
    after [mv] the source path no longer resolves. *)
Theorem file_arrives_at_the_destination fs fuel src dest s sn content :
  wf fs →
  _resolvePath src fs = Ret s →
  heap fs !! s = Some sn →
  data sn = FileNode content →
  base.size (dom (heap fs)) ≤ fuel →
  (∀ d entries,
     _resolvePath dest fs = Ret d →
     children_of d fs = Ret entries →
     entries !! name sn = None →
     (∃ fs', cp fuel src dest fs = (Ret tt, fs')
             ∧ cat (dest ++ String "/" (name sn)) fs' = Ret content
             ∧ cat src fs' = Ret content)
     ∧ (∃ fs', mv fuel src dest fs = (Ret tt, fs')
               ∧ cat (dest ++ String "/" (name sn)) fs' = Ret content
               ∧ exists_ src fs' = Ret false))
  ∧ (∀ e dp nn,
       _resolvePath dest fs = Throw e →
       _resolveParentAndName dest fs = Ret (dp, nn) →
       nn ≠ "." → nn ≠ ".." →
       (∃ fs', cp fuel src dest fs = (Ret tt, fs')
               ∧ cat dest fs' = Ret content
               ∧ cat src fs' = Ret content)
       ∧ (∃ fs', mv fuel src dest fs = (Ret tt, fs')
                 ∧ cat dest fs' = Ret content
                 ∧ exists_ src fs' = Ret false)).
Proof.
  intros Hwf Hsrc Hs Hsdata Hfuel.
  destruct (resolvePath_file_name fs src s sn content Hwf Hsrc Hs Hsdata)
    as (Hn0 & Hns & Hn1 & Hn2).
  assert (cat src fs = Ret content) as Hcat by (apply cat_Ret; by exists s, sn).
  assert (s ≠ root fs) as Hnr.
  { intros ->. destruct (wf_root_dir fs Hwf) as (? & ? & ? & ?). congruence. }
  destruct (resolvePath_inv fs src s Hwf Hsrc) as (_ & Hreach & _).
  destruct (reachable_entry fs s sn Hwf Hreach Hnr Hs)
    as (op & opn & siblings & Hpar & Hop & Hopdata & Hsib & _).
  split.
  - intros d entries Hd Hentries Hfree.
    pose proof (resolveDestination_into dest (name sn) fs d entries Hd Hentries Hfree) as Hdest.
    pose proof Hentries as (dn & Hdn & Hddata)%children_of_Ret.
    split.
    + rewrite (cp_file_run fuel src dest fs s sn content d (name sn) dn entries) by done.
      rewrite Hfree. eexists. split; [done|].
      set (fs' := created fs d dn entries (name sn) (mkFSNode (name sn) (Some d) (FileNode content))).
      assert (extends fs fs') as Hext by (by apply extends_created).
      split; [|by apply (cat_extends fs fs')].
      pose proof (resolvePath_extends fs fs' dest d Hext Hd) as Hd'.
      assert (children_of d fs' = Ret (<[name sn := fresh (dom (heap fs))]> entries)) as Hch'.
      { unfold children_of, fs', created, with_children. simpl. by rewrite lookup_insert_eq. }
      assert (heap fs' !! fresh (dom (heap fs)) = Some (mkFSNode (name sn) (Some d) (FileNode content))) as Hnew.
      { by apply created_new_node. }
      apply cat_Ret. exists (fresh (dom (heap fs))), (mkFSNode (name sn) (Some d) (FileNode content)).
      split; [|done].
      rewrite (resolvePath_below fs' dest d _ (name sn) Hd' Hch') by done.
      by rewrite lookup_insert_eq, Hnew.
    + destruct (mv_file_run fs fuel src dest s sn content d (name sn) entries)
        as (fs' & op' & entries' & Hrun & Hpar' & Hkeep & Hs' & Hnp' & Hnn & Hgone);
        try done.
      { intros c. by rewrite Hfree. }
      assert (op' = op) as -> by congruence.
      exists fs'. split; [done|]. split.
      * assert (_resolvePath dest fs' = Ret d) as Hd'.
        { assert (dest ≠ "") as Hd0 by (by intros ->).
          rewrite resolvePath_walk in Hd by done.
          rewrite resolvePath_walk by done.
          assert (reachable fs (root fs)) as Hrr by (eexists; constructor).
          assert (is_dir fs d) as Hddir by (by eexists _, _).
          pose proof (resolve_loop_keeps_directories fs fs' _ (root fs) d Hwf Hkeep Hrr
                        (wf_root_dir fs Hwf) Hd Hddir) as Hwalk'.
          destruct Hkeep as [Hroot _]. by rewrite Hroot. }
        apply cat_Ret. exists s, (mkFSNode (name sn) (Some d) (FileNode content)). split; [|done].
        rewrite (resolvePath_below fs' dest d entries' (name sn) Hd' Hnp') by done.
        by rewrite Hnn, Hs'.
      * apply Hgone. intros [= ->]. congruence.
  - intros e dp nn He Hrpn Hnn1 Hnn2.
    pose proof (resolveDestination_new dest (name sn) fs e He) as Hdest.
    rewrite Hrpn in Hdest.
    destruct (resolveParentAndName_children dest fs dp nn Hrpn)
      as (dpn & entries & Hdp & Hdpdata & Hentries).
    assert (entries !! nn = None) as Hfree.
    { pose proof (resolvePath_child fs dest dp nn entries Hrpn Hnn1 Hnn2 Hentries) as Hres.
      rewrite He in Hres. destruct (entries !! nn) as [c|]; [|done].
      by destruct (heap fs !! c). }
    split.
    + rewrite (cp_file_run fuel src dest fs s sn content dp nn dpn entries) by done.
      rewrite Hfree. eexists. split; [done|].
      set (fs' := created fs dp dpn entries nn (mkFSNode nn (Some dp) (FileNode content))).
      assert (extends fs fs') as Hext by (by apply extends_created).
      split; [|by apply (cat_extends fs fs')].
      apply cat_Ret. exists (fresh (dom (heap fs))), (mkFSNode nn (Some dp) (FileNode content)).
      split_and!; [|by apply created_new_node|done].
      apply resolvePath_created; try done. intros c. by rewrite Hfree.
    + destruct (mv_file_run fs fuel src dest s sn content dp nn entries)
        as (fs' & op' & entries' & Hrun & Hpar' & Hkeep & Hs' & Hnp' & Hnn & Hgone);
        try done.
      { intros c. by rewrite Hfree. }
      assert (op' = op) as -> by congruence.
      exists fs'. split; [done|]. split.
      * apply cat_Ret. exists s, (mkFSNode nn (Some dp) (FileNode content)). split; [|done].
        by apply (resolvePath_moved fs fs' dest s (mkFSNode nn (Some dp) (FileNode content)) dp nn entries').
      * apply Hgone. intros [= -> <-]. congruence.
Qed.

Lemma file_arrives_at_the_destination_witness :
  (∃ fs', cp 3 "/notes" "/home" fs_notes = (Ret tt, fs')
          ∧ cat ("/home" ++ String "/" "notes") fs' = Ret [xde; xad; xbe; xef]%byte
          ∧ cat "/notes" fs' = Ret [xde; xad; xbe; xef]%byte)
  ∧ (∃ fs', mv 3 "/notes" "/home/renamed" fs_notes = (Ret tt, fs')
            ∧ cat "/home/renamed" fs' = Ret [xde; xad; xbe; xef]%byte
            ∧ exists_ "/notes" fs' = Ret false).
Proof.
  assert (wf fs_notes) as Hwf by (apply wfb_sound; vm_compute; reflexivity).
  split.
  - destruct (file_arrives_at_the_destination fs_notes 3 "/notes" "/home" 3%positive
                (mkFSNode "notes" (Some 1%positive) (FileNode [xde; xad; xbe; xef]%byte))
                [xde; xad; xbe; xef]%byte) as [Hinto _];
      [done|vm_compute; reflexivity|vm_compute; reflexivity|reflexivity|vm_compute; lia|].
    destruct (Hinto 2%positive ∅) as [Hcp _]; [vm_compute; reflexivity..|].
    exact Hcp.
  - destruct (file_arrives_at_the_destination fs_notes 3 "/notes" "/home/renamed" 3%positive
                (mkFSNode "notes" (Some 1%positive) (FileNode [xde; xad; xbe; xef]%byte))
                [xde; xad; xbe; xef]%byte) as [_ Hnew];
      [done|vm_compute; reflexivity|vm_compute; reflexivity|reflexivity|vm_compute; lia|].
    destruct (Hnew NotFound 2%positive "renamed") as [_ Hmv];
      [vm_compute; reflexivity|vm_compute; reflexivity|done|done|].
    exact Hmv.
Defined.

(** ** The contract of [rm] *)







